(** * sarha-chat: local persistence of conversations and sessions

    A shallow embedding of [services/conversationService.ts]
    (ConversationStorageManager, syncConversationsToDB) and of the
    session service (LocalStorageManager, syncLocalSessionsToDB), with the
    properties of the specification stated and proved over it.

    The definitions come first: strings, JSON values, the runtime and
    the world, the keyed store, the two managers, sample data. The
    lemmas and theorems follow. *)

From Stdlib Require Import ZArith NArith Lia Ascii String Sorted.
From stdpp Require Import base option list gmap.

Open Scope Z_scope.

(** ** JavaScript strings

    A JavaScript string is a sequence of UTF-16 code units; [length],
    [substring] and [lastIndexOf] count code units. *)

Definition jsstring := list N.

Fixpoint code_units (s : string) : jsstring :=
  match s with
  | EmptyString => []
  | String a s' => N_of_ascii a :: code_units s'
  end.

Arguments code_units s%_string : simpl never.
Abbreviation js := code_units.

Definition SPACE : N := 32%N.

(** WhiteSpace and LineTerminator code points of ECMAScript, the ones
    [String.prototype.trim] strips. *)
Definition is_white_space (c : N) : bool :=
  ((c =? 9) || (c =? 10) || (c =? 11) || (c =? 12) || (c =? 13)
   || (c =? 32) || (c =? 160) || (c =? 5760)
   || ((8192 <=? c) && (c <=? 8202))
   || (c =? 8232) || (c =? 8233) || (c =? 8239) || (c =? 8287)
   || (c =? 12288) || (c =? 65279))%N.

Fixpoint trimStart (s : jsstring) : jsstring :=
  match s with
  | [] => []
  | c :: s' => if is_white_space c then trimStart s' else s
  end.

Definition trimEnd (s : jsstring) : jsstring := rev (trimStart (rev s)).

Definition trim (s : jsstring) : jsstring := trimEnd (trimStart s).

(** [s.substring(a, b)]: both indices are clamped to [0, length] and
    swapped when out of order. *)
Definition substring (s : jsstring) (a b : Z) : jsstring :=
  let len := Z.of_nat (length s) in
  let a' := Z.min (Z.max a 0) len in
  let b' := Z.min (Z.max b 0) len in
  let from := Z.min a' b' in
  let to := Z.max a' b' in
  take (Z.to_nat (to - from)) (drop (Z.to_nat from) s).

(** [s.lastIndexOf(c)] for a one-character search string: the greatest
    index holding [c], or -1. *)
Fixpoint lastIndexOf_from (c : N) (s : jsstring) (i acc : Z) : Z :=
  match s with
  | [] => acc
  | x :: s' => lastIndexOf_from c s' (i + 1) (if (x =? c)%N then i else acc)
  end.

Definition lastIndexOf (c : N) (s : jsstring) : Z := lastIndexOf_from c s 0 (-1).

(** [hay.includes(needle)] *)
Fixpoint starts_with (needle hay : jsstring) : bool :=
  match needle, hay with
  | [], _ => true
  | _ :: _, [] => false
  | a :: needle', b :: hay' => (a =? b)%N && starts_with needle' hay'
  end.

Fixpoint includes (needle hay : jsstring) : bool :=
  starts_with needle hay ||
  match hay with
  | [] => false
  | _ :: hay' => includes needle hay'
  end.

(** ** Title generation (ConversationStorageManager.generateTitle) *)

Definition ellipsis : jsstring := js "...".

Definition generateTitle (messageText : jsstring) : jsstring :=
  let cleanText := trim messageText in
  let maxLength := 50 in
  if Z.of_nat (length cleanText) <=? maxLength then cleanText
  else
    let truncated := substring cleanText 0 maxLength in
    let lastSpaceIndex := lastIndexOf SPACE truncated in
    if 0 <? lastSpaceIndex
    then substring truncated 0 lastSpaceIndex ++ ellipsis
    else truncated ++ ellipsis.

(** ** JSON values

    [localStorage] holds text. The managers only ever read it through
    [JSON.parse] and write it through [JSON.stringify], so a stored text
    is represented by the value [JSON.parse] makes of it, or by
    [Garbled] when [JSON.parse] throws (the empty string included).
    Numbers are the integers: the managers store counts and whole
    seconds only. *)

#[warnings="-register-all"]
Inductive json :=
| JNull
| JBool (b : bool)
| JNum (n : Z)
| JStr (s : jsstring)
| JArr (items : list json)
| JObj (props : list (jsstring * json)).

Inductive stored_text :=
| Garbled
| Parsed (value : json).

Fixpoint assoc (name : jsstring) (props : list (jsstring * json)) : option json :=
  match props with
  | [] => None
  | (k, v) :: props' => if decide (k = name) then Some v else assoc name props'
  end.

(** [v.name] on a parsed value: a TypeError on [null], [undefined] on the
    other values without such an own property. *)
Inductive lookup_result :=
| TypeError
| Undefined
| Found (v : json).

Definition get_property (v : json) (name : jsstring) : lookup_result :=
  match v with
  | JNull => TypeError
  | JObj props =>
      match assoc name props with
      | Some x => Found x
      | None => Undefined
      end
  | _ => Undefined
  end.

(** Typed reads of the properties of an object, used where TypeScript
    casts a parsed value to an interface. *)
Definition str_prop (props : list (jsstring * json)) (name : jsstring) : option jsstring :=
  match assoc name props with
  | Some (JStr s) => Some s
  | _ => None
  end.

Definition bool_prop (props : list (jsstring * json)) (name : jsstring) : option bool :=
  match assoc name props with
  | Some (JBool b) => Some b
  | _ => None
  end.

Definition num_prop (props : list (jsstring * json)) (name : jsstring) : option Z :=
  match assoc name props with
  | Some (JNum n) => Some n
  | _ => None
  end.

Definition arr_prop (props : list (jsstring * json)) (name : jsstring) : option (list json) :=
  match assoc name props with
  | Some (JArr items) => Some items
  | _ => None
  end.

(** An optional property ([name?: string]): absent, or of the type. *)
Definition opt_str_prop (props : list (jsstring * json)) (name : jsstring)
  : option (option jsstring) :=
  match assoc name props with
  | None => Some None
  | Some (JStr s) => Some (Some s)
  | Some _ => None
  end.

Definition opt_num_prop (props : list (jsstring * json)) (name : jsstring)
  : option (option Z) :=
  match assoc name props with
  | None => Some None
  | Some (JNum n) => Some (Some n)
  | Some _ => None
  end.

(** [JSON.stringify] leaves out a property whose value is [undefined]. *)
Definition opt_entry {A} (name : jsstring) (f : A → json) (o : option A)
  : list (jsstring * json) :=
  match o with
  | Some a => [(name, f a)]
  | None => []
  end.

(** ** The browser and the remote service

    What the code obtains from its environment is given by a [Runtime]:
    the clock, the UUID generator, the failures of [localStorage.setItem]
    and the answers of the remote database are oracles indexed by the
    number of earlier calls; [toISOString], date parsing and the local
    time zone are functions. *)

Record request := { table : jsstring; row : json }.

(** The awaited result of an insert: no error, an error object with its
    code and message, or a rejected promise. *)
Inductive response :=
| Inserted
| Error (code : jsstring) (message : option jsstring)
| Rejected.

Record Runtime := {
  (** the time value, in ms since the epoch, of the n-th [new Date()] *)
  clock : nat → Z;
  (** [Date.prototype.toISOString] of a time value *)
  toISOString : Z → jsstring;
  (** the time value of [new Date(s)]; [None] is an Invalid Date *)
  Date_parse : jsstring → option Z;
  (** ECMAScript's LocalTime and UTC: the local time zone, both ways *)
  LocalTime : Z → Z;
  UTC : Z → Z;
  (** the n-th result of [crypto.randomUUID()] *)
  randomUUID : nat → jsstring;
  (** whether the n-th call of [localStorage.setItem] throws *)
  quota_exceeded : nat → bool;
  (** the outcome of the n-th insert into the remote database *)
  remote : nat → response
}.

(** The world records what the operations can change, and how often they
    asked the runtime: the store, the number of clock reads, of UUIDs
    drawn and of calls of [setItem], and the requests sent to the remote
    database, in order. *)
Record World := {
  localStorage : gmap jsstring stored_text;
  dates : nat;
  uuids : nat;
  setItem_calls : nat;
  requests : list request
}.

(** ** The monad of the operations

    An operation reads the runtime and threads the world. [None] marks a
    run that left the typed fragment: the parsed value was cast to an
    interface it does not have. Exceptions of JavaScript are not [None];
    each function models its own [try]/[catch]. *)

Definition M (A : Type) : Type := Runtime → World → option (A * World).

Definition ret {A} (a : A) : M A := λ _ w, Some (a, w).

Definition bind {A B} (m : M A) (k : A → M B) : M B :=
  λ rt w, match m rt w with
          | Some (a, w') => k a rt w'
          | None => None
          end.

Declare Scope js_scope.
Delimit Scope js_scope with js.
Notation "x <- m ;; k" := (bind m (λ x, k))
  (at level 100, m at next level, right associativity) : js_scope.
Notation "m1 ;; m2" := (bind m1 (λ _, m2))
  (at level 100, right associativity) : js_scope.
Open Scope js_scope.

Definition ill_typed {A} : M A := λ _ _, None.

Definition runtime : M Runtime := λ rt w, Some (rt, w).

Definition msPerDay : Z := 86400000.

(** The marks an effect leaves in the world. *)
Definition tick (w : World) : World :=
  {| localStorage := localStorage w; dates := S (dates w); uuids := uuids w;
     setItem_calls := setItem_calls w; requests := requests w |}.

Definition drawn (w : World) : World :=
  {| localStorage := localStorage w; dates := dates w; uuids := S (uuids w);
     setItem_calls := setItem_calls w; requests := requests w |}.

Definition refused (w : World) : World :=
  {| localStorage := localStorage w; dates := dates w; uuids := uuids w;
     setItem_calls := S (setItem_calls w); requests := requests w |}.

Definition written (key : jsstring) (value : json) (w : World) : World :=
  {| localStorage := <[key := Parsed value]> (localStorage w); dates := dates w;
     uuids := uuids w; setItem_calls := S (setItem_calls w);
     requests := requests w |}.

Definition removed (key : jsstring) (w : World) : World :=
  {| localStorage := delete key (localStorage w); dates := dates w;
     uuids := uuids w; setItem_calls := setItem_calls w; requests := requests w |}.

Definition sent (r : request) (w : World) : World :=
  {| localStorage := localStorage w; dates := dates w; uuids := uuids w;
     setItem_calls := setItem_calls w; requests := requests w ++ [r] |}.

(** [new Date()] *)
Definition new_Date : M Z :=
  λ rt w, Some (clock rt (dates w), tick w).

(** [new Date().toISOString()] *)
Definition now_ISO : M jsstring :=
  t <- new_Date ;; rt <- runtime ;; ret (toISOString rt t).

(** [d = new Date(); d.setDate(d.getDate() - days)]. [setDate] works on
    the local time: with t = LocalTime(now) it builds
    MakeDate(MakeDay(year, month, DateFromTime(t) - days), TimeWithinDay(t)),
    which is t - days * msPerDay, and converts that back with UTC. *)
Definition setDate_back (rt : Runtime) (now days : Z) : Z :=
  UTC rt (LocalTime rt now - days * msPerDay).

Definition days_ago (days : Z) : M Z :=
  now <- new_Date ;; rt <- runtime ;;
  ret (setDate_back rt now days).

(** [new Date(s) >= cutoffDate]: an Invalid Date compares false. *)
Definition date_ge (rt : Runtime) (s : jsstring) (cutoffDate : Z) : bool :=
  match Date_parse rt s with
  | Some t => cutoffDate <=? t
  | None => false
  end.

(** [crypto.randomUUID()] *)
Definition crypto_randomUUID : M jsstring :=
  λ rt w, Some (randomUUID rt (uuids w), drawn w).

(** [localStorage.getItem(key)]; the store is taken to be accessible. *)
Definition getItem (key : jsstring) : M (option stored_text) :=
  λ _ w, Some (localStorage w !! key, w).

(** [localStorage.setItem(key, JSON.stringify(value))] inside a [try]:
    [true] when the text was stored, [false] when the call threw. *)
Definition setItem (key : jsstring) (value : json) : M bool :=
  λ rt w,
    if quota_exceeded rt (setItem_calls w)
    then Some (false, refused w)
    else Some (true, written key value w).

(** [localStorage.removeItem(key)] *)
Definition removeItem (key : jsstring) : M unit :=
  λ _ w, Some (tt, removed key w).

(** [await supabase.from(table).insert(row)] *)
Definition supabase_insert (table : jsstring) (row : json) : M response :=
  λ rt w, Some (remote rt (length (requests w)),
                sent {| table := table; row := row |} w).

(** [error.code === 'PGRST205' || error.message?.includes('Could not find the table')] *)
Definition table_not_found (code : jsstring) (message : option jsstring) : bool :=
  bool_decide (code = js "PGRST205")
  || match message with
     | Some m => includes (js "Could not find the table") m
     | None => false
     end.

Record Counts := { syncedCount : Z; failedCount : Z }.

Record DBResult := { success : bool; data : option Counts }.

(** ** The keyed local store

    Both managers keep one versioned document under one key and share
    the code of [getData], [saveData], [createEmptyData] and
    [migrateData]; they differ in the key, in the name of the property
    that holds the records, and in the records. *)

Record Document (R : Type) := {
  records : list R;
  lastCleanup : jsstring;
  version : jsstring
}.
Arguments records {R} _.
Arguments lastCleanup {R} _.
Arguments version {R} _.

Class Schema (R : Type) := {
  STORAGE_KEY : jsstring;
  records_field : jsstring;
  record_to_json : R → json;
  record_of_json : json → option R
}.

Definition SCHEMA_VERSION : jsstring := js "1.0.0".
Definition CLEANUP_DAYS : Z := 30.

Section KeyedStore.
Context {R : Type} `{Schema R}.

(** The value [JSON.stringify] writes for a document. *)
Definition to_json (d : Document R) : json :=
  JObj [ (records_field, JArr (map record_to_json (records d)));
         (js "lastCleanup", JStr (lastCleanup d));
         (js "version", JStr (version d)) ].

(** The cast of a parsed value to the document interface: defined on
    the values that have exactly the shape of a document. *)
Definition of_json (v : json) : option (Document R) :=
  match v with
  | JObj props =>
      if decide (length props = 3%nat) then
        items ← arr_prop props records_field;
        rs ← mapM record_of_json items;
        lc ← str_prop props (js "lastCleanup");
        ver ← str_prop props (js "version");
        Some {| records := rs; lastCleanup := lc; version := ver |}
      else None
  | _ => None
  end.

Definition empty_document (iso : jsstring) : Document R :=
  {| records := []; lastCleanup := iso; version := SCHEMA_VERSION |}.

Definition createEmptyData : M (Document R) :=
  iso <- now_ISO ;;
  ret (empty_document iso).

Definition migrateData (_oldData : json) : M (Document R) :=
  createEmptyData.

(** [getData]: the parsed value itself when it carries the current
    version, an empty document otherwise. *)
Definition getData : M json :=
  stored <- getItem STORAGE_KEY ;;
  match stored with
  | None => d <- createEmptyData ;; ret (to_json d)
  | Some Garbled => d <- createEmptyData ;; ret (to_json d)
  | Some (Parsed data) =>
      match get_property data (js "version") with
      | TypeError => d <- createEmptyData ;; ret (to_json d)
      | Found (JStr v) =>
          if decide (v = SCHEMA_VERSION) then ret data
          else d <- migrateData data ;; ret (to_json d)
      | Found _ | Undefined => d <- migrateData data ;; ret (to_json d)
      end
  end.

(** [const data: Document = getData()] *)
Definition readData : M (Document R) :=
  v <- getData ;;
  match of_json v with
  | Some d => ret d
  | None => ill_typed
  end.

(** [data.version = SCHEMA_VERSION; data.lastCleanup = iso] *)
Definition stamp (data : Document R) (iso : jsstring) : Document R :=
  {| records := records data; lastCleanup := iso; version := SCHEMA_VERSION |}.

Definition saveData (data : Document R) : M bool :=
  iso <- now_ISO ;;
  setItem STORAGE_KEY (to_json (stamp data iso)).

Definition clearAll : M bool :=
  removeItem STORAGE_KEY ;; ret true.

(** The cleanup both managers run: [createdAt] reads the creation
    timestamp of a record. *)
Definition cleanup (createdAt : R → jsstring) : M Z :=
  data <- readData ;;
  cutoffDate <- days_ago CLEANUP_DAYS ;;
  rt <- runtime ;;
  let initialCount := Z.of_nat (length (records data)) in
  let kept := filter (λ r, date_ge rt (createdAt r) cutoffDate = true) (records data) in
  let removedCount := initialCount - Z.of_nat (length kept) in
  if 0 <? removedCount
  then saveData {| records := kept; lastCleanup := lastCleanup data;
                   version := version data |} ;;
       ret removedCount
  else ret removedCount.
End KeyedStore.

(** The version string a parsed value carries, if it carries one. *)
Definition stored_version (data : json) : option jsstring :=
  match get_property data (js "version") with
  | Found (JStr v) => Some v
  | _ => None
  end.

Section StoreStates.
Context {R : Type} `{Schema R}.

(** The three ways [getData] ends up with a fresh document: no entry,
    a text that does not parse, a value of another version. *)
Definition resets (w : World) : Prop :=
  match localStorage w !! STORAGE_KEY with
  | None | Some Garbled => True
  | Some (Parsed data) => stored_version data ≠ Some SCHEMA_VERSION
  end.

(** A world whose store holds the document [d]. *)
Definition holds (w : World) (d : Document R) : Prop :=
  localStorage w !! STORAGE_KEY = Some (Parsed (to_json d))
  ∧ version d = SCHEMA_VERSION.

(** A world whose store reads as a document whose records have the
    property [P]. *)
Definition reads_with (P : list R → Prop) (rt : Runtime) (w : World) : Prop :=
  ∃ (d : Document R) (w1 : World), readData rt w = Some (d, w1) ∧ P (records d).
End StoreStates.
Arguments resets R {_} w.

(** What the proofs ask of a schema: records survive the way through
    JSON, and the records do not sit under the name of another property
    of the document. *)
Class SchemaLaws (R : Type) `{Schema R} := {
  record_roundtrip : ∀ r : R, record_of_json (record_to_json r) = Some r;
  records_field_not_lastCleanup : records_field ≠ js "lastCleanup";
  records_field_not_version : records_field ≠ js "version"
}.

(** ** Conversations (conversationService.ts) *)

Module LocalMessage.
Record t := {
  id : jsstring;
  text : jsstring;
  isUser : bool;
  timestamp : jsstring;
  conversationId : jsstring
}.
End LocalMessage.

Module LocalConversation.
Record t := {
  id : jsstring;
  userId : jsstring;
  title : option jsstring;
  messages : list LocalMessage.t;
  createdAt : jsstring;
  updatedAt : jsstring;
  synced : bool;
  messageCount : Z;
  lastMessageAt : jsstring
}.
End LocalConversation.

(** [Omit<LocalMessage, 'id' | 'conversationId'>], the argument of
    [addMessage]. *)
Module MessageInput.
Record t := {
  text : jsstring;
  isUser : bool;
  timestamp : jsstring
}.
End MessageInput.

Definition message_to_json (m : LocalMessage.t) : json :=
  JObj [ (js "id", JStr (LocalMessage.id m));
         (js "text", JStr (LocalMessage.text m));
         (js "isUser", JBool (LocalMessage.isUser m));
         (js "timestamp", JStr (LocalMessage.timestamp m));
         (js "conversationId", JStr (LocalMessage.conversationId m)) ].

Definition message_of_json (v : json) : option LocalMessage.t :=
  match v with
  | JObj props =>
      if decide (length props = 5%nat) then
        i ← str_prop props (js "id");
        t ← str_prop props (js "text");
        u ← bool_prop props (js "isUser");
        ts ← str_prop props (js "timestamp");
        c ← str_prop props (js "conversationId");
        Some {| LocalMessage.id := i; LocalMessage.text := t;
                LocalMessage.isUser := u; LocalMessage.timestamp := ts;
                LocalMessage.conversationId := c |}
      else None
  | _ => None
  end.

Definition conversation_to_json (c : LocalConversation.t) : json :=
  JObj ([ (js "id", JStr (LocalConversation.id c));
          (js "userId", JStr (LocalConversation.userId c));
          (js "messages", JArr (map message_to_json (LocalConversation.messages c)));
          (js "createdAt", JStr (LocalConversation.createdAt c));
          (js "updatedAt", JStr (LocalConversation.updatedAt c));
          (js "synced", JBool (LocalConversation.synced c));
          (js "messageCount", JNum (LocalConversation.messageCount c));
          (js "lastMessageAt", JStr (LocalConversation.lastMessageAt c)) ]
        ++ opt_entry (js "title") JStr (LocalConversation.title c)).

Definition conversation_of_json (v : json) : option LocalConversation.t :=
  match v with
  | JObj props =>
      i ← str_prop props (js "id");
      u ← str_prop props (js "userId");
      t ← opt_str_prop props (js "title");
      items ← arr_prop props (js "messages");
      ms ← mapM message_of_json items;
      ca ← str_prop props (js "createdAt");
      ua ← str_prop props (js "updatedAt");
      s ← bool_prop props (js "synced");
      n ← num_prop props (js "messageCount");
      la ← str_prop props (js "lastMessageAt");
      if decide (length props = 8 + length (opt_entry (js "title") JStr t))%nat then
        Some {| LocalConversation.id := i; LocalConversation.userId := u;
                LocalConversation.title := t; LocalConversation.messages := ms;
                LocalConversation.createdAt := ca; LocalConversation.updatedAt := ua;
                LocalConversation.synced := s; LocalConversation.messageCount := n;
                LocalConversation.lastMessageAt := la |}
      else None
  | _ => None
  end.

#[export] Instance conversation_schema : Schema LocalConversation.t := {|
  STORAGE_KEY := js "sarha_conversations";
  records_field := js "conversations";
  record_to_json := conversation_to_json;
  record_of_json := conversation_of_json
|}.

Abbreviation ConversationData := (Document LocalConversation.t).
Abbreviation conversations := (@records LocalConversation.t).

(** [!conversation.title]: no title, or the empty one. *)
Definition no_title (title : option jsstring) : bool :=
  match title with
  | None => true
  | Some [] => true
  | Some (_ :: _) => false
  end.

(** [message.timestamp || now] *)
Definition or_default (s fallback : jsstring) : jsstring :=
  match s with
  | [] => fallback
  | _ :: _ => s
  end.

(** [messages.slice(-n)] *)
Definition slice_last {A} (n : nat) (l : list A) : list A :=
  drop (length l - n) l.

Module ConversationStorageManager.
Definition MAX_CONVERSATIONS : nat := 50.
Definition MAX_MESSAGES_PER_CONVERSATION : nat := 100.

Definition getData : M json := getData (R := LocalConversation.t).
Definition readData : M ConversationData := readData.
Definition saveData (data : ConversationData) : M bool := saveData data.
Definition clearAll : M bool := clearAll (R := LocalConversation.t).

Definition with_conversations (data : ConversationData)
    (cs : list LocalConversation.t) : ConversationData :=
  {| records := cs; lastCleanup := lastCleanup data; version := version data |}.

(** The object literal [createConversation] builds, with the title
    assigned when the first message is the user's. *)
Definition new_conversation (userId : jsstring) (initialMessage : option LocalMessage.t)
    (uuid now : jsstring) : LocalConversation.t :=
  {| LocalConversation.id := uuid;
     LocalConversation.userId := userId;
     LocalConversation.title :=
       match initialMessage with
       | Some m =>
           if LocalMessage.isUser m
           then Some (generateTitle (LocalMessage.text m))
           else None
       | None => None
       end;
     LocalConversation.messages :=
       match initialMessage with Some m => [m] | None => [] end;
     LocalConversation.createdAt := now;
     LocalConversation.updatedAt := now;
     LocalConversation.synced := false;
     LocalConversation.messageCount :=
       match initialMessage with Some _ => 1 | None => 0 end;
     LocalConversation.lastMessageAt :=
       match initialMessage with
       | Some m => LocalMessage.timestamp m
       | None => now
       end |}.

(** The cap on the conversations of [userId], applied to the list the
    new conversation was unshifted to. *)
Definition limit_conversations (userId : jsstring)
    (unshifted : list LocalConversation.t) : list LocalConversation.t :=
  let userConversations :=
    filter (λ c, LocalConversation.userId c = userId) unshifted in
  if decide (MAX_CONVERSATIONS < length userConversations)%nat then
    let conversationsToRemove := drop MAX_CONVERSATIONS userConversations in
    filter (λ c, ¬ Exists (λ toRemove, LocalConversation.id toRemove
                                       = LocalConversation.id c)
                          conversationsToRemove)
           unshifted
  else unshifted.

Definition createConversation (userId : jsstring)
    (initialMessage : option LocalMessage.t) : M (option LocalConversation.t) :=
  data <- readData ;;
  now <- now_ISO ;;
  uuid <- crypto_randomUUID ;;
  let conversation := new_conversation userId initialMessage uuid now in
  let limited := limit_conversations userId (conversation :: conversations data) in
  saved <- saveData (with_conversations data limited) ;;
  if saved then ret (Some conversation) else ret None.

(** The conversation after [addMessage] has pushed [newMessage] at time
    [now]. *)
Definition push_message (conversation : LocalConversation.t)
    (newMessage : LocalMessage.t) (now : jsstring) : LocalConversation.t :=
  let pushed := LocalConversation.messages conversation ++ [newMessage] in
  let capped :=
    if decide (MAX_MESSAGES_PER_CONVERSATION < length pushed)%nat
    then slice_last MAX_MESSAGES_PER_CONVERSATION pushed
    else pushed in
  {| LocalConversation.id := LocalConversation.id conversation;
     LocalConversation.userId := LocalConversation.userId conversation;
     LocalConversation.title :=
       if no_title (LocalConversation.title conversation) && LocalMessage.isUser newMessage
       then Some (generateTitle (LocalMessage.text newMessage))
       else LocalConversation.title conversation;
     LocalConversation.messages := capped;
     LocalConversation.createdAt := LocalConversation.createdAt conversation;
     LocalConversation.updatedAt := now;
     LocalConversation.synced := LocalConversation.synced conversation;
     LocalConversation.messageCount := Z.of_nat (length capped);
     LocalConversation.lastMessageAt := LocalMessage.timestamp newMessage |}.

(** [{ ...message, id: uuid, conversationId, timestamp: message.timestamp || now }] *)
Definition new_message (message : MessageInput.t) (uuid conversationId now : jsstring)
  : LocalMessage.t :=
  {| LocalMessage.text := MessageInput.text message;
     LocalMessage.isUser := MessageInput.isUser message;
     LocalMessage.id := uuid;
     LocalMessage.conversationId := conversationId;
     LocalMessage.timestamp := or_default (MessageInput.timestamp message) now |}.

Definition addMessage (conversationId : jsstring) (message : MessageInput.t) : M bool :=
  data <- readData ;;
  match list_find (λ c, LocalConversation.id c = conversationId) (conversations data) with
  | None => ret false
  | Some (conversationIndex, conversation) =>
      now <- now_ISO ;;
      uuid <- crypto_randomUUID ;;
      let newMessage := new_message message uuid conversationId now in
      saveData (with_conversations data
                  (<[conversationIndex := push_message conversation newMessage now]>
                     (conversations data)))
  end.

Definition getConversation (conversationId : jsstring) : M (option LocalConversation.t) :=
  data <- readData ;;
  ret (snd <$> list_find (λ c, LocalConversation.id c = conversationId) (conversations data)).

Definition mark (conversation : LocalConversation.t) (now : jsstring) : LocalConversation.t :=
  {| LocalConversation.id := LocalConversation.id conversation; LocalConversation.userId := LocalConversation.userId conversation;
     LocalConversation.title := LocalConversation.title conversation; LocalConversation.messages := LocalConversation.messages conversation;
     LocalConversation.createdAt := LocalConversation.createdAt conversation; LocalConversation.updatedAt := now;
     LocalConversation.synced := true; LocalConversation.messageCount := LocalConversation.messageCount conversation;
     LocalConversation.lastMessageAt := LocalConversation.lastMessageAt conversation |}.

Definition markSynced (conversationId : jsstring) : M bool :=
  data <- readData ;;
  match list_find (λ c, LocalConversation.id c = conversationId) (conversations data) with
  | None => ret false
  | Some (index, conversation) =>
      now <- now_ISO ;;
      saveData (with_conversations data
                  (<[index := mark conversation now]> (conversations data)))
  end.

Definition deleteConversation (conversationId : jsstring) : M bool :=
  data <- readData ;;
  let initialLength := length (conversations data) in
  let remaining := filter (λ c, LocalConversation.id c ≠ conversationId) (conversations data) in
  if decide (length remaining < initialLength)%nat
  then saveData (with_conversations data remaining)
  else ret false.

Definition cleanupOldConversations : M Z := cleanup LocalConversation.createdAt.
End ConversationStorageManager.

(** *** syncConversationsToDB *)

Definition conversation_row (c : LocalConversation.t) : json :=
  JObj ([ (js "id", JStr (LocalConversation.id c));
          (js "user_id", JStr (LocalConversation.userId c)) ]
        ++ opt_entry (js "title") JStr (LocalConversation.title c)
        ++ [ (js "created_at", JStr (LocalConversation.createdAt c));
             (js "updated_at", JStr (LocalConversation.updatedAt c));
             (js "message_count", JNum (LocalConversation.messageCount c)) ]).

Definition message_row (m : LocalMessage.t) : json :=
  JObj [ (js "id", JStr (LocalMessage.id m));
         (js "conversation_id", JStr (LocalMessage.conversationId m));
         (js "content", JStr (LocalMessage.text m));
         (js "is_user", JBool (LocalMessage.isUser m));
         (js "created_at", JStr (LocalMessage.timestamp m)) ].

(** The inner loop: every message is sent; an error or a rejected call
    is logged and the loop goes on. *)
Fixpoint sync_messages (ms : list LocalMessage.t) : M unit :=
  match ms with
  | [] => ret tt
  | message :: rest =>
      supabase_insert (js "conversation_messages") (message_row message) ;;
      sync_messages rest
  end.

Fixpoint sync_conversations (cs : list LocalConversation.t)
    (syncedCount failedCount : Z) : M Counts :=
  match cs with
  | [] => ret {| syncedCount := syncedCount; failedCount := failedCount |}
  | conversation :: rest =>
      r <- supabase_insert (js "conversations") (conversation_row conversation) ;;
      match r with
      | Rejected => sync_conversations rest syncedCount (failedCount + 1)
      | Error code message =>
          if table_not_found code message then
            ConversationStorageManager.markSynced (LocalConversation.id conversation) ;;
            sync_conversations rest (syncedCount + 1) failedCount
          else sync_conversations rest syncedCount (failedCount + 1)
      | Inserted =>
          sync_messages (LocalConversation.messages conversation) ;;
          ConversationStorageManager.markSynced (LocalConversation.id conversation) ;;
          sync_conversations rest (syncedCount + 1) failedCount
      end
  end.

Definition syncConversationsToDB : M DBResult :=
  data <- ConversationStorageManager.readData ;;
  let allConversations := conversations data in
  let unsyncedConversations :=
    filter (λ c, LocalConversation.synced c = false) allConversations in
  if decide (length unsyncedConversations = 0%nat) then
    ret {| success := true; data := Some {| syncedCount := 0; failedCount := 0 |} |}
  else
    counts <- sync_conversations unsyncedConversations 0 0 ;;
    ret {| success := true; data := Some counts |}.

(** *** The operations of the manager and the invariant of the counts *)

Inductive operation :=
| CreateConversation (userId : jsstring) (initialMessage : option LocalMessage.t)
| AddMessage (conversationId : jsstring) (message : MessageInput.t)
| MarkSynced (conversationId : jsstring)
| DeleteConversation (conversationId : jsstring)
| CleanupOldConversations.

Definition perform (op : operation) : M unit :=
  match op with
  | CreateConversation userId initialMessage =>
      ConversationStorageManager.createConversation userId initialMessage ;; ret tt
  | AddMessage conversationId message =>
      ConversationStorageManager.addMessage conversationId message ;; ret tt
  | MarkSynced conversationId =>
      ConversationStorageManager.markSynced conversationId ;; ret tt
  | DeleteConversation conversationId =>
      ConversationStorageManager.deleteConversation conversationId ;; ret tt
  | CleanupOldConversations =>
      ConversationStorageManager.cleanupOldConversations ;; ret tt
  end.

(** The message count of a conversation is the length of its messages. *)
Definition count_matches (c : LocalConversation.t) : Prop :=
  LocalConversation.messageCount c = Z.of_nat (length (LocalConversation.messages c)).

Definition counts_consistent (cs : list LocalConversation.t) : Prop :=
  Forall count_matches cs.

Fixpoint perform_all (ops : list operation) : M unit :=
  match ops with
  | [] => ret tt
  | op :: rest => perform op ;; perform_all rest
  end.

(** ** Sessions (userActivity.ts) *)

Module LocalSession.
Record t := {
  id : jsstring;
  userId : jsstring;
  userAgent : jsstring;
  loginAt : jsstring;
  logoutAt : option jsstring;
  durationSeconds : option Z;
  synced : bool;
  createdAt : jsstring;
  updatedAt : jsstring
}.
End LocalSession.

(** [Omit<LocalSession, 'id' | 'synced' | 'createdAt' | 'updatedAt'>],
    the argument of [addSession]. *)
Module SessionInput.
Record t := {
  userId : jsstring;
  userAgent : jsstring;
  loginAt : jsstring;
  logoutAt : option jsstring;
  durationSeconds : option Z
}.
End SessionInput.

(** [Partial<LocalSession>], the argument of [updateSession]: [None] is a
    property the object does not have. An optional field can also be
    supplied with the value [undefined]. *)
Module SessionUpdates.
Record t := {
  id : option jsstring;
  userId : option jsstring;
  userAgent : option jsstring;
  loginAt : option jsstring;
  logoutAt : option (option jsstring);
  durationSeconds : option (option Z);
  synced : option bool;
  createdAt : option jsstring;
  updatedAt : option jsstring
}.

Definition empty : t :=
  {| id := None; userId := None; userAgent := None; loginAt := None;
     logoutAt := None; durationSeconds := None; synced := None;
     createdAt := None; updatedAt := None |}.
End SessionUpdates.

Definition session_to_json (s : LocalSession.t) : json :=
  JObj ([ (js "id", JStr (LocalSession.id s));
          (js "userId", JStr (LocalSession.userId s));
          (js "userAgent", JStr (LocalSession.userAgent s));
          (js "loginAt", JStr (LocalSession.loginAt s));
          (js "synced", JBool (LocalSession.synced s));
          (js "createdAt", JStr (LocalSession.createdAt s));
          (js "updatedAt", JStr (LocalSession.updatedAt s)) ]
        ++ opt_entry (js "logoutAt") JStr (LocalSession.logoutAt s)
        ++ opt_entry (js "durationSeconds") JNum (LocalSession.durationSeconds s)).

Definition session_of_json (v : json) : option LocalSession.t :=
  match v with
  | JObj props =>
      i ← str_prop props (js "id");
      u ← str_prop props (js "userId");
      a ← str_prop props (js "userAgent");
      li ← str_prop props (js "loginAt");
      lo ← opt_str_prop props (js "logoutAt");
      d ← opt_num_prop props (js "durationSeconds");
      s ← bool_prop props (js "synced");
      ca ← str_prop props (js "createdAt");
      ua ← str_prop props (js "updatedAt");
      if decide (length props = 7 + length (opt_entry (js "logoutAt") JStr lo)
                                  + length (opt_entry (js "durationSeconds") JNum d))%nat
      then
        Some {| LocalSession.id := i; LocalSession.userId := u;
                LocalSession.userAgent := a; LocalSession.loginAt := li;
                LocalSession.logoutAt := lo; LocalSession.durationSeconds := d;
                LocalSession.synced := s; LocalSession.createdAt := ca;
                LocalSession.updatedAt := ua |}
      else None
  | _ => None
  end.

#[export] Instance session_schema : Schema LocalSession.t := {|
  STORAGE_KEY := js "sarha_user_sessions";
  records_field := js "sessions";
  record_to_json := session_to_json;
  record_of_json := session_of_json
|}.

Abbreviation LocalSessionData := (Document LocalSession.t).
Abbreviation sessions := (@records LocalSession.t).

(** [{ ...session, ...updates, updatedAt: now }] *)
Definition merge_session (session : LocalSession.t) (updates : SessionUpdates.t)
    (now : jsstring) : LocalSession.t :=
  {| LocalSession.id := default (LocalSession.id session) (SessionUpdates.id updates);
     LocalSession.userId :=
       default (LocalSession.userId session) (SessionUpdates.userId updates);
     LocalSession.userAgent :=
       default (LocalSession.userAgent session) (SessionUpdates.userAgent updates);
     LocalSession.loginAt :=
       default (LocalSession.loginAt session) (SessionUpdates.loginAt updates);
     LocalSession.logoutAt :=
       default (LocalSession.logoutAt session) (SessionUpdates.logoutAt updates);
     LocalSession.durationSeconds :=
       default (LocalSession.durationSeconds session)
               (SessionUpdates.durationSeconds updates);
     LocalSession.synced :=
       default (LocalSession.synced session) (SessionUpdates.synced updates);
     LocalSession.createdAt :=
       default (LocalSession.createdAt session) (SessionUpdates.createdAt updates);
     LocalSession.updatedAt := now |}.

Module LocalStorageManager.
Definition MAX_SESSIONS : nat := 1000.

Definition getData : M json := getData (R := LocalSession.t).
Definition readData : M LocalSessionData := readData.
Definition saveData (data : LocalSessionData) : M bool := saveData data.
Definition clearAll : M bool := clearAll (R := LocalSession.t).

Definition with_sessions (data : LocalSessionData)
    (ss : list LocalSession.t) : LocalSessionData :=
  {| records := ss; lastCleanup := lastCleanup data; version := version data |}.

Definition addSession (session : SessionInput.t) : M (option LocalSession.t) :=
  data <- readData ;;
  now <- now_ISO ;;
  uuid <- crypto_randomUUID ;;
  let newSession :=
    {| LocalSession.userId := SessionInput.userId session;
       LocalSession.userAgent := SessionInput.userAgent session;
       LocalSession.loginAt := SessionInput.loginAt session;
       LocalSession.logoutAt := SessionInput.logoutAt session;
       LocalSession.durationSeconds := SessionInput.durationSeconds session;
       LocalSession.id := uuid;
       LocalSession.synced := false;
       LocalSession.createdAt := now;
       LocalSession.updatedAt := now |} in
  let unshifted := newSession :: sessions data in
  let limited :=
    if decide (MAX_SESSIONS < length unshifted)%nat
    then take MAX_SESSIONS unshifted
    else unshifted in
  saved <- saveData (with_sessions data limited) ;;
  if saved then ret (Some newSession) else ret None.

Definition updateSession (sessionId : jsstring) (updates : SessionUpdates.t) : M bool :=
  data <- readData ;;
  match list_find (λ s, LocalSession.id s = sessionId) (sessions data) with
  | None => ret false
  | Some (sessionIndex, session) =>
      now <- now_ISO ;;
      saveData (with_sessions data
                  (<[sessionIndex := merge_session session updates now]>
                     (sessions data)))
  end.

Definition markSynced (sessionId : jsstring) : M bool :=
  updateSession sessionId
    {| SessionUpdates.id := None; SessionUpdates.userId := None;
       SessionUpdates.userAgent := None; SessionUpdates.loginAt := None;
       SessionUpdates.logoutAt := None; SessionUpdates.durationSeconds := None;
       SessionUpdates.synced := Some true;
       SessionUpdates.createdAt := None; SessionUpdates.updatedAt := None |}.

Definition cleanupOldData : M Z := cleanup LocalSession.createdAt.

Definition getUserSessions (userId : jsstring) : M (list LocalSession.t) :=
  data <- readData ;;
  ret (filter (λ s, LocalSession.userId s = userId) (sessions data)).

Definition getAllSessions : M (list LocalSession.t) :=
  data <- readData ;;
  ret (sessions data).
End LocalStorageManager.

(** *** syncLocalSessionsToDB *)

Definition session_row (s : LocalSession.t) : json :=
  JObj ([ (js "user_id", JStr (LocalSession.userId s));
          (js "user_agent", JStr (LocalSession.userAgent s));
          (js "login_at", JStr (LocalSession.loginAt s)) ]
        ++ opt_entry (js "logout_at") JStr (LocalSession.logoutAt s)
        ++ opt_entry (js "duration_seconds") JNum (LocalSession.durationSeconds s)).

Fixpoint sync_sessions (ss : list LocalSession.t)
    (syncedCount failedCount : Z) : M Counts :=
  match ss with
  | [] => ret {| syncedCount := syncedCount; failedCount := failedCount |}
  | session :: rest =>
      r <- supabase_insert (js "user_sessions") (session_row session) ;;
      match r with
      | Rejected => sync_sessions rest syncedCount (failedCount + 1)
      | Error code message =>
          if table_not_found code message then
            LocalStorageManager.markSynced (LocalSession.id session) ;;
            sync_sessions rest (syncedCount + 1) failedCount
          else sync_sessions rest syncedCount (failedCount + 1)
      | Inserted =>
          LocalStorageManager.markSynced (LocalSession.id session) ;;
          sync_sessions rest (syncedCount + 1) failedCount
      end
  end.

Definition syncLocalSessionsToDB : M DBResult :=
  allSessions <- LocalStorageManager.getAllSessions ;;
  let unsyncedSessions := filter (λ s, LocalSession.synced s = false) allSessions in
  if decide (length unsyncedSessions = 0%nat) then
    ret {| success := true; data := Some {| syncedCount := 0; failedCount := 0 |} |}
  else
    counts <- sync_sessions unsyncedSessions 0 0 ;;
    ret {| success := true; data := Some counts |}.

(** ** More of the two services *)

(** *** getUserConversations

    [filter(...).sort((a, b) => new Date(b.updatedAt).getTime() -
    new Date(a.updatedAt).getTime())]. [Array.prototype.sort] is stable,
    and with a comparator that orders the elements consistently its
    result is fixed: here the conversations from the latest update to the
    earliest, those of equal time in their stored order. A timestamp that
    is an Invalid Date makes the comparator return NaN; the order is then
    left to the implementation, and the run is not modelled ([None]). An
    array of one element or none is returned without a comparison. *)

Fixpoint insert_desc {A} (key : A → Z) (x : A) (l : list A) : list A :=
  match l with
  | [] => [x]
  | y :: l' => if key x <? key y then y :: insert_desc key x l' else x :: l
  end.

Definition sort_desc {A} (key : A → Z) (l : list A) : list A :=
  foldr (insert_desc key) [] l.

(** [new Date(s).getTime()] of a valid date. *)
Definition getTime (rt : Runtime) (s : jsstring) : Z :=
  default 0 (Date_parse rt s).

Definition unspecified {A} : M A := λ _ _, None.

Definition getUserConversations (userId : jsstring) : M (list LocalConversation.t) :=
  data <- ConversationStorageManager.readData ;;
  rt <- runtime ;;
  let mine := filter (λ c, LocalConversation.userId c = userId) (conversations data) in
  if decide (length mine ≤ 1)%nat then ret mine
  else
    match mapM (λ c, Date_parse rt (LocalConversation.updatedAt c)) mine with
    | Some _ => ret (sort_desc (λ c, getTime rt (LocalConversation.updatedAt c)) mine)
    | None => unspecified
    end.

(** *** registerSession

    The result object: [{ success: true, data: localSession }] when the
    remote table is missing, [{ success: false, error }] for another
    error or a rejected call, [{ success: true, data }] with the data of
    the remote insert otherwise. *)

Inductive RegisterResult :=
| SavedLocally (localSession : option LocalSession.t)
| RemoteFailure (error : response)
| Registered.

Definition register_success (r : RegisterResult) : bool :=
  match r with
  | SavedLocally _ | Registered => true
  | RemoteFailure _ => false
  end.

Definition registerSession (userId userAgent : jsstring) : M RegisterResult :=
  loginAt <- now_ISO ;;
  localSession <-
    LocalStorageManager.addSession
      {| SessionInput.userId := userId;
         SessionInput.userAgent := userAgent;
         SessionInput.loginAt := loginAt;
         SessionInput.logoutAt := None;
         SessionInput.durationSeconds := None |} ;;
  r <- supabase_insert (js "user_sessions")
         (JObj [ (js "user_id", JStr userId); (js "user_agent", JStr userAgent) ]) ;;
  match r with
  | Rejected => ret (RemoteFailure r)
  | Error code message =>
      if table_not_found code message then ret (SavedLocally localSession)
      else ret (RemoteFailure r)
  | Inserted =>
      match localSession with
      | Some s => LocalStorageManager.markSynced (LocalSession.id s) ;; ret Registered
      | None => ret Registered
      end
  end.

(** *** The operations as changes of the stored list

    What an operation of the conversation manager writes, when it writes:
    the conversations of the document it read, changed as follows. [w1]
    is the world after the read; the time and the UUID are the next ones
    of the runtime. *)

Definition changed (rt : Runtime) (w1 : World) (op : operation)
    (l : list LocalConversation.t) : list LocalConversation.t :=
  let now := toISOString rt (clock rt (dates w1)) in
  let uuid := randomUUID rt (uuids w1) in
  match op with
  | CreateConversation userId initialMessage =>
      ConversationStorageManager.limit_conversations userId
        (ConversationStorageManager.new_conversation userId initialMessage uuid now :: l)
  | AddMessage conversationId message =>
      match list_find (λ c, LocalConversation.id c = conversationId) l with
      | Some (i, c) =>
          <[i := ConversationStorageManager.push_message c
                   (ConversationStorageManager.new_message message uuid conversationId now)
                   now]> l
      | None => l
      end
  | MarkSynced conversationId =>
      match list_find (λ c, LocalConversation.id c = conversationId) l with
      | Some (i, c) => <[i := ConversationStorageManager.mark c now]> l
      | None => l
      end
  | DeleteConversation conversationId =>
      filter (λ c, LocalConversation.id c ≠ conversationId) l
  | CleanupOldConversations =>
      filter (λ c, date_ge rt (LocalConversation.createdAt c)
                     (setDate_back rt (clock rt (dates w1)) CLEANUP_DAYS) = true) l
  end.

(** The operations of the session manager that write. *)
Inductive session_operation :=
| AddSession (session : SessionInput.t)
| UpdateSession (sessionId : jsstring) (updates : SessionUpdates.t)
| MarkSessionSynced (sessionId : jsstring)
| CleanupOldData.

Definition perform_session (op : session_operation) : M unit :=
  match op with
  | AddSession session => LocalStorageManager.addSession session ;; ret tt
  | UpdateSession sessionId updates =>
      LocalStorageManager.updateSession sessionId updates ;; ret tt
  | MarkSessionSynced sessionId => LocalStorageManager.markSynced sessionId ;; ret tt
  | CleanupOldData => LocalStorageManager.cleanupOldData ;; ret tt
  end.

(** The update [markSynced] passes to [updateSession]. *)
Definition synced_update : SessionUpdates.t :=
  {| SessionUpdates.id := None; SessionUpdates.userId := None;
     SessionUpdates.userAgent := None; SessionUpdates.loginAt := None;
     SessionUpdates.logoutAt := None; SessionUpdates.durationSeconds := None;
     SessionUpdates.synced := Some true;
     SessionUpdates.createdAt := None; SessionUpdates.updatedAt := None |}.

(** The session [addSession] builds. *)
Definition new_session (session : SessionInput.t) (uuid now : jsstring) : LocalSession.t :=
  {| LocalSession.userId := SessionInput.userId session;
     LocalSession.userAgent := SessionInput.userAgent session;
     LocalSession.loginAt := SessionInput.loginAt session;
     LocalSession.logoutAt := SessionInput.logoutAt session;
     LocalSession.durationSeconds := SessionInput.durationSeconds session;
     LocalSession.id := uuid;
     LocalSession.synced := false;
     LocalSession.createdAt := now;
     LocalSession.updatedAt := now |}.

Definition changed_sessions (rt : Runtime) (w1 : World) (op : session_operation)
    (l : list LocalSession.t) : list LocalSession.t :=
  let now := toISOString rt (clock rt (dates w1)) in
  let uuid := randomUUID rt (uuids w1) in
  match op with
  | AddSession session => take 1000 (new_session session uuid now :: l)
  | UpdateSession sessionId updates =>
      match list_find (λ s, LocalSession.id s = sessionId) l with
      | Some (i, s) => <[i := merge_session s updates now]> l
      | None => l
      end
  | MarkSessionSynced sessionId =>
      match list_find (λ s, LocalSession.id s = sessionId) l with
      | Some (i, s) => <[i := merge_session s synced_update now]> l
      | None => l
      end
  | CleanupOldData =>
      filter (λ s, date_ge rt (LocalSession.createdAt s)
                     (setDate_back rt (clock rt (dates w1)) CLEANUP_DAYS) = true) l
  end.

(** Answers of the remote database after which a record counts as
    synced: the insert went through, or the table does not exist. *)
Definition settles (r : response) : bool :=
  match r with
  | Inserted => true
  | Error code message => table_not_found code message
  | Rejected => false
  end.

Section StoreEffects.
Context {R : Type} `{Schema R}.

(** The store after an operation that read the document [d] and may have
    written the records [l]: untouched, or with [l], stamped, under the
    key of the manager. *)
Definition left_or_wrote (w w' : World) (d : Document R) (l : list R) : Prop :=
  localStorage w' = localStorage w
  ∨ ∃ iso, localStorage w'
           = <[STORAGE_KEY := Parsed (to_json (stamp {| records := l;
                                                      lastCleanup := lastCleanup d;
                                                      version := version d |} iso))]>
               (localStorage w).
End StoreEffects.

(** *** The invariants of the stored lists *)

(** No user has more than 50 conversations. *)
Definition within_user_cap (l : list LocalConversation.t) : Prop :=
  ∀ userId, (length (filter (λ c, LocalConversation.userId c = userId) l) ≤ 50)%nat.

(** No conversation has more than 100 messages. *)
Definition within_message_cap (l : list LocalConversation.t) : Prop :=
  Forall (λ c, (length (LocalConversation.messages c) ≤ 100)%nat) l.

(** No two conversations have the same identifier. *)
Definition ids_distinct (l : list LocalConversation.t) : Prop :=
  NoDup (LocalConversation.id <$> l).

(** [createConversation] draws an identifier the list does not have. *)
Definition draws_fresh (rt : Runtime) (w1 : World) (op : operation)
    (l : list LocalConversation.t) : Prop :=
  match op with
  | CreateConversation _ _ => randomUUID rt (uuids w1) ∉ LocalConversation.id <$> l
  | _ => True
  end.

(** There are at most 1000 sessions. *)
Definition within_session_cap (l : list LocalSession.t) : Prop :=
  (length l ≤ 1000)%nat.

(** The requests the two synchronisations send. *)
Definition session_request (s : LocalSession.t) : request :=
  {| table := js "user_sessions"; row := session_row s |}.

Definition conversation_request (c : LocalConversation.t) : request :=
  {| table := js "conversations"; row := conversation_row c |}.

(** A world whose store reads as a document of the manager. *)
Definition readable (R : Type) `{Schema R} (rt : Runtime) (w : World) : Prop :=
  reads_with (R := R) (λ _, True) rt w.

(** The row [registerSession] sends. *)
Definition register_request (userId userAgent : jsstring) : request :=
  {| table := js "user_sessions";
     row := JObj [ (js "user_id", JStr userId); (js "user_agent", JStr userAgent) ] |}.

Definition inserted (r : response) : bool :=
  match r with Inserted => true | _ => false end.

(** ** Sample runtimes, worlds and documents

    Used to run the operations on concrete inputs. *)

Definition stamp_of (t : Z) : jsstring := [Z.to_N t].

Definition sample_runtime : Runtime :=
  {| clock := λ n, 1000 + Z.of_nat n;
     toISOString := stamp_of;
     Date_parse := λ s, match s with [n] => Some (Z.of_N n) | _ => None end;
     LocalTime := λ t, t;
     UTC := λ t, t;
     randomUUID := λ n, js "uuid-" ++ [N.of_nat n];
     quota_exceeded := λ _, false;
     remote := λ _, Inserted |}.

Definition empty_world : World :=
  {| localStorage := ∅; dates := 0; uuids := 0; setItem_calls := 0; requests := [] |}.

Definition sample_message : LocalMessage.t :=
  {| LocalMessage.id := js "m1";
     LocalMessage.text := js "Hola";
     LocalMessage.isUser := true;
     LocalMessage.timestamp := stamp_of 900;
     LocalMessage.conversationId := js "c1" |}.

Definition sample_conversation (id userId : jsstring) (synced : bool) : LocalConversation.t :=
  {| LocalConversation.id := id;
     LocalConversation.userId := userId;
     LocalConversation.title := Some (js "Hola");
     LocalConversation.messages := [sample_message];
     LocalConversation.createdAt := stamp_of 900;
     LocalConversation.updatedAt := stamp_of 900;
     LocalConversation.synced := synced;
     LocalConversation.messageCount := 1;
     LocalConversation.lastMessageAt := stamp_of 900 |}.

Definition sample_conversations : ConversationData :=
  {| records := [ sample_conversation (js "c1") (js "user-1") true;
                  sample_conversation (js "c2") (js "user-2") true ];
     lastCleanup := stamp_of 950;
     version := SCHEMA_VERSION |}.

Definition sample_session (id : jsstring) (synced : bool) : LocalSession.t :=
  {| LocalSession.id := id;
     LocalSession.userId := js "user-1";
     LocalSession.userAgent := js "Test Browser/1.0";
     LocalSession.loginAt := stamp_of 900;
     LocalSession.logoutAt := None;
     LocalSession.durationSeconds := None;
     LocalSession.synced := synced;
     LocalSession.createdAt := stamp_of 900;
     LocalSession.updatedAt := stamp_of 900 |}.

Definition sample_sessions : LocalSessionData :=
  {| records := [ sample_session (js "s1") true; sample_session (js "s2") true ];
     lastCleanup := stamp_of 950;
     version := SCHEMA_VERSION |}.

(** A world whose store holds both sample documents. *)
Definition sample_world : World :=
  {| localStorage :=
       <[js "sarha_conversations" := Parsed (to_json sample_conversations)]>
         (<[js "sarha_user_sessions" := Parsed (to_json sample_sessions)]> ∅);
     dates := 0; uuids := 0; setItem_calls := 0; requests := [] |}.

(** A conversation at the cap of 100 messages, alone in its store. *)
Definition numbered_message (n : nat) : LocalMessage.t :=
  {| LocalMessage.id := js "m" ++ [N.of_nat n];
     LocalMessage.text := js "mensaje";
     LocalMessage.isUser := Nat.even n;
     LocalMessage.timestamp := stamp_of (Z.of_nat n);
     LocalMessage.conversationId := js "c1" |}.

Definition full_conversation : LocalConversation.t :=
  {| LocalConversation.id := js "c1";
     LocalConversation.userId := js "user-1";
     LocalConversation.title := Some (js "mensaje");
     LocalConversation.messages := map numbered_message (seq 0 100);
     LocalConversation.createdAt := stamp_of 0;
     LocalConversation.updatedAt := stamp_of 99;
     LocalConversation.synced := false;
     LocalConversation.messageCount := 100;
     LocalConversation.lastMessageAt := stamp_of 99 |}.

Definition full_conversations : ConversationData :=
  {| records := [full_conversation]; lastCleanup := stamp_of 950;
     version := SCHEMA_VERSION |}.

Definition full_world : World :=
  written (js "sarha_conversations") (to_json full_conversations) empty_world.

Definition sample_input : MessageInput.t :=
  {| MessageInput.text := js "uno mas";
     MessageInput.isUser := true;
     MessageInput.timestamp := [] |}.

(** A store in which "user-1" is at the cap of 50 conversations, with one
    conversation of "user-2" behind them. *)
Definition crowded_conversations : ConversationData :=
  {| records :=
       map (λ n, sample_conversation (js "k" ++ [N.of_nat n]) (js "user-1") true) (seq 0 50)
       ++ [sample_conversation (js "other") (js "user-2") true];
     lastCleanup := stamp_of 950;
     version := SCHEMA_VERSION |}.

Definition crowded_world : World :=
  written (js "sarha_conversations") (to_json crowded_conversations) empty_world.







Definition aged_session (id : jsstring) (created : Z) : LocalSession.t :=
  {| LocalSession.id := id;
     LocalSession.userId := js "user-1";
     LocalSession.userAgent := js "Test Browser/1.0";
     LocalSession.loginAt := stamp_of created;
     LocalSession.logoutAt := None;
     LocalSession.durationSeconds := None;
     LocalSession.synced := true;
     LocalSession.createdAt := stamp_of created;
     LocalSession.updatedAt := stamp_of created |}.

Definition aged_sessions : LocalSessionData :=
  {| records := [ aged_session (js "young") (40 * msPerDay);
                  aged_session (js "old") (10 * msPerDay) ];
     lastCleanup := stamp_of 0;
     version := SCHEMA_VERSION |}.

Definition aged_conversation (id : jsstring) (created : Z) : LocalConversation.t :=
  {| LocalConversation.id := id;
     LocalConversation.userId := js "user-1";
     LocalConversation.title := None;
     LocalConversation.messages := [];
     LocalConversation.createdAt := stamp_of created;
     LocalConversation.updatedAt := stamp_of created;
     LocalConversation.synced := true;
     LocalConversation.messageCount := 0;
     LocalConversation.lastMessageAt := stamp_of created |}.

Definition aged_conversations : ConversationData :=
  {| records := [ aged_conversation (js "young") (40 * msPerDay);
                  aged_conversation (js "old") (10 * msPerDay) ];
     lastCleanup := stamp_of 0;
     version := SCHEMA_VERSION |}.

Definition aged_world : World :=
  written (js "sarha_conversations") (to_json aged_conversations)
    (written (js "sarha_user_sessions") (to_json aged_sessions) empty_world).

(** A browser whose store is full: every [setItem] throws. *)
Definition full_runtime : Runtime :=
  {| clock := λ n, 1000 + Z.of_nat n;
     toISOString := stamp_of;
     Date_parse := λ s, match s with [n] => Some (Z.of_N n) | _ => None end;
     LocalTime := λ t, t;
     UTC := λ t, t;
     randomUUID := λ n, js "uuid-" ++ [N.of_nat n];
     quota_exceeded := λ _, true;
     remote := λ _, Inserted |}.

(** A store with records still to be sent: sessions "s1" and "s3" and
    conversation "c1" are unsynced. *)
Definition pending_sessions : LocalSessionData :=
  {| records := [ sample_session (js "s1") false; sample_session (js "s2") true;
                  sample_session (js "s3") false ];
     lastCleanup := stamp_of 950;
     version := SCHEMA_VERSION |}.

Definition pending_conversations : ConversationData :=
  {| records := [ sample_conversation (js "c1") (js "user-1") false;
                  sample_conversation (js "c2") (js "user-2") true ];
     lastCleanup := stamp_of 950;
     version := SCHEMA_VERSION |}.

Definition pending_world : World :=
  written (js "sarha_conversations") (to_json pending_conversations)
    (written (js "sarha_user_sessions") (to_json pending_sessions) empty_world).

(** A remote that rejects every request, and one that accepts every
    second request and answers the others with a server error. *)
Definition offline_runtime : Runtime :=
  {| clock := λ n, 1000 + Z.of_nat n;
     toISOString := stamp_of;
     Date_parse := λ s, match s with [n] => Some (Z.of_N n) | _ => None end;
     LocalTime := λ t, t;
     UTC := λ t, t;
     randomUUID := λ n, js "uuid-" ++ [N.of_nat n];
     quota_exceeded := λ _, false;
     remote := λ _, Rejected |}.

Definition flaky_runtime : Runtime :=
  {| clock := λ n, 1000 + Z.of_nat n;
     toISOString := stamp_of;
     Date_parse := λ s, match s with [n] => Some (Z.of_N n) | _ => None end;
     LocalTime := λ t, t;
     UTC := λ t, t;
     randomUUID := λ n, js "uuid-" ++ [N.of_nat n];
     quota_exceeded := λ _, false;
     remote := λ n, if Nat.even n then Inserted else Error (js "500") (Some (js "server error")) |}.

(** A store whose second session carries a creation timestamp that is
    not a date, and a store whose texts do not parse. *)
Definition undated_session : LocalSession.t :=
  {| LocalSession.id := js "s9";
     LocalSession.userId := js "user-1";
     LocalSession.userAgent := js "Test Browser/1.0";
     LocalSession.loginAt := stamp_of 900;
     LocalSession.logoutAt := None;
     LocalSession.durationSeconds := None;
     LocalSession.synced := true;
     LocalSession.createdAt := js "ayer";
     LocalSession.updatedAt := stamp_of 900 |}.

Definition undated_sessions : LocalSessionData :=
  {| records := [ sample_session (js "s1") true; undated_session ];
     lastCleanup := stamp_of 950;
     version := SCHEMA_VERSION |}.

Definition undated_world : World :=
  written (js "sarha_user_sessions") (to_json undated_sessions) empty_world.

Definition garbled_world : World :=
  {| localStorage :=
       <[js "sarha_conversations" := Garbled]>
         (<[js "sarha_user_sessions" := Garbled]> ∅);
     dates := 0; uuids := 0; setItem_calls := 0; requests := [] |}.

(** * Properties *)

(** ** Title generation (C1) *)

Example generateTitle_Hola : generateTitle (js "Hola") = js "Hola".
Proof. reflexivity. Qed.

Example generateTitle_trimmed : generateTitle (js "  Hola  ") = js "Hola".
Proof. reflexivity. Qed.

Example generateTitle_sentence :
  generateTitle
    (js "Tengo muchas dudas sobre la alimentacion adecuada durante todo el embarazo, ayuda")
  = js "Tengo muchas dudas sobre la alimentacion adecuada...".
Proof. reflexivity. Qed.

(** *** Properties of the string primitives *)

Lemma trimStart_snoc (l : jsstring) (c : N) :
  is_white_space c = false → trimStart (l ++ [c]) = trimStart l ++ [c].
Proof.
  intros Hc. induction l as [|x l IH]; simpl.
  - by rewrite Hc.
  - destruct (is_white_space x); [exact IH | reflexivity].
Qed.

Lemma trimEnd_cons (c : N) (t : jsstring) :
  is_white_space c = false → trimEnd (c :: t) = c :: trimEnd t.
Proof.
  intros Hc. unfold trimEnd. simpl.
  rewrite trimStart_snoc by exact Hc.
  by rewrite rev_app_distr.
Qed.

Lemma trimStart_head (s : jsstring) (c : N) (r : jsstring) :
  trimStart s = c :: r → is_white_space c = false.
Proof.
  induction s as [|x s IH]; simpl; [discriminate|].
  destruct (is_white_space x) eqn:Hx; [exact IH|].
  intros [= <- <-]. exact Hx.
Qed.

Lemma trim_head (s : jsstring) (c : N) (r : jsstring) :
  trim s = c :: r → is_white_space c = false.
Proof.
  unfold trim. destruct (trimStart s) as [|x t] eqn:Hs.
  - discriminate.
  - pose proof (trimStart_head _ _ _ Hs) as Hx.
    rewrite trimEnd_cons by exact Hx. by intros [= <- _].
Qed.

Lemma substring_prefix (s : jsstring) (b : Z) :
  0 ≤ b ≤ Z.of_nat (length s) → substring s 0 b = take (Z.to_nat b) s.
Proof.
  intros Hb. unfold substring.
  replace (Z.min (Z.max 0 0) (Z.of_nat (length s))) with 0 by lia.
  replace (Z.min (Z.max b 0) (Z.of_nat (length s))) with b by lia.
  replace (Z.min 0 b) with 0 by lia. replace (Z.max 0 b) with b by lia.
  simpl. f_equal. lia.
Qed.

Lemma lastIndexOf_from_spec (c : N) (s : jsstring) (i acc : Z) :
  ((c ∉ s) ∧ lastIndexOf_from c s i acc = acc) ∨
  (∃ k : nat, s !! k = Some c ∧ (∀ j : nat, (k < j)%nat → s !! j ≠ Some c)
              ∧ lastIndexOf_from c s i acc = i + Z.of_nat k).
Proof.
  revert i acc. induction s as [|x s IH]; intros i acc; simpl.
  - left. split; [apply not_elem_of_nil | reflexivity].
  - destruct (IH (i + 1) (if (x =? c)%N then i else acc))
      as [[Hnot Heq] | (k & Hk & Hlast & Heq)].
    + destruct (N.eqb_spec x c) as [-> | Hne].
      * right. exists 0%nat. split; [reflexivity|]. split.
        -- intros [|j] Hj; [lia|]. simpl. intros Hin.
           apply Hnot. eapply list_elem_of_lookup_2. exact Hin.
        -- rewrite Heq. lia.
      * left. split; [|exact Heq].
        rewrite not_elem_of_cons. split; [congruence | exact Hnot].
    + right. exists (S k). split; [exact Hk|]. split.
      * intros [|j] Hj; [lia|]. simpl. apply Hlast. lia.
      * rewrite Heq. lia.
Qed.

Lemma lastIndexOf_absent (c : N) (s : jsstring) :
  c ∉ s → lastIndexOf c s = -1.
Proof.
  intros Hc. unfold lastIndexOf.
  destruct (lastIndexOf_from_spec c s 0 (-1)) as [[_ H] | (k & Hk & _)]; [exact H|].
  exfalso. apply Hc. eapply list_elem_of_lookup_2. exact Hk.
Qed.

Lemma lastIndexOf_last (c : N) (s : jsstring) (k : nat) :
  s !! k = Some c → (∀ j : nat, (k < j)%nat → s !! j ≠ Some c) →
  lastIndexOf c s = Z.of_nat k.
Proof.
  intros Hk Hlast. unfold lastIndexOf.
  destruct (lastIndexOf_from_spec c s 0 (-1)) as [[Hnot _] | (k' & Hk' & Hlast' & ->)].
  - exfalso. apply Hnot. eapply list_elem_of_lookup_2. exact Hk.
  - destruct (lt_eq_lt_dec k k') as [[Hlt | ->] | Hgt].
    + exfalso. exact (Hlast k' Hlt Hk').
    + lia.
    + exfalso. exact (Hlast' k Hgt Hk).
Qed.

Lemma generateTitle_short (messageText : jsstring) :
  (length (trim messageText) ≤ 50)%nat →
  generateTitle messageText = trim messageText.
Proof.
  intros Hlen. unfold generateTitle. cbv zeta.
  destruct (Z.leb_spec (Z.of_nat (length (trim messageText))) 50); [reflexivity | lia].
Qed.

Lemma generateTitle_long (messageText : jsstring) :
  (50 < length (trim messageText))%nat →
  generateTitle messageText =
    let truncated := take 50 (trim messageText) in
    let lastSpaceIndex := lastIndexOf SPACE truncated in
    if 0 <? lastSpaceIndex
    then take (Z.to_nat lastSpaceIndex) truncated ++ ellipsis
    else truncated ++ ellipsis.
Proof.
  intros Hlen. unfold generateTitle. cbv zeta.
  destruct (Z.leb_spec (Z.of_nat (length (trim messageText))) 50); [lia|].
  rewrite (substring_prefix (trim messageText) 50) by lia.
  change (Z.to_nat 50) with 50%nat.
  set (truncated := take 50 (trim messageText)).
  destruct (Z.ltb_spec 0 (lastIndexOf SPACE truncated)) as [Hpos | Hnonpos]; [|reflexivity].
  rewrite substring_prefix; [reflexivity|].
  split; [lia|]. unfold lastIndexOf in *.
  destruct (lastIndexOf_from_spec SPACE truncated 0 (-1)) as [[_ Heq] | (k & Hk & _ & Heq)].
  - lia.
  - rewrite Heq. apply lookup_lt_Some in Hk. lia.
Qed.

Lemma generateTitle_cut (messageText : jsstring) (k : nat) :
  (50 < length (trim messageText))%nat →
  take 50 (trim messageText) !! k = Some SPACE →
  (∀ j : nat, (k < j)%nat → take 50 (trim messageText) !! j ≠ Some SPACE) →
  generateTitle messageText = take k (trim messageText) ++ ellipsis.
Proof.
  intros Hlen Hk Hlast. rewrite generateTitle_long by exact Hlen. cbv zeta.
  rewrite (lastIndexOf_last _ _ _ Hk Hlast).
  assert (k ≠ 0)%nat as Hk0.
  { intros ->. destruct (trim messageText) as [|c r] eqn:Ht; [discriminate|].
    simpl in Hk. injection Hk as ->. by apply trim_head in Ht. }
  destruct (Z.ltb_spec 0 (Z.of_nat k)); [|lia].
  rewrite Nat2Z.id, take_take. f_equal. f_equal.
  apply lookup_lt_Some in Hk. rewrite length_take in Hk. lia.
Qed.

Lemma generateTitle_hard (messageText : jsstring) :
  (50 < length (trim messageText))%nat →
  SPACE ∉ take 50 (trim messageText) →
  generateTitle messageText = take 50 (trim messageText) ++ ellipsis.
Proof.
  intros Hlen Hno. rewrite generateTitle_long by exact Hlen. cbv zeta.
  by rewrite (lastIndexOf_absent _ _ Hno).
Qed.

(** C1 (as amended). Title generation trims the text; a trimmed text of
    at most 50 code units is the title verbatim; a longer one is cut to
    its first 50 code units, cut back further to the last space among
    them when there is one, and the three-character marker "..." is
    appended, so that the title ends with the marker and is at most
    53 code units long. *)
Theorem generateTitle_spec (messageText : jsstring) :
  let cleanText := trim messageText in
  let truncated := take 50 cleanText in
  ((length cleanText ≤ 50)%nat → generateTitle messageText = cleanText) ∧
  ((50 < length cleanText)%nat →
     (∀ k : nat, truncated !! k = Some SPACE →
                 (∀ j : nat, (k < j)%nat → truncated !! j ≠ Some SPACE) →
                 generateTitle messageText = take k cleanText ++ ellipsis) ∧
     (SPACE ∉ truncated → generateTitle messageText = truncated ++ ellipsis) ∧
     (length (generateTitle messageText) ≤ 53)%nat ∧
     (∃ body, generateTitle messageText = body ++ ellipsis ∧ (length body ≤ 50)%nat)).
Proof.
  cbv zeta. split; [apply generateTitle_short|].
  intros Hlen. split; [intros k; by apply generateTitle_cut|].
  split; [by apply generateTitle_hard|].
  assert (∃ body, generateTitle messageText = body ++ ellipsis ∧ (length body ≤ 50)%nat)
    as (body & Heq & Hbody).
  { rewrite generateTitle_long by exact Hlen. cbv zeta.
    destruct (0 <? _); eexists; (split; [reflexivity|]);
      rewrite ?length_take; lia. }
  split; [|by exists body].
  rewrite Heq, length_app. change (length ellipsis) with 3%nat. lia.
Qed.

(** The short branch at "Hola", the long one at a sentence of 81 code
    units whose last space within the first 50 is at index 49. *)
Lemma generateTitle_spec_witness :
  generateTitle (js "Hola") = js "Hola" ∧
  generateTitle
    (js "Tengo muchas dudas sobre la alimentacion adecuada durante todo el embarazo, ayuda")
  = js "Tengo muchas dudas sobre la alimentacion adecuada...".
Proof.
  split.
  - apply (proj1 (generateTitle_spec (js "Hola"))). vm_compute. lia.
  - refine (proj1 (proj2 (generateTitle_spec
      (js "Tengo muchas dudas sobre la alimentacion adecuada durante todo el embarazo, ayuda")) _)
      49%nat _ _).
    + vm_compute. lia.
    + reflexivity.
    + intros j Hj. destruct (decide (j < 50)%nat) as [Hlt|Hge].
      * do 50 (destruct j as [|j]; [first [lia | discriminate]|]). lia.
      * intros Hin. apply lookup_lt_Some in Hin. rewrite length_take in Hin. lia.
Defined.

(** C1 as stated: a title of at most 51 code units. Fifty-one letters
    without a space give a title of 53. *)
Lemma generateTitle_longer_than_51 :
  let text := replicate 51 (N_of_ascii "a") in
  (50 < length (trim text))%nat ∧ ¬ (length (generateTitle text) ≤ 51)%nat.
Proof. vm_compute. split; lia. Qed.

(** ** The schemas satisfy the laws *)

Lemma mapM_roundtrip {A} (f : json → option A) (g : A → json) (l : list A) :
  (∀ x, f (g x) = Some x) → mapM f (map g l) = Some l.
Proof.
  intros Hfg. apply mapM_Some_2.
  induction l as [|x l IH]; simpl; constructor; [apply Hfg | exact IH].
Qed.

Lemma assoc_here (k : jsstring) (v : json) (props : list (jsstring * json)) :
  assoc k ((k, v) :: props) = Some v.
Proof. unfold assoc. by rewrite decide_True. Qed.

Lemma assoc_next (k k' : jsstring) (v : json) (props : list (jsstring * json)) :
  k' ≠ k → assoc k ((k', v) :: props) = assoc k props.
Proof. intros Hne. cbn [assoc]. by rewrite decide_False. Qed.

Lemma assoc_nil (k : jsstring) : assoc k [] = None.
Proof. reflexivity. Qed.

(** Reads a property of an object literal. *)
Ltac read_props :=
  unfold str_prop, bool_prop, num_prop, arr_prop, opt_str_prop, opt_num_prop;
  repeat first [ rewrite assoc_here
               | rewrite assoc_next by (by vm_compute)
               | rewrite assoc_nil ];
  cbn [mbind option_bind].

Lemma message_roundtrip (m : LocalMessage.t) :
  message_of_json (message_to_json m) = Some m.
Proof.
  destruct m. unfold message_of_json, message_to_json.
  cbn [LocalMessage.id LocalMessage.text LocalMessage.isUser
       LocalMessage.timestamp LocalMessage.conversationId].
  rewrite decide_True by reflexivity. by read_props.
Qed.

Lemma conversation_roundtrip (c : LocalConversation.t) :
  conversation_of_json (conversation_to_json c) = Some c.
Proof.
  destruct c as [i u t ms ca ua s n la].
  unfold conversation_of_json, conversation_to_json.
  cbn [LocalConversation.id LocalConversation.userId LocalConversation.title
       LocalConversation.messages LocalConversation.createdAt
       LocalConversation.updatedAt LocalConversation.synced
       LocalConversation.messageCount LocalConversation.lastMessageAt].
  destruct t as [t|]; cbn [opt_entry app]; read_props;
    rewrite (mapM_roundtrip _ _ ms message_roundtrip); read_props;
    by rewrite decide_True.
Qed.

Lemma session_roundtrip (s : LocalSession.t) :
  session_of_json (session_to_json s) = Some s.
Proof.
  destruct s as [i u a li lo d s ca ua].
  unfold session_of_json, session_to_json.
  cbn [LocalSession.id LocalSession.userId LocalSession.userAgent
       LocalSession.loginAt LocalSession.logoutAt LocalSession.durationSeconds
       LocalSession.synced LocalSession.createdAt LocalSession.updatedAt].
  destruct lo as [lo|], d as [d|]; cbn [opt_entry app]; read_props;
    by rewrite decide_True.
Qed.

#[export] Instance conversation_laws : SchemaLaws LocalConversation.t.
Proof. split; [exact conversation_roundtrip | done | done]. Qed.

#[export] Instance session_laws : SchemaLaws LocalSession.t.
Proof. split; [exact session_roundtrip | done | done]. Qed.

(** ** The keyed local store *)

Section KeyedStoreFacts.
Context {R : Type} `{SchemaLaws R}.

Lemma stored_version_to_json (d : Document R) :
  stored_version (to_json d) = Some (version d).
Proof.
  unfold stored_version, get_property, to_json.
  rewrite assoc_next by apply records_field_not_version.
  rewrite assoc_next by done.
  by rewrite assoc_here.
Qed.

Lemma of_to_json (d : Document R) : of_json (to_json d) = Some d.
Proof.
  destruct d as [rs lc ver]. unfold of_json, to_json, arr_prop, str_prop.
  cbn [records lastCleanup version].
  rewrite decide_True by reflexivity.
  rewrite assoc_here. cbn [mbind option_bind].
  rewrite (mapM_roundtrip _ _ rs record_roundtrip). cbn [mbind option_bind].
  rewrite (assoc_next (js "lastCleanup")) by apply records_field_not_lastCleanup.
  rewrite assoc_here. cbn [mbind option_bind].
  rewrite (assoc_next (js "version")) by apply records_field_not_version.
  rewrite assoc_next by done.
  by rewrite assoc_here.
Qed.

Lemma getData_reset (rt : Runtime) (w : World) :
  resets R w →
  getData rt w
  = Some (to_json (empty_document (toISOString rt (clock rt (dates w)))), tick w).
Proof.
  unfold resets, getData, bind, getItem, stored_version.
  destruct (localStorage w !! STORAGE_KEY) as [[|data]|]; try reflexivity.
  destruct (get_property data (js "version")) as [| |[| | |v| |]]; try reflexivity.
  intros Hv. destruct (decide (v = SCHEMA_VERSION)) as [->|_]; [done | reflexivity].
Qed.

Lemma getData_current (rt : Runtime) (w : World) (data : json) :
  localStorage w !! STORAGE_KEY = Some (Parsed data) →
  stored_version data = Some SCHEMA_VERSION →
  getData rt w = Some (data, w).
Proof.
  unfold getData, bind, getItem, stored_version. intros -> Hv.
  destruct (get_property data (js "version")) as [| |[| | |v| |]]; try discriminate.
  injection Hv as ->. by rewrite decide_True.
Qed.

Lemma resets_dec (w : World) :
  resets R w ∨ ∃ data, localStorage w !! STORAGE_KEY = Some (Parsed data)
                     ∧ stored_version data = Some SCHEMA_VERSION.
Proof.
  unfold resets. destruct (localStorage w !! STORAGE_KEY) as [[|data]|]; auto.
  destruct (decide (stored_version data = Some SCHEMA_VERSION)); eauto.
Qed.

Lemma saveData_run (rt : Runtime) (w : World) (d : Document R) :
  saveData d rt w
  = if quota_exceeded rt (setItem_calls w)
    then Some (false, refused (tick w))
    else Some (true,
               written STORAGE_KEY
                 (to_json (stamp d (toISOString rt (clock rt (dates w))))) (tick w)).
Proof. reflexivity. Qed.

Lemma readData_holds (rt : Runtime) (w : World) (d : Document R) :
  holds w d → readData rt w = Some (d, w).
Proof.
  intros [Hst Hv]. unfold readData, bind.
  rewrite (getData_current rt w (to_json d) Hst)
    by (by rewrite stored_version_to_json, Hv).
  by rewrite of_to_json.
Qed.

Lemma readData_reset (rt : Runtime) (w : World) :
  resets R w →
  readData rt w = Some (empty_document (toISOString rt (clock rt (dates w))), tick w).
Proof.
  intros Hr. unfold readData, bind. rewrite (getData_reset rt w Hr).
  by rewrite of_to_json.
Qed.

(** Reading leaves the store, the count of writes and the remote
    requests as they were. *)
Lemma getData_frame (rt : Runtime) (w w1 : World) (v : json) :
  getData rt w = Some (v, w1) →
  localStorage w1 = localStorage w ∧ setItem_calls w1 = setItem_calls w
  ∧ requests w1 = requests w ∧ uuids w1 = uuids w.
Proof.
  destruct (resets_dec w) as [Hr | (data & Hst & Hv)].
  - rewrite (getData_reset rt w Hr). by intros [= <- <-].
  - rewrite (getData_current rt w data Hst Hv). by intros [= <- <-].
Qed.

Lemma readData_frame (rt : Runtime) (w w1 : World) (d : Document R) :
  readData rt w = Some (d, w1) →
  localStorage w1 = localStorage w ∧ setItem_calls w1 = setItem_calls w
  ∧ requests w1 = requests w ∧ uuids w1 = uuids w.
Proof.
  unfold readData, bind. destruct (getData rt w) as [[v w']|] eqn:Hg; [|done].
  destruct (of_json v); [|done]. intros [= <- <-].
  by apply (getData_frame rt w w' v).
Qed.

Lemma readData_version (rt : Runtime) (w w1 : World) (d : Document R) :
  readData rt w = Some (d, w1) → version d = SCHEMA_VERSION.
Proof.
  unfold readData, bind.
  destruct (resets_dec w) as [Hr | (data & Hst & Hv)].
  - rewrite (getData_reset rt w Hr), of_to_json. by intros [= <- <-].
  - rewrite (getData_current rt w data Hst Hv).
    destruct (of_json data) as [d'|] eqn:Hd; [|done]. intros [= <- <-].
    revert Hv Hd. unfold stored_version, of_json, get_property.
    destruct data as [| | | | |props]; try done.
    case_decide; [|done]. unfold str_prop.
    destruct (arr_prop props records_field); simpl; [|done].
    destruct (mapM record_of_json l); simpl; [|done].
    destruct (assoc (js "lastCleanup") props) as [[]|]; simpl; try done.
    destruct (assoc (js "version") props) as [[]|]; simpl; try done.
    by intros [= ->] [= <-].
Qed.

(** After a write that was accepted the store holds the stamped
    document. *)
Lemma written_holds (w : World) (d : Document R) (iso : jsstring) :
  holds (written STORAGE_KEY (to_json (stamp d iso)) w) (stamp d iso).
Proof. split; [apply lookup_insert_eq | reflexivity]. Qed.
End KeyedStoreFacts.

(** ** Reading and writing (C4, C5) *)

Section ReadWrite.
Context {R : Type} `{SchemaLaws R}.

Lemma getData_total (rt : Runtime) (w : World) :
  ∃ v w', getData rt w = Some (v, w')
    ∧ localStorage w' = localStorage w
    ∧ v = match localStorage w !! STORAGE_KEY with
          | Some (Parsed data) =>
              if decide (stored_version data = Some SCHEMA_VERSION) then data
              else to_json (empty_document (toISOString rt (clock rt (dates w))))
          | _ => to_json (empty_document (toISOString rt (clock rt (dates w))))
          end.
Proof.
  destruct (resets_dec w) as [Hr | (data & Hst & Hv)].
  - rewrite (getData_reset rt w Hr). do 2 eexists.
    split; [reflexivity|]. split; [reflexivity|].
    unfold resets in Hr.
    destruct (localStorage w !! STORAGE_KEY) as [[|data]|]; try reflexivity.
    by rewrite decide_False.
  - rewrite (getData_current rt w data Hst Hv). do 2 eexists.
    split; [reflexivity|]. split; [reflexivity|].
    by rewrite Hst, decide_True.
Qed.

Lemma saveData_then_read (rt : Runtime) (w w' : World) (d : Document R) :
  saveData d rt w = Some (true, w') →
  let iso := toISOString rt (clock rt (dates w)) in
  getData rt w' = Some (to_json (stamp d iso), w')
  ∧ readData rt w' = Some (stamp d iso, w').
Proof.
  rewrite saveData_run. destruct (quota_exceeded rt (setItem_calls w)); [done|].
  intros [= <-]. cbv zeta.
  pose proof (written_holds (tick w) d (toISOString rt (clock rt (dates w)))) as Hh.
  split; [|by apply readData_holds].
  apply getData_current; [apply Hh|]. by rewrite stored_version_to_json.
Qed.
End ReadWrite.

(** C4. A document written with [saveData] is what [getData] then reads,
    as a JSON value and as a typed document: the same records, the
    version set to the current schema version and the cleanup timestamp
    set to the time of the write. For both managers. *)
Theorem write_then_read (rt : Runtime) (w w' : World) :
  (∀ d : ConversationData,
     ConversationStorageManager.saveData d rt w = Some (true, w') →
     ∃ d', ConversationStorageManager.getData rt w' = Some (to_json d', w')
           ∧ ConversationStorageManager.readData rt w' = Some (d', w')
           ∧ conversations d' = conversations d
           ∧ version d' = SCHEMA_VERSION
           ∧ lastCleanup d' = toISOString rt (clock rt (dates w)))
  ∧
  (∀ d : LocalSessionData,
     LocalStorageManager.saveData d rt w = Some (true, w') →
     ∃ d', LocalStorageManager.getData rt w' = Some (to_json d', w')
           ∧ LocalStorageManager.readData rt w' = Some (d', w')
           ∧ sessions d' = sessions d
           ∧ version d' = SCHEMA_VERSION
           ∧ lastCleanup d' = toISOString rt (clock rt (dates w))).
Proof.
  split; intros d Hsave;
    exists (stamp d (toISOString rt (clock rt (dates w))));
    destruct (saveData_then_read rt w w' d Hsave) as [Hg Hr]; auto.
Qed.

Lemma write_then_read_witness :
  let w' := written (js "sarha_conversations")
              (to_json (stamp sample_conversations (stamp_of 1000))) (tick empty_world) in
  ∃ d', ConversationStorageManager.readData sample_runtime w' = Some (d', w')
        ∧ conversations d' = conversations sample_conversations
        ∧ lastCleanup d' = stamp_of 1000.
Proof.
  cbv zeta.
  destruct (proj1 (write_then_read sample_runtime empty_world _) sample_conversations
              eq_refl) as (d' & _ & Hr & Hc & _ & Hl).
  exists d'. auto.
Defined.

(** C5. [getData] returns for every content of the store, and never
    writes: without an entry under the key, with a text that does not
    parse, or with a value whose version is not the current one it
    returns an empty document stamped with the current schema version,
    that is the object with an empty list of records, the time of the
    call as [lastCleanup] and "1.0.0" as [version]; otherwise it returns
    the parsed value. Read as a typed document the fallback has no
    records and the current version. For both managers. *)
Theorem getData_always_returns (rt : Runtime) (w : World) :
  let iso := toISOString rt (clock rt (dates w)) in
  let empty_conversations :=
    JObj [ (js "conversations", JArr []); (js "lastCleanup", JStr iso);
           (js "version", JStr (js "1.0.0")) ] in
  let empty_sessions :=
    JObj [ (js "sessions", JArr []); (js "lastCleanup", JStr iso);
           (js "version", JStr (js "1.0.0")) ] in
  (∃ v w', ConversationStorageManager.getData rt w = Some (v, w')
     ∧ localStorage w' = localStorage w
     ∧ setItem_calls w' = setItem_calls w
     ∧ v = match localStorage w !! js "sarha_conversations" with
           | Some (Parsed data) =>
               if decide (stored_version data = Some (js "1.0.0")) then data
               else empty_conversations
           | Some Garbled | None => empty_conversations
           end
     ∧ v = match localStorage w !! js "sarha_conversations" with
           | Some (Parsed data) =>
               if decide (stored_version data = Some SCHEMA_VERSION) then data
               else to_json (empty_document (R := LocalConversation.t) iso)
           | Some Garbled | None => to_json (empty_document (R := LocalConversation.t) iso)
           end
     ∧ (v = empty_conversations →
        ∃ d, ConversationStorageManager.readData rt w = Some (d, w')
             ∧ conversations d = [] ∧ version d = SCHEMA_VERSION
             ∧ version d = js "1.0.0" ∧ lastCleanup d = iso))
  ∧
  (∃ v w', LocalStorageManager.getData rt w = Some (v, w')
     ∧ localStorage w' = localStorage w
     ∧ setItem_calls w' = setItem_calls w
     ∧ v = match localStorage w !! js "sarha_user_sessions" with
           | Some (Parsed data) =>
               if decide (stored_version data = Some (js "1.0.0")) then data
               else empty_sessions
           | Some Garbled | None => empty_sessions
           end
     ∧ v = match localStorage w !! js "sarha_user_sessions" with
           | Some (Parsed data) =>
               if decide (stored_version data = Some SCHEMA_VERSION) then data
               else to_json (empty_document (R := LocalSession.t) iso)
           | Some Garbled | None => to_json (empty_document (R := LocalSession.t) iso)
           end
     ∧ (v = empty_sessions →
        ∃ d, LocalStorageManager.readData rt w = Some (d, w')
             ∧ sessions d = [] ∧ version d = SCHEMA_VERSION
             ∧ version d = js "1.0.0" ∧ lastCleanup d = iso)).
Proof.
  cbv zeta. split.
  - destruct (getData_total (R := LocalConversation.t) rt w) as (v & w' & Hg & Hs & Hv).
    destruct (getData_frame rt w w' v Hg) as (_ & Hcalls & _).
    exists v, w'. split; [exact Hg|]. split; [exact Hs|]. split; [exact Hcalls|].
    change (@STORAGE_KEY _ conversation_schema) with (js "sarha_conversations") in Hv.
    split; [|split].
    + rewrite Hv. by destruct (localStorage w !! js "sarha_conversations") as [[|]|].
    + rewrite Hv. by destruct (localStorage w !! js "sarha_conversations") as [[|]|].
    + intros Hempty. eexists.
      unfold ConversationStorageManager.getData in Hg.
      unfold ConversationStorageManager.readData, readData, bind. rewrite Hg, Hempty.
      split; [vm_compute; reflexivity|]. repeat split.
  - destruct (getData_total (R := LocalSession.t) rt w) as (v & w' & Hg & Hs & Hv).
    destruct (getData_frame rt w w' v Hg) as (_ & Hcalls & _).
    exists v, w'. split; [exact Hg|]. split; [exact Hs|]. split; [exact Hcalls|].
    change (@STORAGE_KEY _ session_schema) with (js "sarha_user_sessions") in Hv.
    split; [|split].
    + rewrite Hv. by destruct (localStorage w !! js "sarha_user_sessions") as [[|]|].
    + rewrite Hv. by destruct (localStorage w !! js "sarha_user_sessions") as [[|]|].
    + intros Hempty. eexists.
      unfold LocalStorageManager.getData in Hg.
      unfold LocalStorageManager.readData, readData, bind. rewrite Hg, Hempty.
      split; [vm_compute; reflexivity|]. repeat split.
Qed.

Example getData_empty_store :
  fst <$> ConversationStorageManager.getData sample_runtime empty_world
  = Some (to_json (empty_document (R := LocalConversation.t) (stamp_of 1000))).
Proof. reflexivity. Qed.

Example getData_old_version :
  fst <$> ConversationStorageManager.getData sample_runtime
            (written (js "sarha_conversations")
               (JObj [(js "conversations", JArr []); (js "lastCleanup", JStr (stamp_of 1));
                      (js "version", JStr (js "0.9.0"))]) empty_world)
  = Some (to_json (empty_document (R := LocalConversation.t) (stamp_of 1000))).
Proof. vm_compute. reflexivity. Qed.

Example getData_null :
  fst <$> ConversationStorageManager.getData sample_runtime
            (written (js "sarha_conversations") JNull empty_world)
  = Some (to_json (empty_document (R := LocalConversation.t) (stamp_of 1000))).
Proof. vm_compute. reflexivity. Qed.

Example readData_sample :
  fst <$> ConversationStorageManager.readData sample_runtime sample_world
  = Some sample_conversations.
Proof. vm_compute. reflexivity. Qed.

(** ** Unknown identifiers (C7) *)

Lemma conversation_markSynced_absent (rt : Runtime) (w w1 : World)
    (d : ConversationData) (conversationId : jsstring) :
  ConversationStorageManager.readData rt w = Some (d, w1) →
  Forall (λ c, LocalConversation.id c ≠ conversationId) (conversations d) →
  ConversationStorageManager.markSynced conversationId rt w = Some (false, w1).
Proof.
  intros Hread Habsent.
  unfold ConversationStorageManager.markSynced, bind. rewrite Hread.
  by rewrite (proj2 (list_find_None _ _) Habsent).
Qed.

Lemma updateSession_absent (rt : Runtime) (w w1 : World)
    (d : LocalSessionData) (sessionId : jsstring) (updates : SessionUpdates.t) :
  LocalStorageManager.readData rt w = Some (d, w1) →
  Forall (λ s, LocalSession.id s ≠ sessionId) (sessions d) →
  LocalStorageManager.updateSession sessionId updates rt w = Some (false, w1).
Proof.
  intros Hread Habsent.
  unfold LocalStorageManager.updateSession, bind. rewrite Hread.
  by rewrite (proj2 (list_find_None _ _) Habsent).
Qed.

(** C7. When no record of the document read from the store has the
    identifier, [markSynced] of the conversations, and [updateSession]
    and [markSynced] of the sessions, return [false]; the store is left
    as it was and [setItem] is not called. *)
Theorem unknown_id_changes_nothing (rt : Runtime) (w w1 : World) (id : jsstring) :
  (∀ d : ConversationData,
     ConversationStorageManager.readData rt w = Some (d, w1) →
     Forall (λ c, LocalConversation.id c ≠ id) (conversations d) →
     ∃ w', ConversationStorageManager.markSynced id rt w = Some (false, w')
           ∧ localStorage w' = localStorage w
           ∧ setItem_calls w' = setItem_calls w)
  ∧
  (∀ d : LocalSessionData,
     LocalStorageManager.readData rt w = Some (d, w1) →
     Forall (λ s, LocalSession.id s ≠ id) (sessions d) →
     (∀ updates,
        ∃ w', LocalStorageManager.updateSession id updates rt w = Some (false, w')
              ∧ localStorage w' = localStorage w
              ∧ setItem_calls w' = setItem_calls w)
     ∧ ∃ w', LocalStorageManager.markSynced id rt w = Some (false, w')
             ∧ localStorage w' = localStorage w
             ∧ setItem_calls w' = setItem_calls w).
Proof.
  split.
  - intros d Hread Habsent. exists w1.
    split; [by eapply conversation_markSynced_absent|].
    destruct (readData_frame rt w w1 d Hread) as (? & ? & _). auto.
  - intros d Hread Habsent.
    destruct (readData_frame rt w w1 d Hread) as (? & ? & _).
    split; [intros updates|]; exists w1;
      (split; [by eapply updateSession_absent | auto]).
Qed.

Lemma unknown_id_changes_nothing_witness :
  (∃ w', ConversationStorageManager.markSynced (js "c9") sample_runtime sample_world
         = Some (false, w')
         ∧ localStorage w' = localStorage sample_world
         ∧ setItem_calls w' = setItem_calls sample_world)
  ∧
  (∃ w', LocalStorageManager.markSynced (js "c9") sample_runtime sample_world
         = Some (false, w')
         ∧ localStorage w' = localStorage sample_world
         ∧ setItem_calls w' = setItem_calls sample_world).
Proof.
  pose proof (unknown_id_changes_nothing sample_runtime sample_world sample_world (js "c9"))
    as [Hc Hs].
  split.
  - apply (Hc sample_conversations).
    + vm_compute. reflexivity.
    + repeat constructor; by vm_compute.
  - apply (Hs sample_sessions).
    + vm_compute. reflexivity.
    + repeat constructor; by vm_compute.
Defined.

(** ** Nothing to synchronise (C8) *)

Lemma filter_unsynced_nil {A} (synced : A → bool) (l : list A) :
  Forall (λ x, synced x = true) l → filter (λ x, synced x = false) l = [].
Proof.
  induction 1 as [|x l Hx _ IH]; [reflexivity|].
  rewrite filter_cons_False by congruence. exact IH.
Qed.

(** C8. When every record of the document read from the store is
    synced, [syncConversationsToDB] and [syncLocalSessionsToDB] succeed
    with both counts at zero, send no request to the remote database
    and leave the store as it was. *)
Theorem nothing_to_sync (rt : Runtime) (w w1 : World) :
  (∀ d : ConversationData,
     ConversationStorageManager.readData rt w = Some (d, w1) →
     Forall (λ c, LocalConversation.synced c = true) (conversations d) →
     ∃ w', syncConversationsToDB rt w
           = Some ({| success := true;
                      data := Some {| syncedCount := 0; failedCount := 0 |} |}, w')
           ∧ requests w' = requests w
           ∧ localStorage w' = localStorage w
           ∧ setItem_calls w' = setItem_calls w)
  ∧
  (∀ d : LocalSessionData,
     LocalStorageManager.readData rt w = Some (d, w1) →
     Forall (λ s, LocalSession.synced s = true) (sessions d) →
     ∃ w', syncLocalSessionsToDB rt w
           = Some ({| success := true;
                      data := Some {| syncedCount := 0; failedCount := 0 |} |}, w')
           ∧ requests w' = requests w
           ∧ localStorage w' = localStorage w
           ∧ setItem_calls w' = setItem_calls w).
Proof.
  split; intros d Hread Hsynced; exists w1;
    destruct (readData_frame rt w w1 d Hread) as (? & ? & ? & _);
    (split; [|auto]).
  - unfold syncConversationsToDB, bind. rewrite Hread.
    by rewrite (filter_unsynced_nil _ _ Hsynced).
  - unfold syncLocalSessionsToDB, LocalStorageManager.getAllSessions, bind.
    rewrite Hread. unfold ret.
    by rewrite (filter_unsynced_nil _ _ Hsynced).
Qed.

Lemma nothing_to_sync_witness :
  (∃ w', syncConversationsToDB sample_runtime sample_world
         = Some ({| success := true;
                    data := Some {| syncedCount := 0; failedCount := 0 |} |}, w')
         ∧ requests w' = requests sample_world)
  ∧
  (∃ w', syncLocalSessionsToDB sample_runtime sample_world
         = Some ({| success := true;
                    data := Some {| syncedCount := 0; failedCount := 0 |} |}, w')
         ∧ requests w' = requests sample_world).
Proof.
  pose proof (nothing_to_sync sample_runtime sample_world sample_world) as [Hc Hs].
  split.
  - destruct (Hc sample_conversations) as (w' & Hrun & Hreq & _).
    + vm_compute. reflexivity.
    + repeat constructor.
    + by exists w'.
  - destruct (Hs sample_sessions) as (w' & Hrun & Hreq & _).
    + vm_compute. reflexivity.
    + repeat constructor.
    + by exists w'.
Defined.

(** With an unsynced record the remote database is called. *)
Example sync_one_pending :
  let w := written (js "sarha_conversations")
             (to_json {| records := [sample_conversation (js "c1") (js "user-1") false];
                         lastCleanup := stamp_of 950; version := SCHEMA_VERSION |})
             empty_world in
  (λ r, (data (fst r), length (requests (snd r)))) <$> syncConversationsToDB sample_runtime w
  = Some (Some {| syncedCount := 1; failedCount := 0 |}, 2%nat).
Proof. vm_compute. reflexivity. Qed.

(** ** Writing a changed document *)

Lemma now_ISO_run (rt : Runtime) (w : World) :
  now_ISO rt w = Some (toISOString rt (clock rt (dates w)), tick w).
Proof. reflexivity. Qed.

Section Saving.
Context {R : Type} `{SchemaLaws R}.

Lemma saveData_accepted (rt : Runtime) (w : World) (d : Document R) :
  quota_exceeded rt (setItem_calls w) = false →
  ∃ w', saveData d rt w = Some (true, w')
        ∧ holds w' (stamp d (toISOString rt (clock rt (dates w))))
        ∧ setItem_calls w' = S (setItem_calls w)
        ∧ requests w' = requests w.
Proof.
  intros Hq. rewrite saveData_run, Hq. eexists. split; [reflexivity|].
  split; [apply written_holds | done].
Qed.

Lemma saveData_refused (rt : Runtime) (w : World) (d : Document R) :
  quota_exceeded rt (setItem_calls w) = true →
  saveData d rt w = Some (false, refused (tick w)).
Proof. intros Hq. by rewrite saveData_run, Hq. Qed.

(** Whatever [setItem] does, the store afterwards is the old one or
    holds the stamped document. *)
Lemma saveData_outcome (rt : Runtime) (w : World) (d : Document R) :
  ∃ b w', saveData d rt w = Some (b, w')
          ∧ setItem_calls w' = S (setItem_calls w)
          ∧ (localStorage w' = localStorage w
             ∨ holds w' (stamp d (toISOString rt (clock rt (dates w))))).
Proof.
  rewrite saveData_run. destruct (quota_exceeded rt (setItem_calls w)).
  - do 2 eexists. split; [reflexivity|]. split; [reflexivity|]. by left.
  - do 2 eexists. split; [reflexivity|]. split; [reflexivity|].
    right. apply written_holds.
Qed.

(** Reading depends on the store only, up to the timestamp of a fresh
    document. *)
Lemma readData_same_store (rt : Runtime) (w w1 v : World) (d : Document R) :
  readData rt w = Some (d, w1) →
  localStorage v = localStorage w →
  ∃ d' v1, readData rt v = Some (d', v1) ∧ records d' = records d.
Proof.
  intros Hread Hst.
  destruct (resets_dec w) as [Hr | (data & Hd & Hv)].
  - rewrite (readData_reset rt w Hr) in Hread. injection Hread as <- <-.
    assert (resets R v) as Hr' by (unfold resets in *; by rewrite Hst).
    rewrite (readData_reset rt v Hr'). by do 2 eexists.
  - unfold readData, bind in *.
    rewrite (getData_current rt w data Hd Hv) in Hread.
    rewrite (getData_current rt v data) by (by rewrite ?Hst).
    destruct (of_json data) as [d0|]; [|done]. injection Hread as <- <-.
    by do 2 eexists.
Qed.
End Saving.

(** ** updateSession (C10) *)

Lemma merge_session_fields (s : LocalSession.t) (u : SessionUpdates.t) (now : jsstring) :
  let merged := merge_session s u now in
  LocalSession.id merged = default (LocalSession.id s) (SessionUpdates.id u)
  ∧ LocalSession.userId merged = default (LocalSession.userId s) (SessionUpdates.userId u)
  ∧ LocalSession.userAgent merged
    = default (LocalSession.userAgent s) (SessionUpdates.userAgent u)
  ∧ LocalSession.loginAt merged = default (LocalSession.loginAt s) (SessionUpdates.loginAt u)
  ∧ LocalSession.logoutAt merged
    = default (LocalSession.logoutAt s) (SessionUpdates.logoutAt u)
  ∧ LocalSession.durationSeconds merged
    = default (LocalSession.durationSeconds s) (SessionUpdates.durationSeconds u)
  ∧ LocalSession.synced merged = default (LocalSession.synced s) (SessionUpdates.synced u)
  ∧ LocalSession.createdAt merged
    = default (LocalSession.createdAt s) (SessionUpdates.createdAt u)
  ∧ LocalSession.updatedAt merged = now.
Proof. cbv zeta. repeat split. Qed.

Lemma updateSession_found (rt : Runtime) (w w1 : World) (d : LocalSessionData)
    (sessionId : jsstring) (updates : SessionUpdates.t) (i : nat) (s : LocalSession.t) :
  LocalStorageManager.readData rt w = Some (d, w1) →
  list_find (λ s, LocalSession.id s = sessionId) (sessions d) = Some (i, s) →
  LocalStorageManager.updateSession sessionId updates rt w
  = LocalStorageManager.saveData
      (LocalStorageManager.with_sessions d
         (<[i := merge_session s updates (toISOString rt (clock rt (dates w1)))]>
            (sessions d)))
      rt (tick w1).
Proof.
  intros Hread Hfind.
  unfold LocalStorageManager.updateSession, bind. rewrite Hread, Hfind.
  by rewrite now_ISO_run.
Qed.

(** C10. When the document read from the store has a session with the
    identifier and the write is accepted, [updateSession] returns [true]
    and the store then holds the document in which the first such session
    is replaced, at its index, by the merge: every field the updates
    supply is taken from them ([id], [createdAt] and [synced] included),
    every field they do not supply is kept from the stored session, and
    [updatedAt] is the time of the call, whatever the updates say. The
    list has the same length and all the other indices hold the sessions
    they held. *)
Theorem updateSession_changes_one (rt : Runtime) (w w1 : World) (d : LocalSessionData)
    (sessionId : jsstring) (updates : SessionUpdates.t) :
  LocalStorageManager.readData rt w = Some (d, w1) →
  (∃ s, s ∈ sessions d ∧ LocalSession.id s = sessionId) →
  quota_exceeded rt (setItem_calls w) = false →
  let now := toISOString rt (clock rt (dates w1)) in
  ∃ (i : nat) (s merged : LocalSession.t) (w' : World) (d' : LocalSessionData),
    sessions d !! i = Some s ∧ LocalSession.id s = sessionId
    ∧ (∀ j s', sessions d !! j = Some s' → (j < i)%nat → LocalSession.id s' ≠ sessionId)
    ∧ LocalStorageManager.updateSession sessionId updates rt w = Some (true, w')
    ∧ holds w' d'
    ∧ merged = merge_session s updates now
    ∧ sessions d' = <[i := merged]> (sessions d)
    ∧ length (sessions d') = length (sessions d)
    ∧ sessions d' !! i = Some merged
    ∧ (∀ j, j ≠ i → sessions d' !! j = sessions d !! j)
    (* the fields the updates supply *)
    ∧ (∀ x, SessionUpdates.id updates = Some x → LocalSession.id merged = x)
    ∧ (∀ x, SessionUpdates.userId updates = Some x → LocalSession.userId merged = x)
    ∧ (∀ x, SessionUpdates.userAgent updates = Some x → LocalSession.userAgent merged = x)
    ∧ (∀ x, SessionUpdates.loginAt updates = Some x → LocalSession.loginAt merged = x)
    ∧ (∀ x, SessionUpdates.logoutAt updates = Some x → LocalSession.logoutAt merged = x)
    ∧ (∀ x, SessionUpdates.durationSeconds updates = Some x →
            LocalSession.durationSeconds merged = x)
    ∧ (∀ x, SessionUpdates.synced updates = Some x → LocalSession.synced merged = x)
    ∧ (∀ x, SessionUpdates.createdAt updates = Some x → LocalSession.createdAt merged = x)
    (* the fields they do not supply *)
    ∧ (SessionUpdates.id updates = None → LocalSession.id merged = LocalSession.id s)
    ∧ (SessionUpdates.userId updates = None →
       LocalSession.userId merged = LocalSession.userId s)
    ∧ (SessionUpdates.userAgent updates = None →
       LocalSession.userAgent merged = LocalSession.userAgent s)
    ∧ (SessionUpdates.loginAt updates = None →
       LocalSession.loginAt merged = LocalSession.loginAt s)
    ∧ (SessionUpdates.logoutAt updates = None →
       LocalSession.logoutAt merged = LocalSession.logoutAt s)
    ∧ (SessionUpdates.durationSeconds updates = None →
       LocalSession.durationSeconds merged = LocalSession.durationSeconds s)
    ∧ (SessionUpdates.synced updates = None →
       LocalSession.synced merged = LocalSession.synced s)
    ∧ (SessionUpdates.createdAt updates = None →
       LocalSession.createdAt merged = LocalSession.createdAt s)
    (* the time of the call *)
    ∧ LocalSession.updatedAt merged = now.
Proof.
  intros Hread (s0 & Hin & Hid) Hq. cbv zeta.
  destruct (list_find_elem_of (λ s, LocalSession.id s = sessionId) (sessions d) s0 Hin Hid)
    as [[i s] Hfind].
  pose proof (proj1 (list_find_Some _ _ _ _) Hfind) as (Hi & His & Hfirst).
  destruct (readData_frame rt w w1 d Hread) as (_ & Hcalls & _).
  set (now := toISOString rt (clock rt (dates w1))).
  destruct (saveData_accepted rt (tick w1)
              (LocalStorageManager.with_sessions d
                 (<[i := merge_session s updates now]> (sessions d))))
    as (w' & Hsave & Hholds & _).
  { simpl. by rewrite Hcalls. }
  destruct (merge_session_fields s updates now)
    as (Fid & Fuser & Fagent & Flogin & Flogout & Fduration & Fsynced & Fcreated & Fupdated).
  exists i, s, (merge_session s updates now), w'. eexists.
  split; [exact Hi|]. split; [exact His|]. split; [exact Hfirst|].
  split. { rewrite (updateSession_found rt w w1 d sessionId updates i s Hread Hfind).
           exact Hsave. }
  split; [exact Hholds|]. split; [reflexivity|]. split; [reflexivity|].
  split. { simpl. apply length_insert. }
  split. { simpl. apply list_lookup_insert_eq. by eapply lookup_lt_Some. }
  split. { intros j Hj. simpl. by apply list_lookup_insert_ne. }
  rewrite Fid, Fuser, Fagent, Flogin, Flogout, Fduration, Fsynced, Fcreated, Fupdated.
  repeat split; intros; by match goal with H : _ = _ |- _ => rewrite H end.
Qed.

(** The updates used below overwrite the identifier, the creation time
    and the synced flag of session "s2". *)
Lemma updateSession_changes_one_witness :
  let updates :=
    {| SessionUpdates.id := Some (js "other"); SessionUpdates.userId := None;
       SessionUpdates.userAgent := None; SessionUpdates.loginAt := None;
       SessionUpdates.logoutAt := None; SessionUpdates.durationSeconds := None;
       SessionUpdates.synced := Some false;
       SessionUpdates.createdAt := Some (stamp_of 1);
       SessionUpdates.updatedAt := Some (stamp_of 2) |} in
  ∃ (w' : World) (d' : LocalSessionData),
    LocalStorageManager.updateSession (js "s2") updates sample_runtime sample_world
    = Some (true, w')
    ∧ holds w' d'
    ∧ sessions d' !! 0%nat = Some (sample_session (js "s1") true)
    ∧ (LocalSession.id <$> sessions d' !! 1%nat) = Some (js "other")
    ∧ (LocalSession.userId <$> sessions d' !! 1%nat) = Some (js "user-1")
    ∧ (LocalSession.userAgent <$> sessions d' !! 1%nat) = Some (js "Test Browser/1.0")
    ∧ (LocalSession.loginAt <$> sessions d' !! 1%nat) = Some (stamp_of 900)
    ∧ (LocalSession.synced <$> sessions d' !! 1%nat) = Some false
    ∧ (LocalSession.createdAt <$> sessions d' !! 1%nat) = Some (stamp_of 1)
    ∧ (LocalSession.updatedAt <$> sessions d' !! 1%nat) = Some (stamp_of 1000).
Proof.
  cbv zeta.
  destruct (updateSession_changes_one sample_runtime sample_world sample_world
              sample_sessions (js "s2")
              {| SessionUpdates.id := Some (js "other"); SessionUpdates.userId := None;
                 SessionUpdates.userAgent := None; SessionUpdates.loginAt := None;
                 SessionUpdates.logoutAt := None; SessionUpdates.durationSeconds := None;
                 SessionUpdates.synced := Some false;
                 SessionUpdates.createdAt := Some (stamp_of 1);
                 SessionUpdates.updatedAt := Some (stamp_of 2) |})
    as (i & s & merged & w' & d' & Hi & Hid & Hfirst & Hrun & Hholds & Hm & Hd' & _).
  - vm_compute. reflexivity.
  - exists (sample_session (js "s2") true). split; [|reflexivity].
    apply list_elem_of_In. right. left. reflexivity.
  - reflexivity.
  - exists w', d'. split; [exact Hrun|]. split; [exact Hholds|].
    assert (i = 1%nat) as ->.
    { destruct i as [|[|i]]; [| reflexivity |].
      - injection Hi as <-. by vm_compute in Hid.
      - simpl in Hi. by rewrite lookup_nil in Hi. }
    injection Hi as <-. rewrite Hd', Hm. repeat split.
Defined.

(** ** addMessage (C3) *)

Lemma push_message_capped (c : LocalConversation.t) (m : LocalMessage.t) (now : jsstring) :
  (100 ≤ length (LocalConversation.messages c))%nat →
  LocalConversation.messages (ConversationStorageManager.push_message c m now)
  = drop (length (LocalConversation.messages c) - 99) (LocalConversation.messages c) ++ [m].
Proof.
  intros Hlen. unfold ConversationStorageManager.push_message,
    ConversationStorageManager.MAX_MESSAGES_PER_CONVERSATION, slice_last.
  cbn [LocalConversation.messages].
  rewrite decide_True by (rewrite length_app; simpl; lia).
  rewrite length_app. simpl.
  replace (length (LocalConversation.messages c) + 1 - 100)%nat
    with (length (LocalConversation.messages c) - 99)%nat by lia.
  apply drop_app_le. lia.
Qed.

Lemma push_message_count (c : LocalConversation.t) (m : LocalMessage.t) (now : jsstring) :
  LocalConversation.messageCount (ConversationStorageManager.push_message c m now)
  = Z.of_nat (length (LocalConversation.messages
                        (ConversationStorageManager.push_message c m now))).
Proof. reflexivity. Qed.

Lemma push_message_below_cap (c : LocalConversation.t) (m : LocalMessage.t) (now : jsstring) :
  (length (LocalConversation.messages c) < 100)%nat →
  LocalConversation.messages (ConversationStorageManager.push_message c m now)
  = LocalConversation.messages c ++ [m].
Proof.
  intros Hlen. unfold ConversationStorageManager.push_message,
    ConversationStorageManager.MAX_MESSAGES_PER_CONVERSATION.
  cbn [LocalConversation.messages].
  by rewrite decide_False by (rewrite length_app; simpl; lia).
Qed.

Lemma addMessage_found (rt : Runtime) (w w1 : World) (d : ConversationData)
    (conversationId : jsstring) (message : MessageInput.t)
    (i : nat) (c : LocalConversation.t) :
  ConversationStorageManager.readData rt w = Some (d, w1) →
  list_find (λ c, LocalConversation.id c = conversationId) (conversations d) = Some (i, c) →
  let now := toISOString rt (clock rt (dates w1)) in
  let newMessage :=
    ConversationStorageManager.new_message message (randomUUID rt (uuids w1))
      conversationId now in
  ConversationStorageManager.addMessage conversationId message rt w
  = ConversationStorageManager.saveData
      (ConversationStorageManager.with_conversations d
         (<[i := ConversationStorageManager.push_message c newMessage now]>
            (conversations d)))
      rt (drawn (tick w1)).
Proof.
  intros Hread Hfind. cbv zeta.
  unfold ConversationStorageManager.addMessage, bind. rewrite Hread, Hfind.
  by rewrite now_ISO_run.
Qed.

(** C3. When the conversation the identifier finds already holds 100 or
    more messages and the write is accepted, [addMessage] returns [true]
    and the stored conversation then holds the last 99 of the old
    messages, in their order, followed by the new message: 100 messages,
    the new one last, and a message count of 100. The other conversations
    are as they were. *)
Theorem addMessage_keeps_latest_100 (rt : Runtime) (w w1 : World) (d : ConversationData)
    (conversationId : jsstring) (message : MessageInput.t)
    (i : nat) (c : LocalConversation.t) :
  ConversationStorageManager.readData rt w = Some (d, w1) →
  list_find (λ c, LocalConversation.id c = conversationId) (conversations d) = Some (i, c) →
  (100 ≤ length (LocalConversation.messages c))%nat →
  quota_exceeded rt (setItem_calls w) = false →
  let now := toISOString rt (clock rt (dates w1)) in
  let newMessage :=
    ConversationStorageManager.new_message message (randomUUID rt (uuids w1))
      conversationId now in
  ∃ (w' : World) (d' : ConversationData) (c' : LocalConversation.t),
    ConversationStorageManager.addMessage conversationId message rt w = Some (true, w')
    ∧ holds w' d'
    ∧ conversations d' !! i = Some c'
    ∧ LocalConversation.id c' = conversationId
    ∧ LocalConversation.messages c'
      = drop (length (LocalConversation.messages c) - 99) (LocalConversation.messages c)
        ++ [newMessage]
    ∧ length (LocalConversation.messages c') = 100%nat
    ∧ last (LocalConversation.messages c') = Some newMessage
    ∧ LocalConversation.messageCount c' = 100
    ∧ (∀ j, j ≠ i → conversations d' !! j = conversations d !! j).
Proof.
  intros Hread Hfind Hlen Hq. cbv zeta.
  pose proof (proj1 (list_find_Some _ _ _ _) Hfind) as (Hi & Hid & _).
  destruct (readData_frame rt w w1 d Hread) as (_ & Hcalls & _).
  set (now := toISOString rt (clock rt (dates w1))).
  set (newMessage := ConversationStorageManager.new_message message
                       (randomUUID rt (uuids w1)) conversationId now).
  set (c' := ConversationStorageManager.push_message c newMessage now).
  destruct (saveData_accepted rt (drawn (tick w1))
              (ConversationStorageManager.with_conversations d
                 (<[i := c']> (conversations d))))
    as (w' & Hsave & Hholds & _).
  { simpl. by rewrite Hcalls. }
  assert (LocalConversation.messages c'
          = drop (length (LocalConversation.messages c) - 99)
                 (LocalConversation.messages c) ++ [newMessage]) as Hms
    by (by apply push_message_capped).
  assert (length (LocalConversation.messages c') = 100%nat) as Hlen'.
  { rewrite Hms, length_app, length_drop. simpl. lia. }
  exists w'. eexists. exists c'.
  split. { rewrite (addMessage_found rt w w1 d conversationId message i c Hread Hfind).
           exact Hsave. }
  split; [exact Hholds|].
  split. { simpl. apply list_lookup_insert_eq. by eapply lookup_lt_Some. }
  split; [exact Hid|]. split; [exact Hms|]. split; [exact Hlen'|].
  split. { rewrite Hms. apply last_snoc. }
  split. { unfold c'. rewrite push_message_count. fold c'. rewrite Hlen'. reflexivity. }
  intros j Hj. simpl. by apply list_lookup_insert_ne.
Qed.

(** The 101st message of the sample conversation pushes out message 0. *)
Lemma addMessage_keeps_latest_100_witness :
  ∃ (w' : World) (d' : ConversationData) (c' : LocalConversation.t),
    ConversationStorageManager.addMessage (js "c1") sample_input sample_runtime full_world
    = Some (true, w')
    ∧ holds w' d'
    ∧ conversations d' !! 0%nat = Some c'
    ∧ length (LocalConversation.messages c') = 100%nat
    ∧ head (LocalConversation.messages c') = Some (numbered_message 1)
    ∧ (LocalMessage.text <$> last (LocalConversation.messages c')) = Some (js "uno mas").
Proof.
  destruct (addMessage_keeps_latest_100 sample_runtime full_world full_world
              full_conversations (js "c1") sample_input 0 full_conversation)
    as (w' & d' & c' & Hrun & Hholds & Hc' & _ & Hms & Hlen & Hlast & _).
  - vm_compute. reflexivity.
  - vm_compute. reflexivity.
  - vm_compute. lia.
  - reflexivity.
  - exists w', d', c'. split; [exact Hrun|]. split; [exact Hholds|].
    split; [exact Hc'|]. split; [exact Hlen|].
    split; [by rewrite Hms | by rewrite Hlast].
Defined.

(** ** createConversation (C2) *)

Lemma filter_none {A} (P : A → Prop) `{!∀ x, Decision (P x)} (l : list A) :
  Forall (λ x, ¬ P x) l → filter P l = [].
Proof.
  induction 1 as [|x l Hx _ IH]; [reflexivity|].
  by rewrite filter_cons_False.
Qed.

Lemma filter_every {A} (P : A → Prop) `{!∀ x, Decision (P x)} (l : list A) :
  Forall P l → filter P l = l.
Proof.
  induction 1 as [|x l Hx _ IH]; [reflexivity|].
  by rewrite filter_cons_True, IH.
Qed.

Lemma filter_filter_in {A} (P Q : A → Prop)
    `{!∀ x, Decision (P x), !∀ x, Decision (Q x)} (l : list A) :
  (∀ x, x ∈ l → P x → Q x) → filter P (filter Q l) = filter P l.
Proof.
  induction l as [|x l IH]; intros Himp; [reflexivity|].
  assert (filter P (filter Q l) = filter P l) as IH'
    by (apply IH; intros y Hy; apply Himp; by right).
  destruct (decide (P x)) as [HP|HP].
  - rewrite (filter_cons_True Q) by (apply Himp; [by left | exact HP]).
    rewrite !(filter_cons_True P) by exact HP. by rewrite IH'.
  - rewrite (filter_cons_False P x l) by exact HP.
    destruct (decide (Q x)).
    + rewrite (filter_cons_True Q) by done. by rewrite filter_cons_False.
    + by rewrite (filter_cons_False Q).
Qed.

Lemma NoDup_fmap_eq {A B} (f : A → B) (l : list A) (x y : A) :
  NoDup (f <$> l) → x ∈ l → y ∈ l → f x = f y → x = y.
Proof.
  induction l as [|a l IH]; intros Hnd Hx Hy Hf.
  - by apply elem_of_nil in Hx.
  - rewrite fmap_cons in Hnd. apply NoDup_cons in Hnd as [Ha Hnd].
    apply elem_of_cons in Hx as [-> | Hx]; apply elem_of_cons in Hy as [-> | Hy].
    + reflexivity.
    + exfalso. apply Ha. rewrite Hf. by apply list_elem_of_fmap_2.
    + exfalso. apply Ha. rewrite <- Hf. by apply list_elem_of_fmap_2.
    + by apply IH.
Qed.

Section Limit.
Variable userId : jsstring.
Variable fresh : LocalConversation.t.
Variable old : list LocalConversation.t.
Hypothesis fresh_owner : LocalConversation.userId fresh = userId.

Local Abbreviation owned := (λ c, LocalConversation.userId c = userId).
Local Abbreviation excess := (drop 50 (filter owned (fresh :: old))).
Local Abbreviation kept :=
  (λ c, ¬ Exists (λ toRemove, LocalConversation.id toRemove = LocalConversation.id c)
                 excess).

Lemma limit_conversations_unfold :
  ConversationStorageManager.limit_conversations userId (fresh :: old)
  = if decide (50 < length (filter owned (fresh :: old)))%nat
    then filter kept (fresh :: old)
    else fresh :: old.
Proof. reflexivity. Qed.

Lemma excess_old (r : LocalConversation.t) : r ∈ excess → r ∈ old ∧ owned r.
Proof.
  rewrite filter_cons_True by exact fresh_owner.
  change (drop 50 (fresh :: filter owned old)) with (drop 49 (filter owned old)).
  intros Hr. apply (subseteq_drop 49) in Hr.
  apply list_elem_of_filter in Hr as [Ho Hin]. by split.
Qed.

Lemma excess_not_kept : filter kept excess = [].
Proof.
  apply filter_none. apply Forall_forall. intros c Hc Hk.
  apply Hk. apply Exists_exists. by exists c.
Qed.

Lemma limit_conversations_count :
  (length (filter owned (ConversationStorageManager.limit_conversations userId
                           (fresh :: old))) ≤ 50)%nat.
Proof.
  rewrite limit_conversations_unfold. case_decide as Hlen; [|lia].
  rewrite list_filter_filter.
  rewrite (list_filter_iff _ (λ c, kept c ∧ owned c)) by (intros c; tauto).
  rewrite <- list_filter_filter.
  rewrite <- (take_drop 50 (filter owned (fresh :: old))) at 1.
  rewrite filter_app, excess_not_kept, app_nil_r.
  etrans; [apply length_filter|]. rewrite length_take. lia.
Qed.

Lemma limit_conversations_below :
  (length (filter owned old) < 50)%nat →
  ConversationStorageManager.limit_conversations userId (fresh :: old) = fresh :: old.
Proof.
  intros Hlen. rewrite limit_conversations_unfold.
  rewrite filter_cons_True by exact fresh_owner.
  rewrite decide_False; [reflexivity | simpl; lia].
Qed.

Hypothesis unique_ids : NoDup (LocalConversation.id <$> old).

Lemma not_kept_excess (c : LocalConversation.t) : c ∈ old → ¬ kept c → c ∈ excess.
Proof.
  intros Hc Hk. apply dec_stable in Hk.
  apply Exists_exists in Hk as (r & Hr & Hid).
  destruct (excess_old r Hr) as [Hrold _].
  by rewrite <- (NoDup_fmap_eq LocalConversation.id old r c unique_ids Hrold Hc Hid).
Qed.

Lemma limit_conversations_others :
  filter (λ c, ¬ owned c)
         (ConversationStorageManager.limit_conversations userId (fresh :: old))
  = filter (λ c, ¬ owned c) old.
Proof.
  rewrite limit_conversations_unfold.
  assert (filter (λ c, ¬ owned c) (fresh :: old) = filter (λ c, ¬ owned c) old) as Hfresh
    by (apply filter_cons_False; intros Hn; by apply Hn).
  case_decide as Hlen; [|exact Hfresh].
  rewrite filter_filter_in; [exact Hfresh|].
  intros c Hc Hother. apply elem_of_cons in Hc as [-> | Hc].
  - by destruct Hother.
  - destruct (decide (kept c)) as [Hk | Hk]; [exact Hk|].
    destruct (excess_old c (not_kept_excess c Hc Hk)) as [_ Ho]. by destruct Hother.
Qed.

Lemma limit_conversations_removed (c : LocalConversation.t) :
  c ∈ old →
  c ∉ ConversationStorageManager.limit_conversations userId (fresh :: old) →
  owned c ∧ c ∈ excess.
Proof.
  intros Hc Hgone. rewrite limit_conversations_unfold in Hgone.
  case_decide as Hlen.
  - assert (¬ kept c) as Hk.
    { intros Hk. apply Hgone. apply list_elem_of_filter. split; [exact Hk | by right]. }
    pose proof (not_kept_excess c Hc Hk) as Hex.
    split; [by apply excess_old | exact Hex].
  - exfalso. apply Hgone. by right.
Qed.

Hypothesis fresh_id : LocalConversation.id fresh ∉ LocalConversation.id <$> old.

Lemma limit_conversations_owned :
  filter owned (ConversationStorageManager.limit_conversations userId (fresh :: old))
  = take 50 (filter owned (fresh :: old)).
Proof.
  assert (NoDup (LocalConversation.id <$> fresh :: old)) as Hnd
    by (rewrite fmap_cons; apply NoDup_cons; by split).
  rewrite limit_conversations_unfold. case_decide as Hlen.
  - rewrite list_filter_filter.
    rewrite (list_filter_iff _ (λ c, kept c ∧ owned c)) by (intros c; tauto).
    rewrite <- list_filter_filter.
    rewrite <- (take_drop 50 (filter owned (fresh :: old))) at 1.
    rewrite filter_app, excess_not_kept, app_nil_r.
    apply filter_every. apply Forall_forall. intros c Hc Hex.
    apply Exists_exists in Hex as (r & Hr & Hid).
    assert (r = c) as ->.
    { apply (NoDup_fmap_eq LocalConversation.id (fresh :: old)); [exact Hnd | | | exact Hid].
      - right. by apply excess_old.
      - apply (subseteq_take 50) in Hc. by apply list_elem_of_filter in Hc as [_ Hc]. }
    assert (NoDup (filter owned (fresh :: old))) as Hu
      by (apply NoDup_filter; by apply NoDup_fmap_1 in Hnd).
    rewrite <- (take_drop 50 (filter owned (fresh :: old))) in Hu.
    apply NoDup_app in Hu as (_ & Hdisjoint & _). by apply (Hdisjoint c).
  - symmetry. apply take_ge. lia.
Qed.
End Limit.

Lemma createConversation_run (rt : Runtime) (w w1 : World) (d : ConversationData)
    (userId : jsstring) (initialMessage : option LocalMessage.t) :
  ConversationStorageManager.readData rt w = Some (d, w1) →
  let conversation :=
    ConversationStorageManager.new_conversation userId initialMessage
      (randomUUID rt (uuids w1)) (toISOString rt (clock rt (dates w1))) in
  ConversationStorageManager.createConversation userId initialMessage rt w
  = match ConversationStorageManager.saveData
            (ConversationStorageManager.with_conversations d
               (ConversationStorageManager.limit_conversations userId
                  (conversation :: conversations d)))
            rt (drawn (tick w1)) with
    | Some (true, w') => Some (Some conversation, w')
    | Some (false, w') => Some (None, w')
    | None => None
    end.
Proof.
  intros Hread. cbv zeta.
  unfold ConversationStorageManager.createConversation, bind. rewrite Hread.
  rewrite now_ISO_run. unfold crypto_randomUUID.
  destruct (ConversationStorageManager.saveData _ rt (drawn (tick w1))) as [[[|] w']|];
    reflexivity.
Qed.

(** C2. When the write is accepted, [createConversation] returns the new
    conversation and the stored document then has at most 50
    conversations of its user. If the identifiers of the document read
    were distinct, the conversations of the other users are all there,
    unchanged and in their order, and a conversation that is gone was the
    user's own and stood after the first 50 of the user's list, which
    runs from the newest to the oldest; with a new identifier that is
    distinct from them too, the user's list is cut to exactly its first
    50. Below the cap nothing is removed. *)
Theorem createConversation_caps_one_user (rt : Runtime) (w w1 : World)
    (d : ConversationData) (userId : jsstring) (initialMessage : option LocalMessage.t) :
  ConversationStorageManager.readData rt w = Some (d, w1) →
  quota_exceeded rt (setItem_calls w) = false →
  ∃ (conversation : LocalConversation.t) (w' : World) (d' : ConversationData),
    ConversationStorageManager.createConversation userId initialMessage rt w
    = Some (Some conversation, w')
    ∧ holds w' d'
    ∧ LocalConversation.userId conversation = userId
    ∧ (length (filter (λ c, LocalConversation.userId c = userId) (conversations d')) ≤ 50)%nat
    ∧ (NoDup (LocalConversation.id <$> conversations d) →
         filter (λ c, LocalConversation.userId c ≠ userId) (conversations d')
         = filter (λ c, LocalConversation.userId c ≠ userId) (conversations d)
         ∧ ∀ c, c ∈ conversations d → c ∉ conversations d' →
                LocalConversation.userId c = userId
                ∧ c ∈ drop 50 (filter (λ c, LocalConversation.userId c = userId)
                                      (conversation :: conversations d)))
    ∧ (NoDup (LocalConversation.id <$> conversations d) →
       LocalConversation.id conversation ∉ LocalConversation.id <$> conversations d →
         filter (λ c, LocalConversation.userId c = userId) (conversations d')
         = take 50 (filter (λ c, LocalConversation.userId c = userId)
                           (conversation :: conversations d)))
    ∧ ((length (filter (λ c, LocalConversation.userId c = userId) (conversations d)) < 50)%nat →
         conversations d' = conversation :: conversations d).
Proof.
  intros Hread Hq.
  destruct (readData_frame rt w w1 d Hread) as (_ & Hcalls & _).
  set (conversation := ConversationStorageManager.new_conversation userId initialMessage
                         (randomUUID rt (uuids w1)) (toISOString rt (clock rt (dates w1)))).
  destruct (saveData_accepted rt (drawn (tick w1))
              (ConversationStorageManager.with_conversations d
                 (ConversationStorageManager.limit_conversations userId
                    (conversation :: conversations d))))
    as (w' & Hsave & Hholds & _).
  { simpl. by rewrite Hcalls. }
  exists conversation, w'. eexists.
  split. { rewrite (createConversation_run rt w w1 d userId initialMessage Hread).
           fold conversation. unfold ConversationStorageManager.saveData.
           by rewrite Hsave. }
  split; [exact Hholds|]. split; [reflexivity|].
  split; [apply limit_conversations_count|].
  split.
  - intros Hnd. split.
    + by apply limit_conversations_others.
    + intros c Hc Hgone.
      by apply (limit_conversations_removed userId conversation (conversations d)).
  - split.
    + intros Hnd Hfresh. by apply limit_conversations_owned.
    + intros Hlen. by apply limit_conversations_below.
Qed.

(** Distinct identifiers are kept distinct as long as [crypto.randomUUID]
    returns an identifier the document does not have. *)
Lemma limit_conversations_sublist (userId : jsstring) (cs : list LocalConversation.t) :
  ConversationStorageManager.limit_conversations userId cs `sublist_of` cs.
Proof.
  unfold ConversationStorageManager.limit_conversations. cbv zeta.
  case_decide; [apply sublist_filter | reflexivity].
Qed.

Lemma createConversation_keeps_ids_distinct (rt : Runtime) (w w1 : World)
    (d : ConversationData) (userId : jsstring) (initialMessage : option LocalMessage.t) :
  ConversationStorageManager.readData rt w = Some (d, w1) →
  quota_exceeded rt (setItem_calls w) = false →
  NoDup (LocalConversation.id <$> conversations d) →
  randomUUID rt (uuids w1) ∉ LocalConversation.id <$> conversations d →
  ∃ (conversation : LocalConversation.t) (w' : World) (d' : ConversationData),
    ConversationStorageManager.createConversation userId initialMessage rt w
    = Some (Some conversation, w')
    ∧ holds w' d'
    ∧ NoDup (LocalConversation.id <$> conversations d').
Proof.
  intros Hread Hq Hnd Hfresh.
  destruct (readData_frame rt w w1 d Hread) as (_ & Hcalls & _).
  set (conversation := ConversationStorageManager.new_conversation userId initialMessage
                         (randomUUID rt (uuids w1)) (toISOString rt (clock rt (dates w1)))).
  destruct (saveData_accepted rt (drawn (tick w1))
              (ConversationStorageManager.with_conversations d
                 (ConversationStorageManager.limit_conversations userId
                    (conversation :: conversations d))))
    as (w' & Hsave & Hholds & _).
  { simpl. by rewrite Hcalls. }
  exists conversation, w'. eexists.
  split. { rewrite (createConversation_run rt w w1 d userId initialMessage Hread).
           fold conversation. unfold ConversationStorageManager.saveData.
           by rewrite Hsave. }
  split; [exact Hholds|]. simpl.
  apply (sublist_NoDup _ (LocalConversation.id <$> conversation :: conversations d)).
  - rewrite fmap_cons. apply NoDup_cons. by split.
  - apply fmap_sublist. apply limit_conversations_sublist.
Qed.

(** A 51st conversation of "user-1" pushes out the oldest of that user,
    "k49"; the conversation of "user-2" stays. *)
Lemma createConversation_caps_one_user_witness :
  ∃ (conversation : LocalConversation.t) (w' : World) (d' : ConversationData),
    ConversationStorageManager.createConversation (js "user-1") (Some sample_message)
      sample_runtime crowded_world
    = Some (Some conversation, w')
    ∧ holds w' d'
    ∧ (length (filter (λ c, LocalConversation.userId c = js "user-1") (conversations d'))
       ≤ 50)%nat
    ∧ filter (λ c, LocalConversation.userId c ≠ js "user-1") (conversations d')
      = [sample_conversation (js "other") (js "user-2") true].
Proof.
  destruct (createConversation_caps_one_user sample_runtime crowded_world crowded_world
              crowded_conversations (js "user-1") (Some sample_message))
    as (conversation & w' & d' & Hrun & Hholds & _ & Hcount & Hothers & _).
  - vm_compute. reflexivity.
  - reflexivity.
  - exists conversation, w', d'. split; [exact Hrun|]. split; [exact Hholds|].
    split; [exact Hcount|].
    destruct Hothers as [-> _].
    + apply (bool_decide_unpack _). vm_compute. exact I.
    + vm_compute. reflexivity.
Defined.

Example createConversation_drops_oldest :
  match ConversationStorageManager.createConversation (js "user-1") None
          sample_runtime crowded_world with
  | Some (Some _, w') =>
      match ConversationStorageManager.readData sample_runtime w' with
      | Some (d, _) => map LocalConversation.id (conversations d)
      | None => []
      end
  | _ => []
  end
  = (js "uuid-" ++ [0%N]) :: map (λ n, js "k" ++ [N.of_nat n]) (seq 0 49) ++ [js "other"].
Proof. vm_compute. reflexivity. Qed.

(** ** Cleanup (C9) *)


Lemma date_ge_invalid (rt : Runtime) (s : jsstring) (cutoffDate : Z) :
  Date_parse rt s = None → date_ge rt s cutoffDate = false.
Proof. intros Ht. unfold date_ge. by rewrite Ht. Qed.

Lemma length_filter_split {A} (P : A → Prop) `{!∀ x, Decision (P x)} (l : list A) :
  length l = (length (filter P l) + length (filter (λ x, ¬ P x) l))%nat.
Proof.
  induction l as [|x l IH]; [reflexivity|].
  destruct (decide (P x)).
  - rewrite (filter_cons_True P), (filter_cons_False (λ x, ¬ P x)) by tauto.
    simpl. lia.
  - rewrite (filter_cons_False P), (filter_cons_True (λ x, ¬ P x)) by tauto.
    simpl. lia.
Qed.

Section Cleanup.
Context {R : Type} `{SchemaLaws R}.
Variable createdAt : R → jsstring.

Lemma cleanup_run (rt : Runtime) (w w1 : World) (d : Document R) :
  readData rt w = Some (d, w1) →
  let cutoffDate := setDate_back rt (clock rt (dates w1)) CLEANUP_DAYS in
  let kept := filter (λ r, date_ge rt (createdAt r) cutoffDate = true) (records d) in
  let removedCount := Z.of_nat (length (records d)) - Z.of_nat (length kept) in
  cleanup createdAt rt w
  = if 0 <? removedCount
    then match saveData {| records := kept; lastCleanup := lastCleanup d;
                           version := version d |} rt (tick w1) with
         | Some (_, w') => Some (removedCount, w')
         | None => None
         end
    else Some (removedCount, tick w1).
Proof.
  intros Hread. cbv zeta. unfold cleanup, bind. rewrite Hread.
  unfold days_ago, bind, new_Date, runtime, ret.
  destruct (0 <? _); [|reflexivity].
  by destruct (saveData _ rt (tick w1)) as [[? ?]|].
Qed.

(** What [cleanup] returns and does to the store, in terms of the
    records it keeps and the ones it removes. *)
Lemma cleanup_outcome (rt : Runtime) (w w1 : World) (d : Document R) :
  readData rt w = Some (d, w1) →
  let cutoffDate := setDate_back rt (clock rt (dates w1)) CLEANUP_DAYS in
  let kept := filter (λ r, date_ge rt (createdAt r) cutoffDate = true) (records d) in
  let removed := filter (λ r, ¬ date_ge rt (createdAt r) cutoffDate = true) (records d) in
  ∃ w', cleanup createdAt rt w = Some (Z.of_nat (length removed), w')
    ∧ (removed = [] →
         localStorage w' = localStorage w ∧ setItem_calls w' = setItem_calls w)
    ∧ (removed ≠ [] →
         setItem_calls w' = S (setItem_calls w)
         ∧ (quota_exceeded rt (setItem_calls w) = false →
              ∃ d', holds w' d' ∧ records d' = kept)
         ∧ (quota_exceeded rt (setItem_calls w) = true →
              localStorage w' = localStorage w)).
Proof.
  intros Hread. cbv zeta.
  destruct (readData_frame rt w w1 d Hread) as (Hst & Hcalls & _).
  rewrite (cleanup_run rt w w1 d Hread). cbv zeta.
  set (cutoffDate := setDate_back rt (clock rt (dates w1)) CLEANUP_DAYS).
  pose proof (length_filter_split (λ r, date_ge rt (createdAt r) cutoffDate = true)
                (records d)) as Hsplit.
  set (kept := filter (λ r, date_ge rt (createdAt r) cutoffDate = true) (records d)) in *.
  set (removed := filter (λ r, ¬ date_ge rt (createdAt r) cutoffDate = true) (records d))
    in *.
  replace (Z.of_nat (length (records d)) - Z.of_nat (length kept))
    with (Z.of_nat (length removed)) by lia.
  clearbody removed. destruct removed as [|r0 removed].
  - exists (tick w1). split; [reflexivity|]. split; [by intros _ | done].
  - change (0 <? Z.of_nat (length (r0 :: removed))) with true. cbv iota.
    rewrite saveData_run. change (setItem_calls (tick w1)) with (setItem_calls w1).
    rewrite Hcalls.
    destruct (quota_exceeded rt (setItem_calls w)) eqn:Hq.
    + eexists. split; [reflexivity|]. split; [done|]. intros _.
      split; [simpl; by rewrite Hcalls|]. split; [done | by intros _].
    + eexists. split; [reflexivity|]. split; [done|]. intros _.
      split; [simpl; by rewrite Hcalls|]. split; [|done]. intros _.
      eexists. split; [apply written_holds | reflexivity].
Qed.
End Cleanup.

Section CleanupWindow.
Context {R : Type} `{SchemaLaws R}.
Variable createdAt : R → jsstring.

End CleanupWindow.




(** ** The message count (C6) *)

Section Preservation.
Context {R : Type} `{SchemaLaws R}.
Variable P : list R → Prop.

Lemma reads_with_same_store (rt : Runtime) (w v : World) :
  reads_with P rt w → localStorage v = localStorage w → reads_with P rt v.
Proof.
  intros (d & w1 & Hread & HP) Hst.
  destruct (readData_same_store rt w w1 v d Hread Hst) as (d' & v1 & Hread' & Hrec).
  exists d', v1. split; [exact Hread' | by rewrite Hrec].
Qed.

Lemma saveData_reads_with (rt : Runtime) (w v : World) (d : Document R) :
  reads_with P rt w → localStorage v = localStorage w → P (records d) →
  ∃ b w', saveData d rt v = Some (b, w') ∧ reads_with P rt w'.
Proof.
  intros Hw Hst HP.
  destruct (saveData_outcome rt v d) as (b & w' & Hsave & _ & [Hsame | Hholds]).
  - exists b, w'. split; [exact Hsave|].
    apply (reads_with_same_store rt w); [exact Hw | congruence].
  - exists b, w'. split; [exact Hsave|].
    eexists _, w'. split; [by apply readData_holds | exact HP].
Qed.
End Preservation.

Lemma count_matches_new (userId : jsstring) (initialMessage : option LocalMessage.t)
    (uuid now : jsstring) :
  count_matches (ConversationStorageManager.new_conversation userId initialMessage uuid now).
Proof. by destruct initialMessage. Qed.

Lemma count_matches_push (c : LocalConversation.t) (m : LocalMessage.t) (now : jsstring) :
  count_matches (ConversationStorageManager.push_message c m now).
Proof. reflexivity. Qed.

Lemma count_matches_mark (c : LocalConversation.t) (now : jsstring) :
  count_matches c → count_matches (ConversationStorageManager.mark c now).
Proof. intros Hc. exact Hc. Qed.

Lemma counts_consistent_filter (Q : LocalConversation.t → Prop)
    `{!∀ c, Decision (Q c)} (cs : list LocalConversation.t) :
  counts_consistent cs → counts_consistent (filter Q cs).
Proof.
  unfold counts_consistent. rewrite !Forall_forall.
  intros Hcs c Hc. apply list_elem_of_filter in Hc as [_ Hc]. by apply Hcs.
Qed.

Lemma counts_consistent_limit (userId : jsstring) (cs : list LocalConversation.t) :
  counts_consistent cs →
  counts_consistent (ConversationStorageManager.limit_conversations userId cs).
Proof.
  intros Hcs. unfold ConversationStorageManager.limit_conversations. cbv zeta.
  case_decide; [by apply counts_consistent_filter | exact Hcs].
Qed.

(** Each operation, started in a world that reads as a document with
    matching counts, returns and leaves such a world. *)
Section OperationsKeepCounts.
Variable rt : Runtime.
Variable w : World.
Hypothesis consistent : reads_with counts_consistent rt w.

Local Abbreviation keeps m :=
  (∃ a w', m rt w = Some (a, w') ∧ reads_with counts_consistent rt w').

Lemma createConversation_keeps_counts (userId : jsstring)
    (initialMessage : option LocalMessage.t) :
  keeps (ConversationStorageManager.createConversation userId initialMessage).
Proof.
  destruct consistent as (d & w1 & Hread & Hinv).
change (ConversationStorageManager.readData rt w = Some (d, w1)) in Hread.
  destruct (readData_frame rt w w1 d Hread) as (Hst & _).
  rewrite (createConversation_run rt w w1 d userId initialMessage Hread).
  destruct (saveData_reads_with counts_consistent rt w (drawn (tick w1))
              (ConversationStorageManager.with_conversations d
                 (ConversationStorageManager.limit_conversations userId
                    (ConversationStorageManager.new_conversation userId initialMessage
                       (randomUUID rt (uuids w1)) (toISOString rt (clock rt (dates w1)))
                     :: conversations d))) consistent Hst)
    as (b & w' & Hsave & Hw').
  { apply counts_consistent_limit. constructor; [apply count_matches_new | exact Hinv]. }
  unfold ConversationStorageManager.saveData. rewrite Hsave. destruct b; eauto.
Qed.

Lemma addMessage_keeps_counts (conversationId : jsstring) (message : MessageInput.t) :
  keeps (ConversationStorageManager.addMessage conversationId message).
Proof.
  destruct consistent as (d & w1 & Hread & Hinv).
change (ConversationStorageManager.readData rt w = Some (d, w1)) in Hread.
  destruct (readData_frame rt w w1 d Hread) as (Hst & _).
  destruct (list_find (λ c, LocalConversation.id c = conversationId) (conversations d))
    as [[i c]|] eqn:Hfind.
  - rewrite (addMessage_found rt w w1 d conversationId message i c Hread Hfind).
    apply (saveData_reads_with counts_consistent rt w); [exact consistent | exact Hst |].
    apply Forall_insert; [exact Hinv | apply count_matches_push].
  - exists false, w1. split.
    + unfold ConversationStorageManager.addMessage, bind. by rewrite Hread, Hfind.
    + by apply (reads_with_same_store counts_consistent rt w).
Qed.

Lemma markSynced_keeps_counts (conversationId : jsstring) :
  keeps (ConversationStorageManager.markSynced conversationId).
Proof.
  destruct consistent as (d & w1 & Hread & Hinv).
change (ConversationStorageManager.readData rt w = Some (d, w1)) in Hread.
  destruct (readData_frame rt w w1 d Hread) as (Hst & _).
  unfold ConversationStorageManager.markSynced, bind. rewrite Hread.
  destruct (list_find (λ c, LocalConversation.id c = conversationId) (conversations d))
    as [[i c]|] eqn:Hfind.
  - pose proof (proj1 (list_find_Some _ _ _ _) Hfind) as (Hi & _).
    rewrite now_ISO_run.
    apply (saveData_reads_with counts_consistent rt w); [exact consistent | exact Hst |].
    apply Forall_insert; [exact Hinv|]. apply count_matches_mark.
    eapply Forall_lookup_1; [exact Hinv | exact Hi].
  - exists false, w1. split; [reflexivity|].
    by apply (reads_with_same_store counts_consistent rt w).
Qed.

Lemma deleteConversation_keeps_counts (conversationId : jsstring) :
  keeps (ConversationStorageManager.deleteConversation conversationId).
Proof.
  destruct consistent as (d & w1 & Hread & Hinv).
change (ConversationStorageManager.readData rt w = Some (d, w1)) in Hread.
  destruct (readData_frame rt w w1 d Hread) as (Hst & _).
  unfold ConversationStorageManager.deleteConversation, bind. rewrite Hread.
  case_decide.
  - apply (saveData_reads_with counts_consistent rt w); [exact consistent | exact Hst |].
    by apply counts_consistent_filter.
  - exists false, w1. split; [reflexivity|].
    by apply (reads_with_same_store counts_consistent rt w).
Qed.

Lemma cleanupOldConversations_keeps_counts :
  keeps ConversationStorageManager.cleanupOldConversations.
Proof.
  destruct consistent as (d & w1 & Hread & Hinv).
change (ConversationStorageManager.readData rt w = Some (d, w1)) in Hread.
  destruct (readData_frame rt w w1 d Hread) as (Hst & _).
  unfold ConversationStorageManager.cleanupOldConversations.
  rewrite (cleanup_run LocalConversation.createdAt rt w w1 d Hread). cbv zeta.
  destruct (0 <? _).
  - edestruct (saveData_reads_with counts_consistent rt w (tick w1))
      as (b & w' & Hsave & Hw'); [exact consistent | exact Hst | |].
    2:{ rewrite Hsave. eauto. }
    by apply counts_consistent_filter.
  - do 2 eexists. split; [reflexivity|].
    by apply (reads_with_same_store counts_consistent rt w).
Qed.
End OperationsKeepCounts.

(** C6. Each operation of the conversation manager returns, and if the
    document read from the store before it had, in every conversation, a
    message count equal to the number of its messages, so has the document
    read from the store after it. *)
Theorem message_count_invariant (rt : Runtime) (w w1 : World) (d : ConversationData)
    (op : operation) :
  ConversationStorageManager.readData rt w = Some (d, w1) →
  counts_consistent (conversations d) →
  ∃ (w' w2 : World) (d' : ConversationData),
    perform op rt w = Some (tt, w')
    ∧ ConversationStorageManager.readData rt w' = Some (d', w2)
    ∧ counts_consistent (conversations d').
Proof.
  intros Hread Hinv.
  assert (reads_with counts_consistent rt w) as Hw by (by exists d, w1).
  destruct op as [userId initialMessage | conversationId message | conversationId
                 | conversationId | ]; unfold perform, bind.
  - destruct (createConversation_keeps_counts rt w Hw userId initialMessage)
      as (a & w' & -> & d' & w2 & Hread' & Hinv').
    by exists w', w2, d'.
  - destruct (addMessage_keeps_counts rt w Hw conversationId message)
      as (a & w' & -> & d' & w2 & Hread' & Hinv').
    by exists w', w2, d'.
  - destruct (markSynced_keeps_counts rt w Hw conversationId)
      as (a & w' & -> & d' & w2 & Hread' & Hinv').
    by exists w', w2, d'.
  - destruct (deleteConversation_keeps_counts rt w Hw conversationId)
      as (a & w' & -> & d' & w2 & Hread' & Hinv').
    by exists w', w2, d'.
  - destruct (cleanupOldConversations_keeps_counts rt w Hw)
      as (a & w' & -> & d' & w2 & Hread' & Hinv').
    by exists w', w2, d'.
Qed.

Lemma message_count_invariant_witness :
  ∃ (w' w2 : World) (d' : ConversationData),
    perform (AddMessage (js "c1") sample_input) sample_runtime sample_world = Some (tt, w')
    ∧ ConversationStorageManager.readData sample_runtime w' = Some (d', w2)
    ∧ counts_consistent (conversations d').
Proof.
  apply (message_count_invariant sample_runtime sample_world sample_world
           sample_conversations).
  - vm_compute. reflexivity.
  - repeat constructor.
Defined.

Example addMessage_counts :
  match ConversationStorageManager.addMessage (js "c1") sample_input
          sample_runtime sample_world with
  | Some (true, w') =>
      match ConversationStorageManager.getConversation (js "c1") sample_runtime w' with
      | Some (Some c, _) =>
          (LocalConversation.messageCount c, length (LocalConversation.messages c))
      | _ => (0, 0%nat)
      end
  | _ => (0, 0%nat)
  end = (2, 2%nat).
Proof. vm_compute. reflexivity. Qed.

(** The invariant along any sequence of operations. *)
Lemma message_count_invariant_all (rt : Runtime) (ops : list operation) (w : World) :
  reads_with counts_consistent rt w →
  ∃ w', perform_all ops rt w = Some (tt, w') ∧ reads_with counts_consistent rt w'.
Proof.
  revert w. induction ops as [|op ops IH]; intros w Hw.
  - by exists w.
  - assert (∃ w1, perform op rt w = Some (tt, w1) ∧ reads_with counts_consistent rt w1)
      as (w1 & Hop & Hw1).
    { destruct op; unfold perform, bind;
        [ destruct (createConversation_keeps_counts rt w Hw userId initialMessage)
            as (a & w1 & -> & Hw1)
        | destruct (addMessage_keeps_counts rt w Hw conversationId message)
            as (a & w1 & -> & Hw1)
        | destruct (markSynced_keeps_counts rt w Hw conversationId)
            as (a & w1 & -> & Hw1)
        | destruct (deleteConversation_keeps_counts rt w Hw conversationId)
            as (a & w1 & -> & Hw1)
        | destruct (cleanupOldConversations_keeps_counts rt w Hw)
            as (a & w1 & -> & Hw1) ];
        by exists w1. }
    destruct (IH w1 Hw1) as (w' & Hrest & Hw').
    exists w'. split; [|exact Hw']. simpl. unfold bind. by rewrite Hop.
Qed.

(** From an empty store every sequence of operations keeps the counts. *)
Lemma message_count_invariant_from_empty (rt : Runtime) (ops : list operation) :
  ∃ w', perform_all ops rt empty_world = Some (tt, w')
        ∧ reads_with counts_consistent rt w'.
Proof.
  apply message_count_invariant_all.
  eexists _, _. split; [by apply readData_reset | constructor].
Qed.

(** ** From the first message to the second

    A conversation created with a first message of the user has a title
    taken from it, one message and is not synced; the answer of the
    assistant makes two messages and moves the time of the last one. *)
Example first_and_second_message :
  let question :=
    {| LocalMessage.id := js "m1";
       LocalMessage.text := js "Que comer en el embarazo?";
       LocalMessage.isUser := true;
       LocalMessage.timestamp := stamp_of 990;
       LocalMessage.conversationId := js "" |} in
  let answer :=
    {| MessageInput.text := js "Frutas, verduras y proteinas.";
       MessageInput.isUser := false;
       MessageInput.timestamp := stamp_of 2000 |} in
  match ConversationStorageManager.createConversation (js "user-1") (Some question)
          sample_runtime empty_world with
  | Some (Some c, w1) =>
      LocalConversation.title c = Some (js "Que comer en el embarazo?")
      ∧ LocalConversation.messageCount c = 1
      ∧ LocalConversation.synced c = false
      ∧ match ConversationStorageManager.addMessage (LocalConversation.id c) answer
                sample_runtime w1 with
        | Some (true, w2) =>
            match ConversationStorageManager.getConversation (LocalConversation.id c)
                    sample_runtime w2 with
            | Some (Some c', _) =>
                LocalConversation.messageCount c' = 2
                ∧ LocalConversation.lastMessageAt c' = stamp_of 2000
                ∧ LocalConversation.title c' = Some (js "Que comer en el embarazo?")
            | _ => False
            end
        | _ => False
        end
  | _ => False
  end.
Proof. vm_compute. repeat split. Qed.

(** * Further properties *)

(** ** What an operation does to the store *)

Section Effect.
Context {R : Type} `{SchemaLaws R}.

Lemma saveData_effect (rt : Runtime) (w v : World) (d : Document R) (l : list R) :
  localStorage v = localStorage w →
  ∃ b w', saveData {| records := l; lastCleanup := lastCleanup d; version := version d |}
            rt v = Some (b, w')
          ∧ b = negb (quota_exceeded rt (setItem_calls v))
          ∧ requests w' = requests v
          ∧ (b = false → localStorage w' = localStorage w)
          ∧ left_or_wrote w w' d l.
Proof.
  intros Hst. rewrite saveData_run.
  destruct (quota_exceeded rt (setItem_calls v)); do 2 eexists;
    (split; [reflexivity|]); (split; [reflexivity|]); (split; [reflexivity|]).
  - split; [by intros _ | by left].
  - split; [done|]. right. eexists. simpl. by rewrite Hst.
Qed.

Lemma left_or_wrote_reads (P : list R → Prop) (rt : Runtime) (w w' : World)
    (d : Document R) (l : list R) :
  reads_with P rt w → P l → left_or_wrote w w' d l → reads_with P rt w'.
Proof.
  intros Hw Hl [Hsame | (iso & Hwrote)].
  - by apply (reads_with_same_store P rt w).
  - exists (stamp {| records := l; lastCleanup := lastCleanup d;
                     version := version d |} iso), w'.
    split; [|exact Hl].
    apply readData_holds. split; [|reflexivity].
    rewrite Hwrote. apply lookup_insert_eq.
Qed.

Lemma left_or_wrote_other_key (w w' : World) (d : Document R) (l : list R)
    (key : jsstring) :
  key ≠ STORAGE_KEY → left_or_wrote w w' d l →
  localStorage w' !! key = localStorage w !! key.
Proof.
  intros Hkey [-> | (iso & ->)]; [reflexivity|]. by apply lookup_insert_ne.
Qed.
End Effect.

Lemma slice_take_all {A} (n : nat) (l : list A) :
  (if decide (n < length l)%nat then take n l else l) = take n l.
Proof. case_decide; [reflexivity|]. symmetry. apply take_ge. lia. Qed.

(** Each operation of the conversation manager returns, sends nothing to
    the remote database, and leaves the store untouched or writes the
    changed list. With a refused write the store is untouched. *)
Lemma perform_effect (rt : Runtime) (w w1 : World) (d : ConversationData) (op : operation) :
  ConversationStorageManager.readData rt w = Some (d, w1) →
  ∃ w', perform op rt w = Some (tt, w')
        ∧ requests w' = requests w
        ∧ (quota_exceeded rt (setItem_calls w) = true → localStorage w' = localStorage w)
        ∧ left_or_wrote w w' d (changed rt w1 op (conversations d)).
Proof.
  intros Hread.
  destruct (readData_frame rt w w1 d Hread) as (Hst & Hcalls & Hreq & _).
  assert (∀ v l, localStorage v = localStorage w1 → setItem_calls v = setItem_calls w1 →
                 requests v = requests w1 →
            ∃ b w', ConversationStorageManager.saveData
                      (ConversationStorageManager.with_conversations d l) rt v = Some (b, w')
                    ∧ requests w' = requests w
                    ∧ (quota_exceeded rt (setItem_calls w) = true →
                         localStorage w' = localStorage w)
                    ∧ left_or_wrote w w' d l) as Hsave.
  { intros v l Hv Hc Hr.
    destruct (saveData_effect rt w v d l) as (b & w' & Hs & Hb & Hr' & Hfalse & Heff);
      [congruence|].
    exists b, w'. split; [exact Hs|]. split; [congruence|]. split; [|exact Heff].
    intros Hq. apply Hfalse. rewrite Hb, Hc, Hcalls, Hq. reflexivity. }
  assert (∀ l, ∃ w', Some (tt, w1) = Some (tt, w')
                ∧ requests w' = requests w
                ∧ (quota_exceeded rt (setItem_calls w) = true →
                     localStorage w' = localStorage w)
                ∧ left_or_wrote w w' d l) as Hnone.
  { intros l. exists w1. split; [reflexivity|]. split; [exact Hreq|]. split; [done | by left]. }
  destruct op as [userId initialMessage | conversationId message | conversationId
                 | conversationId | ]; unfold perform, bind.
  - rewrite (createConversation_run rt w w1 d userId initialMessage Hread).
    edestruct (Hsave (drawn (tick w1))) as (b & w' & -> & Hr & Hq & Heff);
      [reflexivity..|].
    exists w'. split; [by destruct b|]. split; [exact Hr|]. split; [exact Hq | exact Heff].
  - cbn [changed].
    destruct (list_find (λ c, LocalConversation.id c = conversationId) (conversations d))
      as [[i c]|] eqn:Hfind.
    + rewrite (addMessage_found rt w w1 d conversationId message i c Hread Hfind).
      edestruct (Hsave (drawn (tick w1))) as (b & w' & -> & Hr & Hq & Heff);
        [reflexivity..|].
      exists w'. split; [reflexivity|]. split; [exact Hr|]. split; [exact Hq | exact Heff].
    + unfold ConversationStorageManager.addMessage, bind. rewrite Hread, Hfind.
      apply Hnone.
  - cbn [changed]. unfold ConversationStorageManager.markSynced, bind. rewrite Hread.
    destruct (list_find (λ c, LocalConversation.id c = conversationId) (conversations d))
      as [[i c]|] eqn:Hfind; [|apply Hnone].
    rewrite now_ISO_run.
    edestruct (Hsave (tick w1)) as (b & w' & -> & Hr & Hq & Heff); [reflexivity..|].
    exists w'. split; [reflexivity|]. split; [exact Hr|]. split; [exact Hq | exact Heff].
  - cbn [changed]. unfold ConversationStorageManager.deleteConversation, bind.
    rewrite Hread. case_decide; [|apply Hnone].
    edestruct (Hsave w1) as (b & w' & -> & Hr & Hq & Heff); [reflexivity..|].
    exists w'. split; [reflexivity|]. split; [exact Hr|]. split; [exact Hq | exact Heff].
  - cbn [changed]. unfold ConversationStorageManager.cleanupOldConversations.
    rewrite (cleanup_run LocalConversation.createdAt rt w w1 d Hread). cbv zeta.
    destruct (0 <? _).
    + edestruct (Hsave (tick w1)) as (b & w' & Hs & Hr & Hq & Heff); [reflexivity..|].
      unfold ConversationStorageManager.saveData,
        ConversationStorageManager.with_conversations in Hs.
      rewrite Hs. exists w'. split; [reflexivity|]. split; [exact Hr|].
      split; [exact Hq | exact Heff].
    + exists (tick w1). split; [reflexivity|]. split; [exact Hreq|].
      split; [by intros _ | by left].
Qed.

Lemma addSession_run (rt : Runtime) (w w1 : World) (d : LocalSessionData)
    (session : SessionInput.t) :
  LocalStorageManager.readData rt w = Some (d, w1) →
  let newSession :=
    new_session session (randomUUID rt (uuids w1)) (toISOString rt (clock rt (dates w1))) in
  LocalStorageManager.addSession session rt w
  = match LocalStorageManager.saveData
            (LocalStorageManager.with_sessions d (take 1000 (newSession :: sessions d)))
            rt (drawn (tick w1)) with
    | Some (true, w') => Some (Some newSession, w')
    | Some (false, w') => Some (None, w')
    | None => None
    end.
Proof.
  intros Hread. cbv zeta.
  unfold LocalStorageManager.addSession, bind. rewrite Hread.
  rewrite now_ISO_run. unfold crypto_randomUUID.
  fold (new_session session (randomUUID rt (uuids w1))
          (toISOString rt (clock rt (dates w1)))).
  unfold LocalStorageManager.MAX_SESSIONS. rewrite slice_take_all.
  destruct (LocalStorageManager.saveData _ rt (drawn (tick w1))) as [[[|] w']|];
    reflexivity.
Qed.

Lemma perform_session_effect (rt : Runtime) (w w1 : World) (d : LocalSessionData)
    (op : session_operation) :
  LocalStorageManager.readData rt w = Some (d, w1) →
  ∃ w', perform_session op rt w = Some (tt, w')
        ∧ requests w' = requests w
        ∧ (quota_exceeded rt (setItem_calls w) = true → localStorage w' = localStorage w)
        ∧ left_or_wrote w w' d (changed_sessions rt w1 op (sessions d)).
Proof.
  intros Hread.
  destruct (readData_frame rt w w1 d Hread) as (Hst & Hcalls & Hreq & _).
  assert (∀ v l, localStorage v = localStorage w1 → setItem_calls v = setItem_calls w1 →
                 requests v = requests w1 →
            ∃ b w', LocalStorageManager.saveData
                      (LocalStorageManager.with_sessions d l) rt v = Some (b, w')
                    ∧ requests w' = requests w
                    ∧ (quota_exceeded rt (setItem_calls w) = true →
                         localStorage w' = localStorage w)
                    ∧ left_or_wrote w w' d l) as Hsave.
  { intros v l Hv Hc Hr.
    destruct (saveData_effect rt w v d l) as (b & w' & Hs & Hb & Hr' & Hfalse & Heff);
      [congruence|].
    exists b, w'. split; [exact Hs|]. split; [congruence|]. split; [|exact Heff].
    intros Hq. apply Hfalse. rewrite Hb, Hc, Hcalls, Hq. reflexivity. }
  assert (∀ l, ∃ w', Some (tt, w1) = Some (tt, w')
                ∧ requests w' = requests w
                ∧ (quota_exceeded rt (setItem_calls w) = true →
                     localStorage w' = localStorage w)
                ∧ left_or_wrote w w' d l) as Hnone.
  { intros l. exists w1. split; [reflexivity|]. split; [exact Hreq|]. split; [done | by left]. }
  assert (∀ sessionId updates,
            ∃ w', bind (LocalStorageManager.updateSession sessionId updates) (λ _, ret tt)
                    rt w = Some (tt, w')
                  ∧ requests w' = requests w
                  ∧ (quota_exceeded rt (setItem_calls w) = true →
                       localStorage w' = localStorage w)
                  ∧ left_or_wrote w w' d
                      (changed_sessions rt w1 (UpdateSession sessionId updates)
                         (sessions d))) as Hupdate.
  { intros sessionId updates. cbn [changed_sessions]. unfold bind.
    destruct (list_find (λ s, LocalSession.id s = sessionId) (sessions d))
      as [[i s]|] eqn:Hfind.
    - rewrite (updateSession_found rt w w1 d sessionId updates i s Hread Hfind).
      edestruct (Hsave (tick w1)) as (b & w' & -> & Hr & Hq & Heff); [reflexivity..|].
      exists w'. split; [reflexivity|]. split; [exact Hr|]. split; [exact Hq | exact Heff].
    - rewrite (updateSession_absent rt w w1 d sessionId updates Hread)
        by (by apply (proj1 (list_find_None _ _))).
      apply Hnone. }
  destruct op as [session | sessionId updates | sessionId | ].
  - unfold perform_session, bind. rewrite (addSession_run rt w w1 d session Hread).
    edestruct (Hsave (drawn (tick w1))) as (b & w' & -> & Hr & Hq & Heff);
      [reflexivity..|].
    exists w'. split; [by destruct b|]. split; [exact Hr|]. split; [exact Hq | exact Heff].
  - apply Hupdate.
  - apply (Hupdate sessionId synced_update).
  - unfold perform_session, bind. cbn [changed_sessions].
    unfold LocalStorageManager.cleanupOldData.
    rewrite (cleanup_run LocalSession.createdAt rt w w1 d Hread). cbv zeta.
    destruct (0 <? _).
    + edestruct (Hsave (tick w1)) as (b & w' & Hs & Hr & Hq & Heff); [reflexivity..|].
      unfold LocalStorageManager.saveData, LocalStorageManager.with_sessions in Hs.
      rewrite Hs. exists w'. split; [reflexivity|]. split; [exact Hr|].
      split; [exact Hq | exact Heff].
    + exists (tick w1). split; [reflexivity|]. split; [exact Hreq|].
      split; [by intros _ | by left].
Qed.

(** ** Invariants of the stored lists *)

Lemma perform_keeps (P : list LocalConversation.t → Prop) (rt : Runtime) (w w1 : World)
    (d : ConversationData) (op : operation) :
  ConversationStorageManager.readData rt w = Some (d, w1) →
  P (conversations d) →
  P (changed rt w1 op (conversations d)) →
  ∃ (w' w2 : World) (d' : ConversationData),
    perform op rt w = Some (tt, w')
    ∧ ConversationStorageManager.readData rt w' = Some (d', w2)
    ∧ P (conversations d').
Proof.
  intros Hread HP HP'.
  destruct (perform_effect rt w w1 d op Hread) as (w' & Hrun & _ & _ & Heff).
  destruct (left_or_wrote_reads P rt w w' d _ (ex_intro _ d (ex_intro _ w1 (conj Hread HP)))
              HP' Heff) as (d' & w2 & Hread' & HP'').
  by exists w', w2, d'.
Qed.

Lemma perform_session_keeps (P : list LocalSession.t → Prop) (rt : Runtime) (w w1 : World)
    (d : LocalSessionData) (op : session_operation) :
  LocalStorageManager.readData rt w = Some (d, w1) →
  P (sessions d) →
  P (changed_sessions rt w1 op (sessions d)) →
  ∃ (w' w2 : World) (d' : LocalSessionData),
    perform_session op rt w = Some (tt, w')
    ∧ LocalStorageManager.readData rt w' = Some (d', w2)
    ∧ P (sessions d').
Proof.
  intros Hread HP HP'.
  destruct (perform_session_effect rt w w1 d op Hread) as (w' & Hrun & _ & _ & Heff).
  destruct (left_or_wrote_reads P rt w w' d _ (ex_intro _ d (ex_intro _ w1 (conj Hread HP)))
              HP' Heff) as (d' & w2 & Hread' & HP'').
  by exists w', w2, d'.
Qed.

Lemma length_filter_filter {A} (P Q : A → Prop)
    `{!∀ x, Decision (P x), !∀ x, Decision (Q x)} (l : list A) :
  (length (filter P (filter Q l)) ≤ length (filter P l))%nat.
Proof.
  induction l as [|x l IH]; [reflexivity|].
  destruct (decide (Q x)), (decide (P x));
    rewrite ?(filter_cons_True Q), ?(filter_cons_False Q),
            ?(filter_cons_True P), ?(filter_cons_False P) by done;
    simpl; lia.
Qed.

Lemma filter_insert_same {A B} `{EqDecision B} (f : A → B) (b : B) (l : list A)
    (i : nat) (x y : A) :
  l !! i = Some x → f y = f x →
  length (filter (λ a, f a = b) (<[i := y]> l)) = length (filter (λ a, f a = b) l).
Proof.
  revert i. induction l as [|a l IH]; intros i Hi Hf; [done|].
  destruct i as [|i]; simpl in *.
  - injection Hi as ->.
    destruct (decide (f x = b)).
    + rewrite !filter_cons_True by congruence. reflexivity.
    + rewrite !filter_cons_False by congruence. reflexivity.
  - destruct (decide (f a = b)).
    + rewrite !filter_cons_True by done. simpl. f_equal. by apply IH.
    + rewrite !filter_cons_False by done. by apply IH.
Qed.

Lemma fmap_insert_same {A B} (f : A → B) (l : list A) (i : nat) (x y : A) :
  l !! i = Some x → f y = f x → f <$> <[i := y]> l = f <$> l.
Proof.
  intros Hi Hf. rewrite list_fmap_insert, Hf. apply list_insert_id.
  by rewrite list_lookup_fmap, Hi.
Qed.

Lemma limit_conversations_filter_length (P : LocalConversation.t → Prop)
    `{!∀ c, Decision (P c)} (userId : jsstring) (l : list LocalConversation.t) :
  (length (filter P (ConversationStorageManager.limit_conversations userId l))
   ≤ length (filter P l))%nat.
Proof.
  unfold ConversationStorageManager.limit_conversations. cbv zeta.
  case_decide; [apply length_filter_filter | reflexivity].
Qed.

Lemma push_message_within_cap (c : LocalConversation.t) (m : LocalMessage.t)
    (now : jsstring) :
  (length (LocalConversation.messages (ConversationStorageManager.push_message c m now))
   ≤ 100)%nat.
Proof.
  unfold ConversationStorageManager.push_message,
    ConversationStorageManager.MAX_MESSAGES_PER_CONVERSATION, slice_last.
  cbn [LocalConversation.messages].
  case_decide as Hlen; [rewrite length_drop|]; lia.
Qed.

Lemma changed_within_user_cap (rt : Runtime) (w1 : World) (op : operation)
    (l : list LocalConversation.t) :
  within_user_cap l → within_user_cap (changed rt w1 op l).
Proof.
  intros Hl u. destruct op as [userId initialMessage | conversationId message
                              | conversationId | conversationId | ]; cbn [changed].
  - destruct (decide (u = userId)) as [-> | Hne].
    + apply limit_conversations_count.
    + etrans; [apply limit_conversations_filter_length|].
      rewrite filter_cons_False by (simpl; congruence). apply Hl.
  - destruct (list_find _ l) as [[i c]|] eqn:Hfind; [|apply Hl].
    apply list_find_Some in Hfind as (Hi & _).
    rewrite (filter_insert_same LocalConversation.userId u l i c) by done. apply Hl.
  - destruct (list_find _ l) as [[i c]|] eqn:Hfind; [|apply Hl].
    apply list_find_Some in Hfind as (Hi & _).
    rewrite (filter_insert_same LocalConversation.userId u l i c) by done. apply Hl.
  - etrans; [apply length_filter_filter | apply Hl].
  - etrans; [apply length_filter_filter | apply Hl].
Qed.

Lemma within_message_cap_filter (Q : LocalConversation.t → Prop)
    `{!∀ c, Decision (Q c)} (l : list LocalConversation.t) :
  within_message_cap l → within_message_cap (filter Q l).
Proof.
  unfold within_message_cap. rewrite !Forall_forall.
  intros Hl c Hc. apply list_elem_of_filter in Hc as [_ Hc]. by apply Hl.
Qed.

Lemma changed_within_message_cap (rt : Runtime) (w1 : World) (op : operation)
    (l : list LocalConversation.t) :
  within_message_cap l → within_message_cap (changed rt w1 op l).
Proof.
  intros Hl. destruct op as [userId initialMessage | conversationId message
                            | conversationId | conversationId | ]; cbn [changed].
  - unfold ConversationStorageManager.limit_conversations. cbv zeta.
    assert (within_message_cap
              (ConversationStorageManager.new_conversation userId initialMessage
                 (randomUUID rt (uuids w1)) (toISOString rt (clock rt (dates w1))) :: l))
      as Hnew.
    { constructor; [|exact Hl]. destruct initialMessage; simpl; lia. }
    case_decide; [by apply within_message_cap_filter | exact Hnew].
  - destruct (list_find _ l) as [[i c]|] eqn:Hfind; [|exact Hl].
    apply Forall_insert; [exact Hl | apply push_message_within_cap].
  - destruct (list_find _ l) as [[i c]|] eqn:Hfind; [|exact Hl].
    apply list_find_Some in Hfind as (Hi & _).
    apply Forall_insert; [exact Hl|].
    exact (Forall_lookup_1 _ _ _ _ Hl Hi).
  - by apply within_message_cap_filter.
  - by apply within_message_cap_filter.
Qed.

Lemma ids_distinct_filter (Q : LocalConversation.t → Prop)
    `{!∀ c, Decision (Q c)} (l : list LocalConversation.t) :
  ids_distinct l → ids_distinct (filter Q l).
Proof.
  unfold ids_distinct. intros Hl.
  apply (sublist_NoDup _ (LocalConversation.id <$> l)); [exact Hl|].
  apply fmap_sublist, sublist_filter.
Qed.

Lemma changed_ids_distinct (rt : Runtime) (w1 : World) (op : operation)
    (l : list LocalConversation.t) :
  ids_distinct l → draws_fresh rt w1 op l → ids_distinct (changed rt w1 op l).
Proof.
  intros Hl Hfresh. destruct op as [userId initialMessage | conversationId message
                                   | conversationId | conversationId | ]; cbn [changed].
  - unfold ids_distinct.
    apply (sublist_NoDup _
             (LocalConversation.id <$>
                ConversationStorageManager.new_conversation userId initialMessage
                  (randomUUID rt (uuids w1)) (toISOString rt (clock rt (dates w1))) :: l)).
    + rewrite fmap_cons. apply NoDup_cons. split; [exact Hfresh | exact Hl].
    + apply fmap_sublist, limit_conversations_sublist.
  - destruct (list_find _ l) as [[i c]|] eqn:Hfind; [|exact Hl].
    apply list_find_Some in Hfind as (Hi & _). unfold ids_distinct.
    by rewrite (fmap_insert_same LocalConversation.id l i c).
  - destruct (list_find _ l) as [[i c]|] eqn:Hfind; [|exact Hl].
    apply list_find_Some in Hfind as (Hi & _). unfold ids_distinct.
    by rewrite (fmap_insert_same LocalConversation.id l i c).
  - by apply ids_distinct_filter.
  - by apply ids_distinct_filter.
Qed.

(** X1. The caps are invariants of the conversation manager: if, in the
    document read before an operation, no user has more than 50
    conversations and no conversation more than 100 messages, the same
    holds of the document read after it. *)
Theorem caps_invariant (rt : Runtime) (w w1 : World) (d : ConversationData)
    (op : operation) :
  ConversationStorageManager.readData rt w = Some (d, w1) →
  within_user_cap (conversations d) →
  within_message_cap (conversations d) →
  ∃ (w' w2 : World) (d' : ConversationData),
    perform op rt w = Some (tt, w')
    ∧ ConversationStorageManager.readData rt w' = Some (d', w2)
    ∧ within_user_cap (conversations d')
    ∧ within_message_cap (conversations d').
Proof.
  intros Hread Huser Hmsg.
  destruct (perform_keeps (λ l, within_user_cap l ∧ within_message_cap l) rt w w1 d op Hread)
    as (w' & w2 & d' & Hrun & Hread' & Huser' & Hmsg').
  - by split.
  - split; [by apply changed_within_user_cap | by apply changed_within_message_cap].
  - by exists w', w2, d'.
Qed.

Lemma caps_invariant_witness :
  ∃ (w' w2 : World) (d' : ConversationData),
    perform (CreateConversation (js "user-1") (Some sample_message))
      sample_runtime crowded_world = Some (tt, w')
    ∧ ConversationStorageManager.readData sample_runtime w' = Some (d', w2)
    ∧ within_user_cap (conversations d')
    ∧ within_message_cap (conversations d').
Proof.
  apply (caps_invariant sample_runtime crowded_world crowded_world crowded_conversations).
  - vm_compute. reflexivity.
  - intros u. destruct (decide (u = js "user-1")) as [-> | Hu].
    + vm_compute. lia.
    + destruct (decide (u = js "user-2")) as [-> | Hu2].
      * vm_compute. lia.
      * rewrite filter_none; [simpl; lia|].
        apply Forall_forall. intros c Hc Howner. apply list_elem_of_In in Hc.
        unfold crowded_conversations in Hc. cbn [records] in Hc.
        apply in_app_or in Hc as [Hc | [<- | []]].
        -- apply in_map_iff in Hc as (n & <- & _). apply Hu. by rewrite <- Howner.
        -- apply Hu2. by rewrite <- Howner.
  - apply Forall_forall. intros c Hc. apply list_elem_of_In in Hc.
    unfold crowded_conversations in Hc. cbn [records] in Hc.
    apply in_app_or in Hc as [Hc | [<- | []]].
    + apply in_map_iff in Hc as (n & <- & _). simpl. lia.
    + simpl. lia.
Defined.

(** X2. The identifiers stay distinct: if the conversations of the
    document read before an operation have distinct identifiers, and the
    UUID drawn by [createConversation] is not among them, the
    conversations of the document read after it have distinct
    identifiers. *)
Theorem ids_distinct_invariant (rt : Runtime) (w w1 : World) (d : ConversationData)
    (op : operation) :
  ConversationStorageManager.readData rt w = Some (d, w1) →
  ids_distinct (conversations d) →
  draws_fresh rt w1 op (conversations d) →
  ∃ (w' w2 : World) (d' : ConversationData),
    perform op rt w = Some (tt, w')
    ∧ ConversationStorageManager.readData rt w' = Some (d', w2)
    ∧ ids_distinct (conversations d').
Proof.
  intros Hread Hids Hfresh.
  apply (perform_keeps ids_distinct rt w w1 d op Hread Hids).
  by apply changed_ids_distinct.
Qed.

Lemma ids_distinct_invariant_witness :
  ∃ (w' w2 : World) (d' : ConversationData),
    perform (CreateConversation (js "user-1") None) sample_runtime sample_world
    = Some (tt, w')
    ∧ ConversationStorageManager.readData sample_runtime w' = Some (d', w2)
    ∧ ids_distinct (conversations d').
Proof.
  apply (ids_distinct_invariant sample_runtime sample_world sample_world
           sample_conversations).
  - vm_compute. reflexivity.
  - apply (bool_decide_unpack _). vm_compute. exact I.
  - apply (bool_decide_unpack _). vm_compute. exact I.
Defined.

(** X3. The cap of the sessions is an invariant of the session manager:
    no operation takes a stored list of at most 1000 sessions beyond
    that. *)
Theorem session_cap_invariant (rt : Runtime) (w w1 : World) (d : LocalSessionData)
    (op : session_operation) :
  LocalStorageManager.readData rt w = Some (d, w1) →
  within_session_cap (sessions d) →
  ∃ (w' w2 : World) (d' : LocalSessionData),
    perform_session op rt w = Some (tt, w')
    ∧ LocalStorageManager.readData rt w' = Some (d', w2)
    ∧ within_session_cap (sessions d').
Proof.
  intros Hread Hcap.
  apply (perform_session_keeps within_session_cap rt w w1 d op Hread Hcap).
  unfold within_session_cap in *.
  destruct op as [session | sessionId updates | sessionId | ]; cbn [changed_sessions].
  - rewrite length_take. lia.
  - destruct (list_find _ _) as [[i s]|]; [by rewrite length_insert | exact Hcap].
  - destruct (list_find _ _) as [[i s]|]; [by rewrite length_insert | exact Hcap].
  - etrans; [apply length_filter | exact Hcap].
Qed.

Lemma session_cap_invariant_witness :
  ∃ (w' w2 : World) (d' : LocalSessionData),
    perform_session (MarkSessionSynced (js "s1")) sample_runtime sample_world
    = Some (tt, w')
    ∧ LocalStorageManager.readData sample_runtime w' = Some (d', w2)
    ∧ within_session_cap (sessions d').
Proof.
  apply (session_cap_invariant sample_runtime sample_world sample_world sample_sessions).
  - vm_compute. reflexivity.
  - vm_compute. lia.
Defined.

(** ** Each manager keeps to its key *)

Lemma conversation_key_not_sessions : js "sarha_user_sessions" ≠ js "sarha_conversations".
Proof. by vm_compute. Qed.

(** X4. An operation of one manager leaves every other key of
    [localStorage] as it was; a document of the other manager that the
    store holds is still held afterwards. *)
Theorem managers_keep_to_their_keys (rt : Runtime) (w w1 : World) :
  (∀ (d : ConversationData) (op : operation),
     ConversationStorageManager.readData rt w = Some (d, w1) →
     ∃ w', perform op rt w = Some (tt, w')
           ∧ (∀ key, key ≠ js "sarha_conversations" →
                     localStorage w' !! key = localStorage w !! key)
           ∧ (∀ ds : LocalSessionData, holds w ds → holds w' ds))
  ∧
  (∀ (d : LocalSessionData) (op : session_operation),
     LocalStorageManager.readData rt w = Some (d, w1) →
     ∃ w', perform_session op rt w = Some (tt, w')
           ∧ (∀ key, key ≠ js "sarha_user_sessions" →
                     localStorage w' !! key = localStorage w !! key)
           ∧ (∀ dc : ConversationData, holds w dc → holds w' dc)).
Proof.
  split; intros d op Hread.
  - destruct (perform_effect rt w w1 d op Hread) as (w' & Hrun & _ & _ & Heff).
    assert (∀ key, key ≠ js "sarha_conversations" →
                   localStorage w' !! key = localStorage w !! key) as Hkeys
      by (intros key Hkey;
          exact (left_or_wrote_other_key (R := LocalConversation.t) w w' d _ key Hkey Heff)).
    exists w'. split; [exact Hrun|]. split; [exact Hkeys|].
    intros ds [Hst Hv]. split; [|exact Hv].
    rewrite <- Hst. apply Hkeys, conversation_key_not_sessions.
  - destruct (perform_session_effect rt w w1 d op Hread) as (w' & Hrun & _ & _ & Heff).
    assert (∀ key, key ≠ js "sarha_user_sessions" →
                   localStorage w' !! key = localStorage w !! key) as Hkeys
      by (intros key Hkey;
          exact (left_or_wrote_other_key (R := LocalSession.t) w w' d _ key Hkey Heff)).
    exists w'. split; [exact Hrun|]. split; [exact Hkeys|].
    intros dc [Hst Hv]. split; [|exact Hv].
    rewrite <- Hst. apply Hkeys. intros E. by apply conversation_key_not_sessions.
Qed.

Lemma managers_keep_to_their_keys_witness :
  ∃ w', perform (DeleteConversation (js "c1")) sample_runtime sample_world = Some (tt, w')
        ∧ holds w' sample_sessions.
Proof.
  destruct (proj1 (managers_keep_to_their_keys sample_runtime sample_world sample_world)
              sample_conversations (DeleteConversation (js "c1")))
    as (w' & Hrun & _ & Hheld).
  - vm_compute. reflexivity.
  - exists w'. split; [exact Hrun|]. apply Hheld. split; reflexivity.
Defined.

(** ** A refused write *)

(** X5. When [setItem] throws, the operation that wanted to write returns
    its failure value, [null] for [createConversation] and [addSession]
    and [false] for the others, and the store is as it was. *)
Theorem refused_write_changes_nothing (rt : Runtime) (w w1 : World) :
  quota_exceeded rt (setItem_calls w) = true →
  (∀ d : ConversationData,
     ConversationStorageManager.readData rt w = Some (d, w1) →
     (∀ userId initialMessage,
        ∃ w', ConversationStorageManager.createConversation userId initialMessage rt w
              = Some (None, w') ∧ localStorage w' = localStorage w)
     ∧ (∀ conversationId message,
          ∃ w', ConversationStorageManager.addMessage conversationId message rt w
                = Some (false, w') ∧ localStorage w' = localStorage w)
     ∧ (∀ conversationId,
          ∃ w', ConversationStorageManager.markSynced conversationId rt w
                = Some (false, w') ∧ localStorage w' = localStorage w)
     ∧ (∀ conversationId,
          ∃ w', ConversationStorageManager.deleteConversation conversationId rt w
                = Some (false, w') ∧ localStorage w' = localStorage w))
  ∧
  (∀ d : LocalSessionData,
     LocalStorageManager.readData rt w = Some (d, w1) →
     (∀ session,
        ∃ w', LocalStorageManager.addSession session rt w = Some (None, w')
              ∧ localStorage w' = localStorage w)
     ∧ (∀ sessionId updates,
          ∃ w', LocalStorageManager.updateSession sessionId updates rt w
                = Some (false, w') ∧ localStorage w' = localStorage w)).
Proof.
  intros Hq. split; intros d Hread;
    destruct (readData_frame rt w w1 d Hread) as (Hst & Hcalls & _).
  - assert (∀ v (d0 : ConversationData),
              setItem_calls v = setItem_calls w1 →
              ConversationStorageManager.saveData d0 rt v = Some (false, refused (tick v)))
      as Hsave.
    { intros v d0 Hv. apply saveData_refused. by rewrite Hv, Hcalls. }
    split; [|split; [|split]].
    + intros userId initialMessage.
      rewrite (createConversation_run rt w w1 d userId initialMessage Hread). cbv zeta.
      rewrite Hsave by reflexivity. eexists. split; [reflexivity | exact Hst].
    + intros conversationId message.
      destruct (list_find (λ c, LocalConversation.id c = conversationId) (conversations d))
        as [[i c]|] eqn:Hfind.
      * rewrite (addMessage_found rt w w1 d conversationId message i c Hread Hfind).
        rewrite Hsave by reflexivity. eexists. split; [reflexivity | exact Hst].
      * exists w1. split; [|exact Hst].
        unfold ConversationStorageManager.addMessage, bind. by rewrite Hread, Hfind.
    + intros conversationId.
      unfold ConversationStorageManager.markSynced, bind. rewrite Hread.
      destruct (list_find (λ c, LocalConversation.id c = conversationId) (conversations d))
        as [[i c]|] eqn:Hfind.
      * rewrite now_ISO_run, Hsave by reflexivity.
        eexists. split; [reflexivity | exact Hst].
      * exists w1. by split.
    + intros conversationId.
      unfold ConversationStorageManager.deleteConversation, bind. rewrite Hread.
      case_decide.
      * rewrite Hsave by reflexivity. eexists. split; [reflexivity | exact Hst].
      * exists w1. by split.
  - assert (∀ v (d0 : LocalSessionData),
              setItem_calls v = setItem_calls w1 →
              LocalStorageManager.saveData d0 rt v = Some (false, refused (tick v)))
      as Hsave.
    { intros v d0 Hv. apply saveData_refused. by rewrite Hv, Hcalls. }
    split.
    + intros session. rewrite (addSession_run rt w w1 d session Hread). cbv zeta.
      rewrite Hsave by reflexivity. eexists. split; [reflexivity | exact Hst].
    + intros sessionId updates.
      destruct (list_find (λ s, LocalSession.id s = sessionId) (sessions d))
        as [[i s]|] eqn:Hfind.
      * rewrite (updateSession_found rt w w1 d sessionId updates i s Hread Hfind).
        rewrite Hsave by reflexivity. eexists. split; [reflexivity | exact Hst].
      * exists w1. split; [|exact Hst].
        apply (updateSession_absent rt w w1 d sessionId updates Hread).
        by apply (proj1 (list_find_None _ _)).
Qed.

Lemma refused_write_changes_nothing_witness :
  (∃ w', ConversationStorageManager.createConversation (js "user-1") None
           full_runtime sample_world = Some (None, w')
         ∧ localStorage w' = localStorage sample_world)
  ∧ (∃ w', LocalStorageManager.updateSession (js "s1") synced_update
             full_runtime sample_world = Some (false, w')
           ∧ localStorage w' = localStorage sample_world).
Proof.
  destruct (refused_write_changes_nothing full_runtime sample_world sample_world eq_refl)
    as [Hc Hs].
  split.
  - apply (Hc sample_conversations). vm_compute. reflexivity.
  - apply (Hs sample_sessions). vm_compute. reflexivity.
Defined.

(** ** clearAll *)

Section ClearAll.
Context {R : Type} `{SchemaLaws R}.

End ClearAll.


(** ** addSession *)

(** X7. When the write is accepted, [addSession] returns the session it
    built, unsynced and with the fields it was given, and stores it in
    front of the first 999 of the sessions read: at most 1000 sessions,
    the newest first. [getAllSessions] then returns that list and
    [getUserSessions] of the user starts with the new session. *)
Theorem addSession_keeps_newest (rt : Runtime) (w w1 : World) (d : LocalSessionData)
    (session : SessionInput.t) :
  LocalStorageManager.readData rt w = Some (d, w1) →
  quota_exceeded rt (setItem_calls w) = false →
  let now := toISOString rt (clock rt (dates w1)) in
  let created := new_session session (randomUUID rt (uuids w1)) now in
  ∃ (w' : World) (d' : LocalSessionData),
    LocalStorageManager.addSession session rt w = Some (Some created, w')
    ∧ holds w' d'
    ∧ sessions d' = created :: take 999 (sessions d)
    ∧ (length (sessions d') ≤ 1000)%nat
    ∧ ((999 ≤ length (sessions d))%nat → length (sessions d') = 1000%nat)
    ∧ LocalSession.synced created = false
    ∧ LocalSession.userId created = SessionInput.userId session
    ∧ LocalSession.createdAt created = now
    ∧ LocalStorageManager.getAllSessions rt w' = Some (sessions d', w')
    ∧ LocalStorageManager.getUserSessions (SessionInput.userId session) rt w'
      = Some (created :: filter (λ s, LocalSession.userId s = SessionInput.userId session)
                                (take 999 (sessions d)), w').
Proof.
  intros Hread Hq. cbv zeta.
  destruct (readData_frame rt w w1 d Hread) as (_ & Hcalls & _).
  set (created := new_session session (randomUUID rt (uuids w1))
                    (toISOString rt (clock rt (dates w1)))).
  destruct (saveData_accepted rt (drawn (tick w1))
              (LocalStorageManager.with_sessions d (take 1000 (created :: sessions d))))
    as (w' & Hsave & Hholds & _).
  { simpl. by rewrite Hcalls. }
  pose proof (readData_holds rt w' _ Hholds) as Hread'.
  exists w'. eexists.
  split. { rewrite (addSession_run rt w w1 d session Hread). fold created.
           unfold LocalStorageManager.saveData. by rewrite Hsave. }
  split; [exact Hholds|]. split; [reflexivity|].
  split; [simpl; rewrite length_take; lia|].
  split; [intros Hlen; simpl; rewrite length_take; lia|].
  split; [reflexivity|]. split; [reflexivity|]. split; [reflexivity|].
  split.
  - unfold LocalStorageManager.getAllSessions, bind, LocalStorageManager.readData.
    by rewrite Hread'.
  - unfold LocalStorageManager.getUserSessions, bind, LocalStorageManager.readData.
    rewrite Hread'. unfold ret. simpl. by rewrite filter_cons_True.
Qed.

Lemma addSession_keeps_newest_witness :
  ∃ (created : LocalSession.t) (w' : World) (d' : LocalSessionData),
    LocalStorageManager.addSession
      {| SessionInput.userId := js "user-1"; SessionInput.userAgent := js "Test";
         SessionInput.loginAt := stamp_of 1000; SessionInput.logoutAt := None;
         SessionInput.durationSeconds := None |} sample_runtime sample_world
    = Some (Some created, w')
    ∧ holds w' d'
    ∧ sessions d' = created :: sessions sample_sessions.
Proof.
  destruct (addSession_keeps_newest sample_runtime sample_world sample_world
              sample_sessions
              {| SessionInput.userId := js "user-1"; SessionInput.userAgent := js "Test";
                 SessionInput.loginAt := stamp_of 1000; SessionInput.logoutAt := None;
                 SessionInput.durationSeconds := None |})
    as (w' & d' & Hrun & Hholds & Hd' & _).
  - vm_compute. reflexivity.
  - reflexivity.
  - eexists _, w', d'. split; [exact Hrun|]. split; [exact Hholds | exact Hd'].
Defined.

(** ** Looking a conversation up *)

Lemma getConversation_holds (rt : Runtime) (w : World) (d : ConversationData)
    (conversationId : jsstring) :
  holds w d →
  ConversationStorageManager.getConversation conversationId rt w
  = Some (snd <$> list_find (λ c, LocalConversation.id c = conversationId)
                            (conversations d), w).
Proof.
  intros Hholds.
  unfold ConversationStorageManager.getConversation, bind,
    ConversationStorageManager.readData.
  by rewrite (readData_holds rt w d Hholds).
Qed.

Lemma list_find_filter_other {A B} `{EqDecision B} (f : A → B) (a b : B) (l : list A) :
  b ≠ a →
  snd <$> list_find (λ x, f x = b) (filter (λ x, f x ≠ a) l)
  = snd <$> list_find (λ x, f x = b) l.
Proof.
  intros Hne. induction l as [|x l IH]; [reflexivity|].
  destruct (decide (f x = a)) as [Ha | Ha].
  - rewrite filter_cons_False by (intros Hn; by apply Hn). rewrite IH.
    cbn [list_find]. rewrite decide_False by congruence.
    by destruct (list_find _ l) as [[? ?]|].
  - rewrite filter_cons_True by done. cbn [list_find].
    destruct (decide (f x = b)); [reflexivity|].
    destruct (list_find _ (filter _ l)) as [[? ?]|], (list_find _ l) as [[? ?]|];
      simpl in *; congruence.
Qed.

Lemma list_find_filter_gone {A B} `{EqDecision B} (f : A → B) (a : B) (l : list A) :
  list_find (λ x, f x = a) (filter (λ x, f x ≠ a) l) = None.
Proof.
  apply list_find_None, Forall_forall. intros x Hx.
  by apply list_elem_of_filter in Hx as [Hx _].
Qed.

(** X8. When [createConversation] drew an identifier that the document
    did not have and the write was accepted, [getConversation] of that
    identifier returns the conversation [createConversation] returned: of
    the user, not synced, with the first message, if any, as its only
    message and with a title exactly when that message is the user's. *)
Theorem createConversation_then_getConversation (rt : Runtime) (w w1 : World)
    (d : ConversationData) (userId : jsstring) (initialMessage : option LocalMessage.t) :
  ConversationStorageManager.readData rt w = Some (d, w1) →
  quota_exceeded rt (setItem_calls w) = false →
  randomUUID rt (uuids w1) ∉ LocalConversation.id <$> conversations d →
  let c := ConversationStorageManager.new_conversation userId initialMessage
             (randomUUID rt (uuids w1)) (toISOString rt (clock rt (dates w1))) in
  ∃ w' : World,
    ConversationStorageManager.createConversation userId initialMessage rt w
    = Some (Some c, w')
    ∧ ConversationStorageManager.getConversation (LocalConversation.id c) rt w'
      = Some (Some c, w')
    ∧ LocalConversation.userId c = userId
    ∧ LocalConversation.synced c = false
    ∧ LocalConversation.messages c = option_list initialMessage
    ∧ LocalConversation.messageCount c = Z.of_nat (length (option_list initialMessage))
    ∧ (is_Some (LocalConversation.title c)
       ↔ ∃ m, initialMessage = Some m ∧ LocalMessage.isUser m = true).
Proof.
  intros Hread Hq Hfresh c.
  destruct (readData_frame rt w w1 d Hread) as (_ & Hcalls & _).
  destruct (saveData_accepted rt (drawn (tick w1))
              (ConversationStorageManager.with_conversations d
                 (ConversationStorageManager.limit_conversations userId
                    (c :: conversations d))))
    as (w' & Hsave & Hholds & _).
  { simpl. by rewrite Hcalls. }
  exists w'.
  split. { rewrite (createConversation_run rt w w1 d userId initialMessage Hread).
           fold c. unfold ConversationStorageManager.saveData. by rewrite Hsave. }
  split.
  { rewrite (getConversation_holds rt w' _ _ Hholds). simpl.
    assert (∃ rest, ConversationStorageManager.limit_conversations userId
                      (c :: conversations d) = c :: rest) as [rest ->].
    { rewrite limit_conversations_unfold. case_decide; [|by eexists].
      rewrite filter_cons_True; [by eexists|].
      intros Hex. apply Exists_exists in Hex as (r & Hr & Hid).
      apply (excess_old userId c (conversations d) eq_refl) in Hr as [Hr _].
      apply Hfresh. change (randomUUID rt (uuids w1)) with (LocalConversation.id c).
      rewrite <- Hid. by apply list_elem_of_fmap_2. }
    cbn [list_find]. by rewrite decide_True. }
  split; [reflexivity|]. split; [reflexivity|].
  split; [by destruct initialMessage|]. split; [by destruct initialMessage|].
  destruct initialMessage as [m|]; simpl.
  - destruct (LocalMessage.isUser m) eqn:Hm.
    + split; [intros _; by exists m | by eexists].
    + split; [by intros [? ?] | intros (m' & [= <-] & ?); congruence].
  - split; [by intros [? ?] | by intros (m' & ? & _)].
Qed.

Lemma createConversation_then_getConversation_witness :
  ∃ (c : LocalConversation.t) (w' : World),
    ConversationStorageManager.createConversation (js "user-1") (Some sample_message)
      sample_runtime crowded_world = Some (Some c, w')
    ∧ ConversationStorageManager.getConversation (LocalConversation.id c)
        sample_runtime w' = Some (Some c, w')
    ∧ LocalConversation.title c = Some (js "Hola").
Proof.
  destruct (createConversation_then_getConversation sample_runtime crowded_world
              crowded_world crowded_conversations (js "user-1") (Some sample_message))
    as (w' & Hrun & Hget & _).
  - vm_compute. reflexivity.
  - reflexivity.
  - apply (bool_decide_unpack _). vm_compute. exact I.
  - eexists _, w'. split; [exact Hrun|]. split; [exact Hget | reflexivity].
Defined.

(** ** deleteConversation *)

Lemma getConversation_read (rt : Runtime) (w w1 : World) (d : ConversationData)
    (conversationId : jsstring) :
  ConversationStorageManager.readData rt w = Some (d, w1) →
  ConversationStorageManager.getConversation conversationId rt w
  = Some (snd <$> list_find (λ c, LocalConversation.id c = conversationId)
                            (conversations d), w1).
Proof.
  intros Hread. unfold ConversationStorageManager.getConversation, bind.
  by rewrite Hread.
Qed.

(** X9. When the document read has a conversation with the identifier
    and the write is accepted, [deleteConversation] returns [true] and
    the store then holds the other conversations, in their order:
    [getConversation] of the identifier returns [null], and of any other
    identifier what it returned before. *)
Theorem deleteConversation_removes_it (rt : Runtime) (w w1 : World)
    (d : ConversationData) (conversationId : jsstring) :
  ConversationStorageManager.readData rt w = Some (d, w1) →
  (∃ c, c ∈ conversations d ∧ LocalConversation.id c = conversationId) →
  quota_exceeded rt (setItem_calls w) = false →
  ∃ (w' : World) (d' : ConversationData),
    ConversationStorageManager.deleteConversation conversationId rt w = Some (true, w')
    ∧ holds w' d'
    ∧ conversations d'
      = filter (λ c, LocalConversation.id c ≠ conversationId) (conversations d)
    ∧ ConversationStorageManager.getConversation conversationId rt w' = Some (None, w')
    ∧ (∀ other, other ≠ conversationId →
         ∃ found, ConversationStorageManager.getConversation other rt w = Some (found, w1)
                  ∧ ConversationStorageManager.getConversation other rt w'
                    = Some (found, w')).
Proof.
  intros Hread (c & Hc & Hid) Hq.
  destruct (readData_frame rt w w1 d Hread) as (_ & Hcalls & _).
  destruct (saveData_accepted rt w1
              (ConversationStorageManager.with_conversations d
                 (filter (λ c, LocalConversation.id c ≠ conversationId) (conversations d))))
    as (w' & Hsave & Hholds & _); [by rewrite Hcalls|].
  exists w'. eexists.
  split.
  { unfold ConversationStorageManager.deleteConversation, bind. rewrite Hread.
    rewrite decide_True; [exact Hsave|].
    apply (length_filter_lt _ _ c Hc). intros Hn. by apply Hn. }
  split; [exact Hholds|]. split; [reflexivity|].
  split.
  - rewrite (getConversation_holds rt w' _ _ Hholds). simpl.
    by rewrite (list_find_filter_gone LocalConversation.id).
  - intros other Hother. eexists. split; [by apply getConversation_read|].
    rewrite (getConversation_holds rt w' _ _ Hholds). simpl.
    by rewrite (list_find_filter_other LocalConversation.id).
Qed.

Lemma deleteConversation_removes_it_witness :
  ∃ (w' : World) (d' : ConversationData),
    ConversationStorageManager.deleteConversation (js "c1") sample_runtime sample_world
    = Some (true, w')
    ∧ holds w' d'
    ∧ conversations d' = [sample_conversation (js "c2") (js "user-2") true].
Proof.
  destruct (deleteConversation_removes_it sample_runtime sample_world sample_world
              sample_conversations (js "c1"))
    as (w' & d' & Hrun & Hholds & Hd' & _).
  - vm_compute. reflexivity.
  - exists (sample_conversation (js "c1") (js "user-1") true).
    split; [apply list_elem_of_In; by left | reflexivity].
  - reflexivity.
  - exists w', d'. split; [exact Hrun|]. split; [exact Hholds|]. by rewrite Hd'.
Defined.

(** X10. When no conversation of the document read has the identifier,
    [addMessage] and [deleteConversation] return [false] and
    [getConversation] returns [null]; none of them calls [setItem] and
    the store is as it was. *)
Theorem unknown_conversation (rt : Runtime) (w w1 : World) (d : ConversationData)
    (conversationId : jsstring) :
  ConversationStorageManager.readData rt w = Some (d, w1) →
  Forall (λ c, LocalConversation.id c ≠ conversationId) (conversations d) →
  (∀ message,
     ConversationStorageManager.addMessage conversationId message rt w = Some (false, w1))
  ∧ ConversationStorageManager.deleteConversation conversationId rt w = Some (false, w1)
  ∧ ConversationStorageManager.getConversation conversationId rt w = Some (None, w1)
  ∧ localStorage w1 = localStorage w
  ∧ setItem_calls w1 = setItem_calls w.
Proof.
  intros Hread Habsent.
  destruct (readData_frame rt w w1 d Hread) as (Hst & Hcalls & _).
  pose proof (proj2 (list_find_None _ _) Habsent) as Hfind.
  split; [|split; [|split; [|by split]]].
  - intros message. unfold ConversationStorageManager.addMessage, bind.
    by rewrite Hread, Hfind.
  - unfold ConversationStorageManager.deleteConversation, bind. rewrite Hread.
    rewrite filter_every by exact Habsent. rewrite decide_False by lia. reflexivity.
  - rewrite (getConversation_read rt w w1 d conversationId Hread). by rewrite Hfind.
Qed.

Lemma unknown_conversation_witness :
  ConversationStorageManager.deleteConversation (js "c9") sample_runtime sample_world
  = Some (false, sample_world)
  ∧ ConversationStorageManager.addMessage (js "c9") sample_input sample_runtime sample_world
    = Some (false, sample_world).
Proof.
  destruct (unknown_conversation sample_runtime sample_world sample_world
              sample_conversations (js "c9")) as (Hadd & Hdel & _).
  - vm_compute. reflexivity.
  - repeat constructor; by vm_compute.
  - split; [exact Hdel | apply Hadd].
Defined.

(** ** addMessage below the cap *)

(** X11. When the conversation found has fewer than 100 messages and the
    write is accepted, [addMessage] appends the message and nothing else
    changes in the list of messages: the count grows by one, the time of
    the last message is the timestamp of the new one, which is the one
    given or, if that is empty, the time of the call. The title is set
    from a message of the user when there was none or an empty one, and
    is kept otherwise. Identifier, user, creation time and synced flag
    are kept, and so are the other conversations. *)
Theorem addMessage_appends (rt : Runtime) (w w1 : World) (d : ConversationData)
    (conversationId : jsstring) (message : MessageInput.t)
    (i : nat) (c : LocalConversation.t) :
  ConversationStorageManager.readData rt w = Some (d, w1) →
  list_find (λ c, LocalConversation.id c = conversationId) (conversations d) = Some (i, c) →
  (length (LocalConversation.messages c) < 100)%nat →
  quota_exceeded rt (setItem_calls w) = false →
  let now := toISOString rt (clock rt (dates w1)) in
  let newMessage :=
    ConversationStorageManager.new_message message (randomUUID rt (uuids w1))
      conversationId now in
  ∃ (w' : World) (d' : ConversationData) (c' : LocalConversation.t),
    ConversationStorageManager.addMessage conversationId message rt w = Some (true, w')
    ∧ holds w' d'
    ∧ conversations d' = <[i := c']> (conversations d)
    ∧ LocalConversation.messages c' = LocalConversation.messages c ++ [newMessage]
    ∧ LocalConversation.messageCount c'
      = Z.of_nat (length (LocalConversation.messages c)) + 1
    ∧ LocalConversation.lastMessageAt c' = LocalMessage.timestamp newMessage
    ∧ LocalMessage.timestamp newMessage
      = (if decide (MessageInput.timestamp message = []) then now
         else MessageInput.timestamp message)
    ∧ LocalConversation.updatedAt c' = now
    ∧ (no_title (LocalConversation.title c) = true → MessageInput.isUser message = true →
       LocalConversation.title c' = Some (generateTitle (MessageInput.text message)))
    ∧ (no_title (LocalConversation.title c) = false ∨ MessageInput.isUser message = false →
       LocalConversation.title c' = LocalConversation.title c)
    ∧ LocalConversation.id c' = LocalConversation.id c
    ∧ LocalConversation.userId c' = LocalConversation.userId c
    ∧ LocalConversation.createdAt c' = LocalConversation.createdAt c
    ∧ LocalConversation.synced c' = LocalConversation.synced c.
Proof.
  intros Hread Hfind Hlen Hq. cbv zeta.
  destruct (readData_frame rt w w1 d Hread) as (_ & Hcalls & _).
  set (now := toISOString rt (clock rt (dates w1))).
  set (newMessage := ConversationStorageManager.new_message message
                       (randomUUID rt (uuids w1)) conversationId now).
  set (c' := ConversationStorageManager.push_message c newMessage now).
  destruct (saveData_accepted rt (drawn (tick w1))
              (ConversationStorageManager.with_conversations d
                 (<[i := c']> (conversations d))))
    as (w' & Hsave & Hholds & _).
  { simpl. by rewrite Hcalls. }
  assert (LocalConversation.messages c' = LocalConversation.messages c ++ [newMessage])
    as Hms by (by apply push_message_below_cap).
  exists w'. eexists. exists c'.
  split. { rewrite (addMessage_found rt w w1 d conversationId message i c Hread Hfind).
           exact Hsave. }
  split; [exact Hholds|]. split; [reflexivity|]. split; [exact Hms|].
  split. { unfold c'. rewrite push_message_count. fold c'.
           rewrite Hms, length_app. simpl. lia. }
  split; [reflexivity|].
  split. { simpl. by destruct (MessageInput.timestamp message). }
  split; [reflexivity|].
  split. { intros Hno Huser. simpl. by rewrite Hno, Huser. }
  split. { intros [Hno | Huser]; simpl; rewrite ?Hno, ?Huser;
             [reflexivity | by rewrite andb_false_r]. }
  by repeat split.
Qed.

Lemma addMessage_appends_witness :
  ∃ (w' : World) (d' : ConversationData) (c' : LocalConversation.t),
    ConversationStorageManager.addMessage (js "c2") sample_input sample_runtime sample_world
    = Some (true, w')
    ∧ holds w' d'
    ∧ conversations d' !! 1%nat = Some c'
    ∧ LocalConversation.messageCount c' = 2
    ∧ LocalConversation.title c' = Some (js "Hola")
    ∧ LocalConversation.lastMessageAt c' = stamp_of 1000.
Proof.
  destruct (addMessage_appends sample_runtime sample_world sample_world
              sample_conversations (js "c2") sample_input 1
              (sample_conversation (js "c2") (js "user-2") true))
    as (w' & d' & c' & Hrun & Hholds & Hd' & _ & Hcount & Hlast & Hts & _ & _ & Htitle & _).
  - vm_compute. reflexivity.
  - vm_compute. reflexivity.
  - vm_compute. lia.
  - reflexivity.
  - exists w', d', c'. split; [exact Hrun|]. split; [exact Hholds|].
    split; [by rewrite Hd'|]. split; [exact Hcount|].
    split; [apply Htitle; by left|]. by rewrite Hlast, Hts.
Defined.

(** ** The synchronisations *)

Lemma session_markSynced_total (rt : Runtime) (w : World) (sessionId : jsstring) :
  readable LocalSession.t rt w →
  ∃ b w', LocalStorageManager.markSynced sessionId rt w = Some (b, w')
          ∧ requests w' = requests w
          ∧ readable LocalSession.t rt w'.
Proof.
  intros (d & w1 & Hread & _).
  destruct (perform_session_effect rt w w1 d (MarkSessionSynced sessionId) Hread)
    as (w' & Hrun & Hreq & _ & Heff).
  unfold perform_session, bind in Hrun.
  destruct (LocalStorageManager.markSynced sessionId rt w) as [[b v]|]; [|done].
  injection Hrun as ->. exists b, w'. split; [reflexivity|]. split; [exact Hreq|].
  refine (left_or_wrote_reads (λ _, True) rt w w' d _ _ I Heff). by exists d, w1.
Qed.

Lemma conversation_markSynced_total (rt : Runtime) (w : World) (conversationId : jsstring) :
  readable LocalConversation.t rt w →
  ∃ b w', ConversationStorageManager.markSynced conversationId rt w = Some (b, w')
          ∧ requests w' = requests w
          ∧ readable LocalConversation.t rt w'.
Proof.
  intros (d & w1 & Hread & _).
  destruct (perform_effect rt w w1 d (MarkSynced conversationId) Hread)
    as (w' & Hrun & Hreq & _ & Heff).
  unfold perform, bind in Hrun.
  destruct (ConversationStorageManager.markSynced conversationId rt w) as [[b v]|]; [|done].
  injection Hrun as ->. exists b, w'. split; [reflexivity|]. split; [exact Hreq|].
  refine (left_or_wrote_reads (λ _, True) rt w w' d _ _ I Heff). by exists d, w1.
Qed.

Lemma readable_sent {R : Type} `{SchemaLaws R} (rt : Runtime) (w : World) (r : request) :
  readable R rt w → readable R rt (sent r w).
Proof. intros Hw. by apply (reads_with_same_store (λ _, True) rt w). Qed.

Lemma sync_messages_run (rt : Runtime) (ms : list LocalMessage.t) (w : World) :
  ∃ w', sync_messages ms rt w = Some (tt, w')
        ∧ localStorage w' = localStorage w
        ∧ setItem_calls w' = setItem_calls w
        ∧ requests w'
          = requests w
            ++ map (λ m, {| table := js "conversation_messages"; row := message_row m |}) ms.
Proof.
  revert w. induction ms as [|m ms IH]; intros w.
  - exists w. simpl. by rewrite app_nil_r.
  - destruct (IH (sent {| table := js "conversation_messages"; row := message_row m |} w))
      as (w' & Hrun & Hst & Hcalls & Hreq).
    exists w'. split; [exact Hrun|]. split; [exact Hst|]. split; [exact Hcalls|].
    rewrite Hreq. simpl. by rewrite <- app_assoc.
Qed.

Lemma sync_sessions_counts (rt : Runtime) (ss : list LocalSession.t) :
  ∀ (syncedCount0 failedCount0 : Z) (w : World),
    readable LocalSession.t rt w →
    ∃ counts w', sync_sessions ss syncedCount0 failedCount0 rt w = Some (counts, w')
      ∧ syncedCount counts + failedCount counts
        = syncedCount0 + failedCount0 + Z.of_nat (length ss)
      ∧ syncedCount0 ≤ syncedCount counts ∧ failedCount0 ≤ failedCount counts
      ∧ requests w' = requests w ++ map session_request ss.
Proof.
  induction ss as [|s ss IH]; intros sc fc w Hw.
  - eexists _, w. split; [reflexivity|]. simpl. rewrite app_nil_r. repeat split; lia.
  - cbn [sync_sessions]. unfold bind at 1. unfold supabase_insert at 1.
    fold (session_request s).
    pose proof (readable_sent rt w (session_request s) Hw) as Hsent.
    assert (∀ sc' fc' v, readable LocalSession.t rt v →
              requests v = requests w ++ [session_request s] →
              sc' + fc' = sc + fc + 1 → sc ≤ sc' → fc ≤ fc' →
              ∃ counts w', sync_sessions ss sc' fc' rt v = Some (counts, w')
                ∧ syncedCount counts + failedCount counts
                  = sc + fc + Z.of_nat (length (s :: ss))
                ∧ sc ≤ syncedCount counts ∧ fc ≤ failedCount counts
                ∧ requests w' = requests w ++ map session_request (s :: ss)) as Hrest.
    { intros sc' fc' v Hv Hreq Hsum Hsc Hfc.
      destruct (IH sc' fc' v Hv) as (counts & w' & Hrun & Hs & Hs1 & Hs2 & Hr).
      exists counts, w'. split; [exact Hrun|].
      rewrite Hr, Hreq, <- app_assoc. simpl length. repeat split; lia. }
    assert (∀ sc', sc' = sc + 1 →
              ∃ counts w',
                bind (LocalStorageManager.markSynced (LocalSession.id s))
                     (λ _, sync_sessions ss sc' fc) rt (sent (session_request s) w)
                = Some (counts, w')
                ∧ syncedCount counts + failedCount counts
                  = sc + fc + Z.of_nat (length (s :: ss))
                ∧ sc ≤ syncedCount counts ∧ fc ≤ failedCount counts
                ∧ requests w' = requests w ++ map session_request (s :: ss)) as Hmark.
    { intros sc' ->. unfold bind.
      destruct (session_markSynced_total rt _ (LocalSession.id s) Hsent)
        as (b & v & -> & Hreq & Hv).
      apply Hrest; [exact Hv | by rewrite Hreq | lia..]. }
    destruct (remote rt (length (requests w))) as [|code message|].
    + by apply Hmark.
    + destruct (table_not_found code message); [by apply Hmark|].
      apply Hrest; [exact Hsent | reflexivity | lia..].
    + apply Hrest; [exact Hsent | reflexivity | lia..].
Qed.

Lemma sync_conversations_counts (rt : Runtime) (cs : list LocalConversation.t) :
  ∀ (syncedCount0 failedCount0 : Z) (w : World),
    readable LocalConversation.t rt w →
    ∃ counts w', sync_conversations cs syncedCount0 failedCount0 rt w = Some (counts, w')
      ∧ syncedCount counts + failedCount counts
        = syncedCount0 + failedCount0 + Z.of_nat (length cs)
      ∧ syncedCount0 ≤ syncedCount counts ∧ failedCount0 ≤ failedCount counts
      ∧ (length (requests w) + length cs ≤ length (requests w'))%nat.
Proof.
  induction cs as [|c cs IH]; intros sc fc w Hw.
  - eexists _, w. split; [reflexivity|]. simpl. repeat split; lia.
  - cbn [sync_conversations]. unfold bind at 1. unfold supabase_insert at 1.
    fold (conversation_request c).
    pose proof (readable_sent rt w (conversation_request c) Hw) as Hsent.
    assert (∀ sc' fc' v, readable LocalConversation.t rt v →
              (length (requests w) + 1 ≤ length (requests v))%nat →
              sc' + fc' = sc + fc + 1 → sc ≤ sc' → fc ≤ fc' →
              ∃ counts w', sync_conversations cs sc' fc' rt v = Some (counts, w')
                ∧ syncedCount counts + failedCount counts
                  = sc + fc + Z.of_nat (length (c :: cs))
                ∧ sc ≤ syncedCount counts ∧ fc ≤ failedCount counts
                ∧ (length (requests w) + length (c :: cs) ≤ length (requests w'))%nat)
      as Hrest.
    { intros sc' fc' v Hv Hreq Hsum Hsc Hfc.
      destruct (IH sc' fc' v Hv) as (counts & w' & Hrun & Hs & Hs1 & Hs2 & Hr).
      exists counts, w'. split; [exact Hrun|]. simpl length. repeat split; lia. }
    assert (∀ v, readable LocalConversation.t rt v →
              (length (requests w) + 1 ≤ length (requests v))%nat →
              ∃ counts w',
                bind (ConversationStorageManager.markSynced (LocalConversation.id c))
                     (λ _, sync_conversations cs (sc + 1) fc) rt v
                = Some (counts, w')
                ∧ syncedCount counts + failedCount counts
                  = sc + fc + Z.of_nat (length (c :: cs))
                ∧ sc ≤ syncedCount counts ∧ fc ≤ failedCount counts
                ∧ (length (requests w) + length (c :: cs) ≤ length (requests w'))%nat)
      as Hmark.
    { intros v Hv Hlen. unfold bind.
      destruct (conversation_markSynced_total rt v (LocalConversation.id c) Hv)
        as (b & v' & -> & Hreq & Hv').
      apply Hrest; [exact Hv' | by rewrite Hreq | lia..]. }
    assert (length (requests (sent (conversation_request c) w))
            = (length (requests w) + 1)%nat) as Hone
      by (simpl; by rewrite length_app).
    destruct (remote rt (length (requests w))) as [|code message|].
    + unfold bind at 1.
      destruct (sync_messages_run rt (LocalConversation.messages c)
                  (sent (conversation_request c) w)) as (v & -> & Hst & _ & Hreq).
      apply Hmark.
      * apply (reads_with_same_store (λ _, True) rt (sent (conversation_request c) w));
          [exact Hsent | exact Hst].
      * rewrite Hreq, length_app. lia.
    + destruct (table_not_found code message).
      * apply Hmark; [exact Hsent | lia].
      * apply Hrest; [exact Hsent | lia..].
    + apply Hrest; [exact Hsent | lia..].
Qed.

(** X12. [syncLocalSessionsToDB] returns with [success] true and counts
    of synced and failed sessions that add up to the number of unsynced
    sessions of the document read. It sends one insert into
    "user_sessions" per unsynced session, in their stored order, and no
    other request. *)
Theorem syncLocalSessionsToDB_counts (rt : Runtime) (w w1 : World) (d : LocalSessionData) :
  LocalStorageManager.readData rt w = Some (d, w1) →
  let unsynced := filter (λ s, LocalSession.synced s = false) (sessions d) in
  ∃ counts w',
    syncLocalSessionsToDB rt w = Some ({| success := true; data := Some counts |}, w')
    ∧ syncedCount counts + failedCount counts = Z.of_nat (length unsynced)
    ∧ 0 ≤ syncedCount counts ∧ 0 ≤ failedCount counts
    ∧ requests w' = requests w ++ map session_request unsynced.
Proof.
  intros Hread unsynced.
  destruct (readData_frame rt w w1 d Hread) as (Hst & _ & Hreq & _).
  unfold syncLocalSessionsToDB, LocalStorageManager.getAllSessions, bind.
  rewrite Hread. unfold ret. fold unsynced. case_decide as Hnone.
  - eexists _, w1. split; [reflexivity|]. rewrite Hnone.
    destruct unsynced; [|done]. simpl. rewrite app_nil_r. repeat split; (lia || done).
  - destruct (sync_sessions_counts rt unsynced 0 0 w1)
      as (counts & w' & -> & Hsum & Hs & Hf & Hr).
    { apply (reads_with_same_store (λ _, True) rt w); [by exists d, w1 | exact Hst]. }
    exists counts, w'. split; [reflexivity|]. rewrite Hr, Hreq. repeat split; lia.
Qed.

Lemma syncLocalSessionsToDB_counts_witness :
  ∃ counts w',
    syncLocalSessionsToDB flaky_runtime pending_world
    = Some ({| success := true; data := Some counts |}, w')
    ∧ syncedCount counts + failedCount counts = 2
    ∧ length (requests w') = 2%nat.
Proof.
  destruct (syncLocalSessionsToDB_counts flaky_runtime pending_world pending_world
              pending_sessions)
    as (counts & w' & Hrun & Hsum & _ & _ & Hreq).
  - vm_compute. reflexivity.
  - exists counts, w'. split; [exact Hrun|]. split; [exact Hsum|]. by rewrite Hreq.
Defined.

(** X13. [syncConversationsToDB] returns with [success] true and counts
    of synced and failed conversations that add up to the number of
    unsynced conversations of the document read, and it sends at least
    one request for each of them. A failed insert of a message is not
    counted: the counts are of conversations only. *)
Theorem syncConversationsToDB_counts (rt : Runtime) (w w1 : World) (d : ConversationData) :
  ConversationStorageManager.readData rt w = Some (d, w1) →
  let unsynced := filter (λ c, LocalConversation.synced c = false) (conversations d) in
  ∃ counts w',
    syncConversationsToDB rt w = Some ({| success := true; data := Some counts |}, w')
    ∧ syncedCount counts + failedCount counts = Z.of_nat (length unsynced)
    ∧ 0 ≤ syncedCount counts ∧ 0 ≤ failedCount counts
    ∧ (length (requests w) + length unsynced ≤ length (requests w'))%nat.
Proof.
  intros Hread unsynced.
  destruct (readData_frame rt w w1 d Hread) as (Hst & _ & Hreq & _).
  unfold syncConversationsToDB, bind. rewrite Hread. fold unsynced.
  case_decide as Hnone.
  - eexists _, w1. split; [reflexivity|]. rewrite Hnone, Hreq. simpl.
    repeat split; lia.
  - destruct (sync_conversations_counts rt unsynced 0 0 w1)
      as (counts & w' & -> & Hsum & Hs & Hf & Hr).
    { apply (reads_with_same_store (λ _, True) rt w); [by exists d, w1 | exact Hst]. }
    exists counts, w'. split; [reflexivity|]. rewrite Hreq in Hr. repeat split; lia.
Qed.

Lemma syncConversationsToDB_counts_witness :
  ∃ counts w',
    syncConversationsToDB flaky_runtime pending_world
    = Some ({| success := true; data := Some counts |}, w')
    ∧ syncedCount counts + failedCount counts = 1.
Proof.
  destruct (syncConversationsToDB_counts flaky_runtime pending_world pending_world
              pending_conversations)
    as (counts & w' & Hrun & Hsum & _).
  - vm_compute. reflexivity.
  - exists counts, w'. split; [exact Hrun | exact Hsum].
Defined.

(** *** When no insert settles *)

Lemma settles_false (r : response) :
  settles r = false →
  r = Rejected ∨ ∃ code message, r = Error code message
                                 ∧ table_not_found code message = false.
Proof. destruct r as [|code message|]; [done | right; by exists code, message | by left]. Qed.

Lemma sync_sessions_unsettled (rt : Runtime) (ss : list LocalSession.t) :
  (∀ n, settles (remote rt n) = false) →
  ∀ (syncedCount0 failedCount0 : Z) (w : World),
    ∃ w', sync_sessions ss syncedCount0 failedCount0 rt w
          = Some ({| syncedCount := syncedCount0;
                     failedCount := failedCount0 + Z.of_nat (length ss) |}, w')
          ∧ localStorage w' = localStorage w
          ∧ setItem_calls w' = setItem_calls w.
Proof.
  intros Hfail. induction ss as [|s ss IH]; intros sc fc w.
  - exists w. simpl. by rewrite Z.add_0_r.
  - cbn [sync_sessions]. unfold bind at 1. unfold supabase_insert at 1.
    destruct (IH sc (fc + 1) (sent {| table := js "user_sessions"; row := session_row s |} w))
      as (w' & Hrun & Hst & Hcalls).
    replace (fc + Z.of_nat (length (s :: ss))) with (fc + 1 + Z.of_nat (length ss))
      by (simpl length; lia).
    exists w'. split; [|done].
    destruct (settles_false _ (Hfail (length (requests w)))) as [-> | (code & message & -> & ->)];
      exact Hrun.
Qed.

Lemma sync_conversations_unsettled (rt : Runtime) (cs : list LocalConversation.t) :
  (∀ n, settles (remote rt n) = false) →
  ∀ (syncedCount0 failedCount0 : Z) (w : World),
    ∃ w', sync_conversations cs syncedCount0 failedCount0 rt w
          = Some ({| syncedCount := syncedCount0;
                     failedCount := failedCount0 + Z.of_nat (length cs) |}, w')
          ∧ localStorage w' = localStorage w
          ∧ setItem_calls w' = setItem_calls w
          ∧ requests w' = requests w ++ map conversation_request cs.
Proof.
  intros Hfail. induction cs as [|c cs IH]; intros sc fc w.
  - exists w. simpl. by rewrite Z.add_0_r, app_nil_r.
  - cbn [sync_conversations]. unfold bind at 1. unfold supabase_insert at 1.
    fold (conversation_request c).
    destruct (IH sc (fc + 1) (sent (conversation_request c) w))
      as (w' & Hrun & Hst & Hcalls & Hreq).
    replace (fc + Z.of_nat (length (c :: cs))) with (fc + 1 + Z.of_nat (length cs))
      by (simpl length; lia).
    exists w'. split; [|split; [done|split; [done|]]].
    + destruct (settles_false _ (Hfail (length (requests w))))
        as [-> | (code & message & -> & ->)]; exact Hrun.
    + rewrite Hreq. simpl. by rewrite <- app_assoc.
Qed.

(** X14. When the remote settles no insert (every call is rejected or
    answers an error other than a missing table), both synchronisations
    still return [success] true, with no record counted as synced and
    every unsynced record counted as failed; the store is left as it was
    and [setItem] is not called, so the records stay unsynced. No message
    of a conversation is sent. *)
Theorem sync_failures_leave_store (rt : Runtime) (w w1 : World) :
  (∀ n, settles (remote rt n) = false) →
  (∀ d : LocalSessionData,
     LocalStorageManager.readData rt w = Some (d, w1) →
     let unsynced := filter (λ s, LocalSession.synced s = false) (sessions d) in
     ∃ w',
       syncLocalSessionsToDB rt w
       = Some ({| success := true;
                  data := Some {| syncedCount := 0;
                                  failedCount := Z.of_nat (length unsynced) |} |}, w')
       ∧ localStorage w' = localStorage w
       ∧ setItem_calls w' = setItem_calls w)
  ∧
  (∀ d : ConversationData,
     ConversationStorageManager.readData rt w = Some (d, w1) →
     let unsynced := filter (λ c, LocalConversation.synced c = false) (conversations d) in
     ∃ w',
       syncConversationsToDB rt w
       = Some ({| success := true;
                  data := Some {| syncedCount := 0;
                                  failedCount := Z.of_nat (length unsynced) |} |}, w')
       ∧ localStorage w' = localStorage w
       ∧ setItem_calls w' = setItem_calls w
       ∧ requests w' = requests w ++ map conversation_request unsynced).
Proof.
  intros Hfail. split; intros d Hread unsynced;
    destruct (readData_frame rt w w1 d Hread) as (Hst & Hcalls & Hreq & _).
  - unfold syncLocalSessionsToDB, LocalStorageManager.getAllSessions, bind.
    rewrite Hread. unfold ret. fold unsynced. case_decide as Hnone.
    + exists w1. by rewrite Hnone.
    + destruct (sync_sessions_unsettled rt unsynced Hfail 0 0 w1) as (w' & -> & Hst' & Hcalls').
      exists w'. split; [reflexivity|]. by rewrite Hst', Hcalls'.
  - unfold syncConversationsToDB, bind. rewrite Hread. fold unsynced.
    case_decide as Hnone.
    + exists w1. rewrite Hnone. destruct unsynced; [|done]. simpl.
      by rewrite app_nil_r.
    + destruct (sync_conversations_unsettled rt unsynced Hfail 0 0 w1)
        as (w' & -> & Hst' & Hcalls' & Hreq').
      exists w'. split; [reflexivity|]. by rewrite Hst', Hcalls', Hreq', Hreq.
Qed.

Lemma sync_failures_leave_store_witness :
  (∃ w', syncLocalSessionsToDB offline_runtime pending_world
         = Some ({| success := true;
                    data := Some {| syncedCount := 0; failedCount := 2 |} |}, w')
         ∧ localStorage w' = localStorage pending_world)
  ∧ (∃ w', syncConversationsToDB offline_runtime pending_world
           = Some ({| success := true;
                      data := Some {| syncedCount := 0; failedCount := 1 |} |}, w')
           ∧ length (requests w') = 1%nat).
Proof.
  destruct (sync_failures_leave_store offline_runtime pending_world pending_world
              (λ _, eq_refl)) as [Hs Hc].
  split.
  - destruct (Hs pending_sessions) as (w' & Hrun & Hst & _); [vm_compute; reflexivity|].
    exists w'. split; [exact Hrun | exact Hst].
  - destruct (Hc pending_conversations) as (w' & Hrun & _ & _ & Hreq);
      [vm_compute; reflexivity|].
    exists w'. split; [exact Hrun|]. by rewrite Hreq.
Defined.

(** *** When every insert settles *)

Lemma settles_true (r : response) :
  settles r = true →
  r = Inserted ∨ ∃ code message, r = Error code message
                                 ∧ table_not_found code message = true.
Proof. destruct r as [|code message|]; [by left | right; by exists code, message | done]. Qed.

Section Marking.
Context {A : Type} (ident : A → jsstring) (is_synced : A → bool).

(** Marking the first record with an identifier leaves only the other
    identifiers to be marked, when the identifiers are distinct. *)
Lemma mark_progress (l : list A) (i : nat) (x y : A) (todo : list jsstring) :
  NoDup (ident <$> l) →
  l !! i = Some x → ident y = ident x → is_synced y = true →
  (∀ a, a ∈ l → is_synced a = false → ident a ∈ ident x :: todo) →
  ∀ a, a ∈ <[i := y]> l → is_synced a = false → ident a ∈ todo.
Proof.
  intros Hnd Hi Hid Hy Hinv a Ha Hun.
  apply list_elem_of_lookup in Ha as [j Hj].
  apply list_lookup_insert_Some in Hj as [(_ & <- & _) | (Hne & Hj)]; [congruence|].
  assert (a ∈ l) as Hin by (apply list_elem_of_lookup; by exists j).
  pose proof (Hinv a Hin Hun) as Hcase.
  apply elem_of_cons in Hcase as [Heq | Hrest]; [|exact Hrest].
  exfalso. apply Hne.
  apply (NoDup_lookup (ident <$> l) i j (ident x) Hnd).
  - by rewrite list_lookup_fmap, Hi.
  - rewrite list_lookup_fmap, Hj. simpl. by rewrite Heq.
Qed.

Lemma absent_progress (l : list A) (k : jsstring) (todo : list jsstring) :
  Forall (λ a, ident a ≠ k) l →
  (∀ a, a ∈ l → is_synced a = false → ident a ∈ k :: todo) →
  ∀ a, a ∈ l → is_synced a = false → ident a ∈ todo.
Proof.
  intros Habs Hinv a Ha Hun.
  pose proof (Hinv a Ha Hun) as Hcase.
  apply elem_of_cons in Hcase as [Heq | Hrest]; [|exact Hrest].
  rewrite Forall_forall in Habs. by destruct (Habs a Ha).
Qed.

Lemma nothing_left (l : list A) :
  (∀ a, a ∈ l → is_synced a = false → ident a ∈ @nil jsstring) →
  Forall (λ a, is_synced a = true) l.
Proof.
  intros Hinv. apply Forall_forall. intros a Ha.
  destruct (is_synced a) eqn:Hs; [done|]. by destruct (not_elem_of_nil _ (Hinv a Ha Hs)).
Qed.

Lemma unsynced_listed (l : list A) :
  ∀ a, a ∈ l → is_synced a = false →
       ident a ∈ ident <$> filter (λ a, is_synced a = false) l.
Proof.
  intros a Ha Hun. apply list_elem_of_fmap. exists a. split; [done|].
  by apply list_elem_of_filter.
Qed.
End Marking.

Section AllSettled.
Variable rt : Runtime.
Hypothesis Hroom : ∀ n, quota_exceeded rt n = false.
Hypothesis Hsettled : ∀ n, settles (remote rt n) = true.

Lemma session_markSynced_progress (w : World) (d : LocalSessionData)
    (k : jsstring) (todo : list jsstring) :
  holds w d →
  NoDup (LocalSession.id <$> sessions d) →
  (∀ s, s ∈ sessions d → LocalSession.synced s = false → LocalSession.id s ∈ k :: todo) →
  ∃ b w' d',
    LocalStorageManager.markSynced k rt w = Some (b, w')
    ∧ holds w' d'
    ∧ LocalSession.id <$> sessions d' = LocalSession.id <$> sessions d
    ∧ (∀ s, s ∈ sessions d' → LocalSession.synced s = false → LocalSession.id s ∈ todo).
Proof.
  intros Hheld Hnd Hinv.
  pose proof (readData_holds rt w d Hheld) as Hread.
  change (LocalStorageManager.readData rt w = Some (d, w)) in Hread.
  unfold LocalStorageManager.markSynced. fold synced_update.
  destruct (list_find (λ s, LocalSession.id s = k) (sessions d)) as [[i x]|] eqn:Hfind.
  - rewrite (updateSession_found rt w w d k synced_update i x Hread Hfind).
    apply list_find_Some in Hfind as (Hi & Hk & _). subst k.
    destruct (saveData_accepted rt (tick w)
                (LocalStorageManager.with_sessions d
                   (<[i := merge_session x synced_update (toISOString rt (clock rt (dates w)))]>
                      (sessions d)))
                (Hroom _)) as (w' & Hsave & Hheld' & _).
    eexists true, w', _. split; [exact Hsave|]. split; [exact Hheld'|].
    cbn [stamp records LocalStorageManager.with_sessions].
    split.
    + apply (fmap_insert_same _ _ i x); [exact Hi | reflexivity].
    + apply (mark_progress LocalSession.id LocalSession.synced (sessions d) i x _ todo Hnd Hi);
        [reflexivity | reflexivity | exact Hinv].
  - rewrite (updateSession_absent rt w w d k synced_update Hread
               (proj1 (list_find_None _ _) Hfind)).
    exists false, w, d. split; [reflexivity|]. split; [exact Hheld|]. split; [reflexivity|].
    apply (absent_progress LocalSession.id LocalSession.synced _ k);
      [exact (proj1 (list_find_None _ _) Hfind) | exact Hinv].
Qed.

Lemma conversation_markSynced_progress (w : World) (d : ConversationData)
    (k : jsstring) (todo : list jsstring) :
  holds w d →
  NoDup (LocalConversation.id <$> conversations d) →
  (∀ c, c ∈ conversations d → LocalConversation.synced c = false →
        LocalConversation.id c ∈ k :: todo) →
  ∃ b w' d',
    ConversationStorageManager.markSynced k rt w = Some (b, w')
    ∧ holds w' d'
    ∧ LocalConversation.id <$> conversations d' = LocalConversation.id <$> conversations d
    ∧ (∀ c, c ∈ conversations d' → LocalConversation.synced c = false →
            LocalConversation.id c ∈ todo).
Proof.
  intros Hheld Hnd Hinv.
  pose proof (readData_holds rt w d Hheld) as Hread.
  change (ConversationStorageManager.readData rt w = Some (d, w)) in Hread.
  destruct (list_find (λ c, LocalConversation.id c = k) (conversations d))
    as [[i x]|] eqn:Hfind.
  - unfold ConversationStorageManager.markSynced, bind. rewrite Hread, Hfind, now_ISO_run.
    apply list_find_Some in Hfind as (Hi & Hk & _). subst k.
    destruct (saveData_accepted rt (tick w)
                (ConversationStorageManager.with_conversations d
                   (<[i := ConversationStorageManager.mark x
                             (toISOString rt (clock rt (dates w)))]>
                      (conversations d)))
                (Hroom _)) as (w' & Hsave & Hheld' & _).
    eexists true, w', _. split; [exact Hsave|]. split; [exact Hheld'|].
    cbn [stamp records ConversationStorageManager.with_conversations].
    split.
    + apply (fmap_insert_same _ _ i x); [exact Hi | reflexivity].
    + apply (mark_progress LocalConversation.id LocalConversation.synced (conversations d) i x _
               todo Hnd Hi); [reflexivity | reflexivity | exact Hinv].
  - rewrite (conversation_markSynced_absent rt w w d k Hread
               (proj1 (list_find_None _ _) Hfind)).
    exists false, w, d. split; [reflexivity|]. split; [exact Hheld|]. split; [reflexivity|].
    apply (absent_progress LocalConversation.id LocalConversation.synced _ k);
      [exact (proj1 (list_find_None _ _) Hfind) | exact Hinv].
Qed.

Lemma sync_sessions_settled (ss : list LocalSession.t) :
  ∀ (syncedCount0 failedCount0 : Z) (w : World) (d : LocalSessionData),
    holds w d →
    NoDup (LocalSession.id <$> sessions d) →
    (∀ s, s ∈ sessions d → LocalSession.synced s = false →
          LocalSession.id s ∈ LocalSession.id <$> ss) →
    ∃ w' d',
      sync_sessions ss syncedCount0 failedCount0 rt w
      = Some ({| syncedCount := syncedCount0 + Z.of_nat (length ss);
                 failedCount := failedCount0 |}, w')
      ∧ holds w' d'
      ∧ Forall (λ s, LocalSession.synced s = true) (sessions d')
      ∧ LocalSession.id <$> sessions d' = LocalSession.id <$> sessions d.
Proof.
  induction ss as [|s ss IH]; intros sc fc w d Hheld Hnd Hinv.
  - exists w, d. simpl. rewrite Z.add_0_r. split; [reflexivity|]. split; [exact Hheld|].
    split; [|reflexivity].
    by apply (nothing_left LocalSession.id LocalSession.synced).
  - cbn [sync_sessions]. unfold bind at 1. unfold supabase_insert at 1.
    assert (∃ w' d',
              bind (LocalStorageManager.markSynced (LocalSession.id s))
                   (λ _, sync_sessions ss (sc + 1) fc) rt (sent (session_request s) w)
              = Some ({| syncedCount := sc + Z.of_nat (length (s :: ss));
                         failedCount := fc |}, w')
              ∧ holds w' d'
              ∧ Forall (λ s, LocalSession.synced s = true) (sessions d')
              ∧ LocalSession.id <$> sessions d' = LocalSession.id <$> sessions d) as Hmark.
    { destruct (session_markSynced_progress (sent (session_request s) w) d
                  (LocalSession.id s) _ Hheld Hnd Hinv)
        as (b & v & dv & Hrun & Hv & Hids & Hinv').
      unfold bind. rewrite Hrun.
      destruct (IH (sc + 1) fc v dv Hv) as (w' & d' & Hloop & Hheld' & Hall & Hids');
        [by rewrite Hids | exact Hinv' |].
      exists w', d'. rewrite Hloop.
      replace (sc + 1 + Z.of_nat (length ss)) with (sc + Z.of_nat (length (s :: ss)))
        by (simpl length; lia).
      split; [reflexivity|]. split; [exact Hheld'|]. split; [exact Hall|].
      by rewrite Hids'. }
    destruct (settles_true _ (Hsettled (length (requests w))))
      as [-> | (code & message & -> & ->)]; exact Hmark.
Qed.

Lemma sync_conversations_settled (cs : list LocalConversation.t) :
  ∀ (syncedCount0 failedCount0 : Z) (w : World) (d : ConversationData),
    holds w d →
    NoDup (LocalConversation.id <$> conversations d) →
    (∀ c, c ∈ conversations d → LocalConversation.synced c = false →
          LocalConversation.id c ∈ LocalConversation.id <$> cs) →
    ∃ w' d',
      sync_conversations cs syncedCount0 failedCount0 rt w
      = Some ({| syncedCount := syncedCount0 + Z.of_nat (length cs);
                 failedCount := failedCount0 |}, w')
      ∧ holds w' d'
      ∧ Forall (λ c, LocalConversation.synced c = true) (conversations d')
      ∧ LocalConversation.id <$> conversations d'
        = LocalConversation.id <$> conversations d.
Proof.
  induction cs as [|c cs IH]; intros sc fc w d Hheld Hnd Hinv.
  - exists w, d. simpl. rewrite Z.add_0_r. split; [reflexivity|]. split; [exact Hheld|].
    split; [|reflexivity].
    by apply (nothing_left LocalConversation.id LocalConversation.synced).
  - cbn [sync_conversations]. unfold bind at 1. unfold supabase_insert at 1.
    assert (∀ v, holds v d →
              ∃ w' d',
                bind (ConversationStorageManager.markSynced (LocalConversation.id c))
                     (λ _, sync_conversations cs (sc + 1) fc) rt v
                = Some ({| syncedCount := sc + Z.of_nat (length (c :: cs));
                           failedCount := fc |}, w')
                ∧ holds w' d'
                ∧ Forall (λ c, LocalConversation.synced c = true) (conversations d')
                ∧ LocalConversation.id <$> conversations d'
                  = LocalConversation.id <$> conversations d) as Hmark.
    { intros v0 Hv0.
      destruct (conversation_markSynced_progress v0 d
                  (LocalConversation.id c) _ Hv0 Hnd Hinv)
        as (b & v & dv & Hrun & Hv & Hids & Hinv').
      unfold bind. rewrite Hrun.
      destruct (IH (sc + 1) fc v dv Hv) as (w' & d' & Hloop & Hheld' & Hall & Hids');
        [by rewrite Hids | exact Hinv' |].
      exists w', d'. rewrite Hloop.
      replace (sc + 1 + Z.of_nat (length cs)) with (sc + Z.of_nat (length (c :: cs)))
        by (simpl length; lia).
      split; [reflexivity|]. split; [exact Hheld'|]. split; [exact Hall|].
      by rewrite Hids'. }
    destruct (settles_true _ (Hsettled (length (requests w))))
      as [-> | (code & message & -> & ->)].
    + unfold bind at 1.
      destruct (sync_messages_run rt (LocalConversation.messages c)
                  (sent {| table := js "conversations"; row := conversation_row c |} w))
        as (v & -> & Hst & _).
      apply Hmark. destruct Hheld as [Hkey Hver]. split; [|exact Hver].
      rewrite Hst. exact Hkey.
    + apply Hmark. exact Hheld.
Qed.
End AllSettled.

(** X15. When the store holds a session document with distinct
    identifiers, every write is accepted and the remote settles every
    insert (it accepts it, or answers that the table is missing),
    [syncLocalSessionsToDB] counts every unsynced session as synced and
    none as failed, and the store then holds a document with the same
    identifiers in the same order in which every session is synced. *)
Theorem syncLocalSessionsToDB_marks_all (rt : Runtime) (w : World) (d : LocalSessionData) :
  holds w d →
  NoDup (LocalSession.id <$> sessions d) →
  (∀ n, quota_exceeded rt n = false) →
  (∀ n, settles (remote rt n) = true) →
  let unsynced := filter (λ s, LocalSession.synced s = false) (sessions d) in
  ∃ w' d',
    syncLocalSessionsToDB rt w
    = Some ({| success := true;
               data := Some {| syncedCount := Z.of_nat (length unsynced);
                               failedCount := 0 |} |}, w')
    ∧ holds w' d'
    ∧ Forall (λ s, LocalSession.synced s = true) (sessions d')
    ∧ LocalSession.id <$> sessions d' = LocalSession.id <$> sessions d.
Proof.
  intros Hheld Hnd Hroom Hsettled unsynced.
  pose proof (readData_holds rt w d Hheld) as Hread.
  change (LocalStorageManager.readData rt w = Some (d, w)) in Hread.
  unfold syncLocalSessionsToDB, LocalStorageManager.getAllSessions, bind.
  rewrite Hread. unfold ret. fold unsynced.
  destruct (sync_sessions_settled rt Hroom Hsettled unsynced 0 0 w d Hheld Hnd)
    as (w' & d' & Hloop & Hheld' & Hall & Hids).
  { apply (unsynced_listed LocalSession.id LocalSession.synced). }
  case_decide as Hnone.
  - destruct unsynced; [|done]. injection Hloop as <-.
    exists w, d'. split; [reflexivity|]. done.
  - rewrite Hloop. exists w', d'. done.
Qed.

Lemma syncLocalSessionsToDB_marks_all_witness :
  ∃ w' d',
    syncLocalSessionsToDB sample_runtime pending_world
    = Some ({| success := true;
               data := Some {| syncedCount := 2; failedCount := 0 |} |}, w')
    ∧ holds w' d'
    ∧ Forall (λ s, LocalSession.synced s = true) (sessions d').
Proof.
  destruct (syncLocalSessionsToDB_marks_all sample_runtime pending_world pending_sessions)
    as (w' & d' & Hrun & Hheld & Hall & _).
  - split; reflexivity.
  - apply (bool_decide_unpack _). vm_compute. exact I.
  - reflexivity.
  - reflexivity.
  - exists w', d'. split; [exact Hrun|]. split; [exact Hheld | exact Hall].
Defined.

(** X16. The same for [syncConversationsToDB]: when the store holds a
    conversation document with distinct identifiers, every write is
    accepted and the remote settles every insert, all unsynced
    conversations are counted as synced and none as failed, and the store
    then holds a document with the same identifiers in the same order in
    which every conversation is synced. *)
Theorem syncConversationsToDB_marks_all (rt : Runtime) (w : World) (d : ConversationData) :
  holds w d →
  NoDup (LocalConversation.id <$> conversations d) →
  (∀ n, quota_exceeded rt n = false) →
  (∀ n, settles (remote rt n) = true) →
  let unsynced := filter (λ c, LocalConversation.synced c = false) (conversations d) in
  ∃ w' d',
    syncConversationsToDB rt w
    = Some ({| success := true;
               data := Some {| syncedCount := Z.of_nat (length unsynced);
                               failedCount := 0 |} |}, w')
    ∧ holds w' d'
    ∧ Forall (λ c, LocalConversation.synced c = true) (conversations d')
    ∧ LocalConversation.id <$> conversations d' = LocalConversation.id <$> conversations d.
Proof.
  intros Hheld Hnd Hroom Hsettled unsynced.
  pose proof (readData_holds rt w d Hheld) as Hread.
  change (ConversationStorageManager.readData rt w = Some (d, w)) in Hread.
  unfold syncConversationsToDB, bind. rewrite Hread. fold unsynced.
  destruct (sync_conversations_settled rt Hroom Hsettled unsynced 0 0 w d Hheld Hnd)
    as (w' & d' & Hloop & Hheld' & Hall & Hids).
  { apply (unsynced_listed LocalConversation.id LocalConversation.synced). }
  case_decide as Hnone.
  - destruct unsynced; [|done]. injection Hloop as <-.
    exists w, d'. split; [reflexivity|]. done.
  - rewrite Hloop. exists w', d'. done.
Qed.

Lemma syncConversationsToDB_marks_all_witness :
  ∃ w' d',
    syncConversationsToDB sample_runtime pending_world
    = Some ({| success := true;
               data := Some {| syncedCount := 1; failedCount := 0 |} |}, w')
    ∧ holds w' d'
    ∧ Forall (λ c, LocalConversation.synced c = true) (conversations d').
Proof.
  destruct (syncConversationsToDB_marks_all sample_runtime pending_world
              pending_conversations)
    as (w' & d' & Hrun & Hheld & Hall & _).
  - split; reflexivity.
  - apply (bool_decide_unpack _). vm_compute. exact I.
  - reflexivity.
  - reflexivity.
  - exists w', d'. split; [exact Hrun|]. split; [exact Hheld | exact Hall].
Defined.

(** ** registerSession *)

Lemma list_find_head {A} (P : A → Prop) `{!∀ x, Decision (P x)} (x : A) (l : list A) :
  P x → list_find P (x :: l) = Some (0%nat, x).
Proof. intros Hx. cbn [list_find]. by rewrite decide_True. Qed.

(** X17. [registerSession] saves the session locally before it calls the
    remote. When both writes are accepted the store afterwards holds the
    new session in front of the first 999 of the sessions read, whatever
    the remote answers, and exactly one insert has been sent. The stored
    session is synced exactly when the remote accepted the insert: it
    stays unsynced when the table is missing, although the result is then
    a success too. The result is a success exactly when the insert
    settled. *)
Theorem registerSession_saves_first (rt : Runtime) (w w1 : World) (d : LocalSessionData)
    (userId userAgent : jsstring) :
  LocalStorageManager.readData rt w = Some (d, w1) →
  quota_exceeded rt (setItem_calls w) = false →
  quota_exceeded rt (S (setItem_calls w)) = false →
  let r := remote rt (length (requests w)) in
  ∃ (result : RegisterResult) (w' : World) (d' : LocalSessionData) (s : LocalSession.t),
    registerSession userId userAgent rt w = Some (result, w')
    ∧ holds w' d'
    ∧ sessions d' = s :: take 999 (sessions d)
    ∧ LocalSession.userId s = userId
    ∧ LocalSession.userAgent s = userAgent
    ∧ LocalSession.loginAt s = toISOString rt (clock rt (dates w))
    ∧ LocalSession.logoutAt s = None
    ∧ LocalSession.synced s = inserted r
    ∧ register_success result = settles r
    ∧ requests w' = requests w ++ [register_request userId userAgent].
Proof.
  intros Hread Hq1 Hq2 r.
  destruct (readData_same_store rt w w1 (tick w) d Hread eq_refl)
    as (d0 & v1 & Hread0 & Hrec).
  change (LocalStorageManager.readData rt (tick w) = Some (d0, v1)) in Hread0.
  destruct (readData_frame rt (tick w) v1 d0 Hread0) as (_ & Hcalls & Hreq & _).
  cbn [tick setItem_calls requests] in Hcalls, Hreq.
  change (records d0 = records d) with (sessions d0 = sessions d) in Hrec.
  set (input := {| SessionInput.userId := userId;
                   SessionInput.userAgent := userAgent;
                   SessionInput.loginAt := toISOString rt (clock rt (dates w));
                   SessionInput.logoutAt := None;
                   SessionInput.durationSeconds := None |}).
  set (created := new_session input (randomUUID rt (uuids v1))
                    (toISOString rt (clock rt (dates v1)))).
  destruct (saveData_accepted rt (drawn (tick v1))
              (LocalStorageManager.with_sessions d0 (take 1000 (created :: sessions d0))))
    as (w2 & Hsave & Hheld2 & Hcalls2 & Hreq2).
  { cbn [drawn tick setItem_calls]. by rewrite Hcalls. }
  cbn [drawn tick setItem_calls requests] in Hcalls2, Hreq2.
  assert (registerSession userId userAgent rt w
          = match remote rt (length (requests w)) with
            | Rejected => Some (RemoteFailure Rejected, sent (register_request userId userAgent) w2)
            | Error code message =>
                if table_not_found code message
                then Some (SavedLocally (Some created),
                           sent (register_request userId userAgent) w2)
                else Some (RemoteFailure (Error code message),
                           sent (register_request userId userAgent) w2)
            | Inserted =>
                bind (LocalStorageManager.markSynced (LocalSession.id created))
                     (λ _, ret Registered) rt (sent (register_request userId userAgent) w2)
            end) as Hrun.
  { unfold registerSession. unfold bind at 1. rewrite now_ISO_run.
    unfold bind at 1. fold input.
    rewrite (addSession_run rt (tick w) v1 d0 input Hread0). fold created.
    unfold LocalStorageManager.saveData. rewrite Hsave.
    unfold bind at 1. unfold supabase_insert. fold (register_request userId userAgent).
    rewrite Hreq2, Hreq.
    destruct (remote rt (length (requests w))) as [|code message|]; try reflexivity.
    destruct (table_not_found code message); reflexivity. }
  assert (requests (sent (register_request userId userAgent) w2)
          = requests w ++ [register_request userId userAgent]) as Hsent
    by (cbn [sent requests]; by rewrite Hreq2, Hreq).
  assert (holds (sent (register_request userId userAgent) w2)
            (stamp (LocalStorageManager.with_sessions d0 (take 1000 (created :: sessions d0)))
               (toISOString rt (clock rt (dates (drawn (tick v1))))))) as Hheld3
    by exact Hheld2.
  rewrite Hrun. subst r.
  destruct (remote rt (length (requests w))) as [|code message|] eqn:Hr.
  - pose proof (readData_holds rt _ _ Hheld3) as Hread3.
    change (LocalStorageManager.readData rt (sent (register_request userId userAgent) w2)
            = Some (stamp (LocalStorageManager.with_sessions d0
                             (take 1000 (created :: sessions d0)))
                      (toISOString rt (clock rt (dates (drawn (tick v1))))),
                    sent (register_request userId userAgent) w2)) in Hread3.
    unfold bind, LocalStorageManager.markSynced. fold synced_update.
    rewrite (updateSession_found rt _ _ _ (LocalSession.id created) synced_update
               0 created Hread3)
      by (apply (list_find_head (λ s, LocalSession.id s = LocalSession.id created));
          reflexivity).
    destruct (saveData_accepted rt (tick (sent (register_request userId userAgent) w2))
                (LocalStorageManager.with_sessions
                   (stamp (LocalStorageManager.with_sessions d0
                             (take 1000 (created :: sessions d0)))
                      (toISOString rt (clock rt (dates (drawn (tick v1))))))
                   (<[0%nat := merge_session created synced_update
                                 (toISOString rt
                                    (clock rt (dates (sent (register_request userId userAgent)
                                                        w2))))]>
                      (take 1000 (created :: sessions d0)))))
      as (w' & Hsave' & Hheld' & _ & Hreq').
    { cbn [tick sent setItem_calls]. by rewrite Hcalls2, Hcalls. }
    unfold LocalStorageManager.saveData.
    change (sessions (stamp (LocalStorageManager.with_sessions d0
                               (take 1000 (created :: sessions d0)))
                        (toISOString rt (clock rt (dates (drawn (tick v1)))))))
      with (take 1000 (created :: sessions d0)).
    rewrite Hsave'. unfold ret.
    eexists Registered, w', _, _. split; [reflexivity|]. split; [exact Hheld'|].
    split; [rewrite <- Hrec; reflexivity|].
    repeat (split; [reflexivity|]).
    rewrite Hreq'. exact Hsent.
  - destruct (table_not_found code message) eqn:Htable.
    + eexists _, _, _, created. split; [reflexivity|]. split; [exact Hheld3|].
      split; [rewrite <- Hrec; reflexivity|].
      do 5 (split; [reflexivity|]). split; [cbn [settles register_success]; by rewrite Htable | exact Hsent].
    + eexists _, _, _, created. split; [reflexivity|]. split; [exact Hheld3|].
      split; [rewrite <- Hrec; reflexivity|].
      do 5 (split; [reflexivity|]). split; [cbn [settles register_success]; by rewrite Htable | exact Hsent].
  - eexists _, _, _, created. split; [reflexivity|]. split; [exact Hheld3|].
    split; [rewrite <- Hrec; reflexivity|].
    do 5 (split; [reflexivity|]). split; [reflexivity | exact Hsent].
Qed.

Lemma registerSession_saves_first_witness :
  ∃ (result : RegisterResult) (w' : World) (d' : LocalSessionData) (s : LocalSession.t),
    registerSession (js "user-1") (js "Test") offline_runtime sample_world
    = Some (result, w')
    ∧ holds w' d'
    ∧ sessions d' = s :: sessions sample_sessions
    ∧ LocalSession.synced s = false
    ∧ register_success result = false.
Proof.
  destruct (registerSession_saves_first offline_runtime sample_world sample_world
              sample_sessions (js "user-1") (js "Test"))
    as (result & w' & d' & s & Hrun & Hheld & Hlist & _ & _ & _ & _ & Hsynced & Hok & _).
  - vm_compute. reflexivity.
  - reflexivity.
  - reflexivity.
  - exists result, w', d', s. split; [exact Hrun|]. split; [exact Hheld|].
    split; [exact Hlist|]. split; [exact Hsynced | exact Hok].
Defined.

(** ** getUserConversations *)

Section SortDesc.
Context {A : Type} (key : A → Z).

Lemma insert_desc_perm (x : A) (l : list A) : insert_desc key x l ≡ₚ x :: l.
Proof.
  induction l as [|y l IH]; [reflexivity|]. simpl.
  destruct (key x <? key y); [|reflexivity].
  rewrite IH. apply Permutation_swap.
Qed.

Lemma sort_desc_perm (l : list A) : sort_desc key l ≡ₚ l.
Proof.
  induction l as [|x l IH]; [reflexivity|].
  unfold sort_desc in *. simpl. rewrite insert_desc_perm. by rewrite IH.
Qed.

Lemma insert_desc_sorted (x : A) (l : list A) :
  StronglySorted (λ a b, key b ≤ key a) l →
  StronglySorted (λ a b, key b ≤ key a) (insert_desc key x l).
Proof.
  induction 1 as [|y l Hsorted IH Hall]; simpl.
  - repeat constructor.
  - destruct (Z.ltb_spec (key x) (key y)) as [Hlt | Hge].
    + constructor; [exact IH|].
      rewrite insert_desc_perm. constructor; [lia | exact Hall].
    + constructor; [by constructor|].
      constructor; [exact Hge|].
      eapply Forall_impl; [exact Hall|]. simpl. intros z Hz. lia.
Qed.

Lemma sort_desc_sorted (l : list A) :
  StronglySorted (λ a b, key b ≤ key a) (sort_desc key l).
Proof.
  induction l as [|x l IH]; [constructor|].
  unfold sort_desc in *. simpl. by apply insert_desc_sorted.
Qed.

(** The sort is stable: the elements of one key keep their order. *)
Lemma insert_desc_stable (k : Z) (x : A) (l : list A) :
  filter (λ a, key a = k) (insert_desc key x l) = filter (λ a, key a = k) (x :: l).
Proof.
  induction l as [|y l IH]; [reflexivity|]. simpl.
  destruct (Z.ltb_spec (key x) (key y)) as [Hlt | Hge]; [|reflexivity].
  rewrite (filter_cons _ y), IH, !(filter_cons _ x), !(filter_cons _ y).
  destruct (decide (key x = k)), (decide (key y = k)); (reflexivity || lia).
Qed.

Lemma sort_desc_stable (k : Z) (l : list A) :
  filter (λ a, key a = k) (sort_desc key l) = filter (λ a, key a = k) l.
Proof.
  induction l as [|x l IH]; [reflexivity|].
  unfold sort_desc in *. simpl. rewrite insert_desc_stable.
  by rewrite !(filter_cons _ x), IH.
Qed.
End SortDesc.

(** X18. [getUserConversations] writes nothing. When the dates of the
    user's conversations parse, it returns exactly the user's
    conversations of the document read, each once, ordered from the
    latest update to the earliest; those updated at the same time keep
    their stored order. *)
Theorem getUserConversations_sorted (rt : Runtime) (w w1 : World) (d : ConversationData)
    (userId : jsstring) :
  ConversationStorageManager.readData rt w = Some (d, w1) →
  let mine := filter (λ c, LocalConversation.userId c = userId) (conversations d) in
  let updated := λ c, getTime rt (LocalConversation.updatedAt c) in
  Forall (λ c, is_Some (Date_parse rt (LocalConversation.updatedAt c))) mine →
  ∃ result,
    getUserConversations userId rt w = Some (result, w1)
    ∧ result ≡ₚ mine
    ∧ StronglySorted (λ a b, updated b ≤ updated a) result
    ∧ (∀ t, filter (λ c, updated c = t) result = filter (λ c, updated c = t) mine)
    ∧ localStorage w1 = localStorage w
    ∧ setItem_calls w1 = setItem_calls w.
Proof.
  intros Hread mine updated Hdates.
  destruct (readData_frame rt w w1 d Hread) as (Hst & Hcalls & _).
  unfold getUserConversations, bind. rewrite Hread. unfold runtime. fold mine.
  case_decide as Hfew.
  - exists mine. split; [reflexivity|]. split; [reflexivity|].
    split; [|done].
    destruct mine as [|a [|b l]]; [constructor | repeat constructor | simpl in Hfew; lia].
  - apply (proj2 (mapM_is_Some _ _)) in Hdates as [times ->].
    exists (sort_desc updated mine). split; [reflexivity|].
    split; [apply sort_desc_perm|]. split; [apply sort_desc_sorted|].
    split; [intros t; apply sort_desc_stable | done].
Qed.

Lemma getUserConversations_sorted_witness :
  ∃ result,
    getUserConversations (js "user-1") sample_runtime aged_world = Some (result, aged_world)
    ∧ result ≡ₚ conversations aged_conversations
    ∧ StronglySorted
        (λ a b, getTime sample_runtime (LocalConversation.updatedAt b)
                ≤ getTime sample_runtime (LocalConversation.updatedAt a)) result.
Proof.
  destruct (getUserConversations_sorted sample_runtime aged_world aged_world
              aged_conversations (js "user-1"))
    as (result & Hrun & Hperm & Hsorted & _).
  - vm_compute. reflexivity.
  - repeat constructor; by eexists.
  - exists result. split; [exact Hrun|]. split; [exact Hperm | exact Hsorted].
Defined.

(** ** Blank messages and titles *)

Lemma trimStart_blank (s : jsstring) :
  trimStart s = [] ↔ Forall (λ c, is_white_space c = true) s.
Proof.
  induction s as [|c s IH]; simpl.
  - split; [constructor | done].
  - destruct (is_white_space c) eqn:Hc.
    + rewrite IH. split; [by constructor | by inversion 1].
    + split; [done|]. inversion 1; congruence.
Qed.

Lemma trim_blank (s : jsstring) :
  trim s = [] ↔ Forall (λ c, is_white_space c = true) s.
Proof.
  rewrite <- trimStart_blank. unfold trim.
  destruct (trimStart s) as [|c r] eqn:Hs; [done|].
  rewrite trimEnd_cons by exact (trimStart_head _ _ _ Hs). done.
Qed.

(** X19. [generateTitle] returns the empty title exactly for a text of
    white space only (the empty text included), which is exactly when the
    title it returns counts as no title ([!conversation.title]); and a
    title never starts with white space. *)
Theorem generateTitle_blank (messageText : jsstring) :
  (generateTitle messageText = [] ↔ Forall (λ c, is_white_space c = true) messageText)
  ∧ (no_title (Some (generateTitle messageText)) = true
     ↔ Forall (λ c, is_white_space c = true) messageText)
  ∧ (∀ c r, generateTitle messageText = c :: r → is_white_space c = false).
Proof.
  assert (∀ c r, generateTitle messageText = c :: r → is_white_space c = false) as Hhead.
  { intros c r.
    destruct (decide (length (trim messageText) ≤ 50)%nat) as [Hshort | Hlong].
    - rewrite generateTitle_short by exact Hshort. apply trim_head.
    - rewrite generateTitle_long by lia. cbv zeta.
      destruct (trim messageText) as [|c0 r0] eqn:Ht; [simpl in Hlong; lia|].
      pose proof (trim_head _ _ _ Ht) as Hc0.
      change (take 50 (c0 :: r0)) with (c0 :: take 49 r0).
      destruct (Z.ltb_spec 0 (lastIndexOf SPACE (c0 :: take 49 r0))) as [Hpos | _].
      + destruct (Z.to_nat (lastIndexOf SPACE (c0 :: take 49 r0))) as [|n] eqn:Hn; [lia|].
        simpl. by intros [= <- _].
      + simpl. by intros [= <- _]. }
  assert (generateTitle messageText = [] ↔ Forall (λ c, is_white_space c = true) messageText)
    as Hblank.
  { rewrite <- trim_blank.
    destruct (decide (length (trim messageText) ≤ 50)%nat) as [Hshort | Hlong].
    - by rewrite generateTitle_short.
    - rewrite generateTitle_long by lia. cbv zeta.
      split.
      + destruct (0 <? _); intros Hnil; apply (f_equal length) in Hnil;
          rewrite length_app in Hnil; simpl in Hnil; lia.
      + intros Hnil. rewrite Hnil in Hlong. simpl in Hlong. lia. }
  split; [exact Hblank|]. split; [|exact Hhead].
  rewrite <- Hblank. unfold no_title.
  destruct (generateTitle messageText); done.
Qed.

(** ** Cleanup of records without a date *)

Section CleanupUndated.
Context {R : Type} `{SchemaLaws R}.
Variable createdAt : R → jsstring.

(** A record whose creation timestamp is not a date fails the comparison
    with the cutoff and is removed. *)
Lemma cleanup_undated (rt : Runtime) (w w1 : World) (d : Document R) (r : R) :
  readData rt w = Some (d, w1) →
  r ∈ records d →
  Date_parse rt (createdAt r) = None →
  ∃ n w', cleanup createdAt rt w = Some (n, w')
    ∧ 1 ≤ n
    ∧ setItem_calls w' = S (setItem_calls w)
    ∧ (quota_exceeded rt (setItem_calls w) = false →
         ∃ d', holds w' d' ∧ (r ∉ records d') ∧ records d' ⊆ records d)
    ∧ (quota_exceeded rt (setItem_calls w) = true → localStorage w' = localStorage w).
Proof.
  intros Hread Hin Hdate.
  destruct (cleanup_outcome createdAt rt w w1 d Hread) as (w' & Hrun & _ & Hsome).
  set (cutoffDate := setDate_back rt (clock rt (dates w1)) CLEANUP_DAYS) in *.
  pose proof (date_ge_invalid rt (createdAt r) cutoffDate Hdate) as Hfalse.
  assert (r ∈ filter (λ r, ¬ date_ge rt (createdAt r) cutoffDate = true) (records d))
    as Hremoved.
  { apply list_elem_of_filter. split; [by rewrite Hfalse | exact Hin]. }
  destruct (filter (λ r, ¬ date_ge rt (createdAt r) cutoffDate = true) (records d))
    as [|r0 removed] eqn:Hlist; [by apply not_elem_of_nil in Hremoved|].
  destruct Hsome as (Hcalls & Hsaved & Hrefused); [done|].
  eexists _, w'. split; [exact Hrun|]. split; [simpl length; lia|].
  split; [exact Hcalls|]. split; [|exact Hrefused].
  intros Hq. destruct (Hsaved Hq) as (d' & Hheld & Hrec).
  exists d'. split; [exact Hheld|]. rewrite Hrec. split.
  - intros [Hkept _]%list_elem_of_filter. congruence.
  - intros x [_ Hx]%list_elem_of_filter. exact Hx.
Qed.
End CleanupUndated.

(** X20. A record whose [createdAt] is not a date is removed by the
    cleanup, whatever its age: the cleanup then returns a count of at
    least one and calls [setItem] once. When the write is accepted the
    store holds a document without the record; when the write is refused
    the count is returned all the same, although the store is as it was.
    For sessions and for conversations. *)
Theorem cleanup_removes_undated (rt : Runtime) (w w1 : World) :
  (∀ (d : LocalSessionData) (s : LocalSession.t),
     LocalStorageManager.readData rt w = Some (d, w1) →
     s ∈ sessions d →
     Date_parse rt (LocalSession.createdAt s) = None →
     ∃ n w', LocalStorageManager.cleanupOldData rt w = Some (n, w')
       ∧ 1 ≤ n
       ∧ setItem_calls w' = S (setItem_calls w)
       ∧ (quota_exceeded rt (setItem_calls w) = false →
            ∃ d', holds w' d' ∧ (s ∉ sessions d') ∧ sessions d' ⊆ sessions d)
       ∧ (quota_exceeded rt (setItem_calls w) = true →
            localStorage w' = localStorage w))
  ∧
  (∀ (d : ConversationData) (c : LocalConversation.t),
     ConversationStorageManager.readData rt w = Some (d, w1) →
     c ∈ conversations d →
     Date_parse rt (LocalConversation.createdAt c) = None →
     ∃ n w', ConversationStorageManager.cleanupOldConversations rt w = Some (n, w')
       ∧ 1 ≤ n
       ∧ setItem_calls w' = S (setItem_calls w)
       ∧ (quota_exceeded rt (setItem_calls w) = false →
            ∃ d', holds w' d' ∧ (c ∉ conversations d')
                  ∧ conversations d' ⊆ conversations d)
       ∧ (quota_exceeded rt (setItem_calls w) = true →
            localStorage w' = localStorage w)).
Proof.
  split.
  - intros d s Hread Hin Hdate.
    exact (cleanup_undated LocalSession.createdAt rt w w1 d s Hread Hin Hdate).
  - intros d c Hread Hin Hdate.
    exact (cleanup_undated LocalConversation.createdAt rt w w1 d c Hread Hin Hdate).
Qed.

Lemma cleanup_removes_undated_witness :
  ∃ n w' d',
    LocalStorageManager.cleanupOldData sample_runtime undated_world = Some (n, w')
    ∧ 1 ≤ n
    ∧ holds w' d'
    ∧ undated_session ∉ sessions d'.
Proof.
  destruct (proj1 (cleanup_removes_undated sample_runtime undated_world undated_world)
              undated_sessions undated_session)
    as (n & w' & Hrun & Hn & _ & Hsaved & _).
  - vm_compute. reflexivity.
  - apply list_elem_of_further, list_elem_of_here.
  - reflexivity.
  - destruct (Hsaved eq_refl) as (d' & Hheld & Hout & _).
    exists n, w', d'. split; [exact Hrun|]. split; [exact Hn|].
    split; [exact Hheld | exact Hout].
Defined.

(** ** The first write after a reset *)

Lemma limit_conversations_one (userId : jsstring) (c : LocalConversation.t) :
  ConversationStorageManager.limit_conversations userId [c] = [c].
Proof.
  unfold ConversationStorageManager.limit_conversations.
  rewrite decide_False; [reflexivity|].
  pose proof (length_filter (λ c, LocalConversation.userId c = userId) [c]) as Hlen.
  unfold ConversationStorageManager.MAX_CONVERSATIONS. simpl in Hlen. lia.
Qed.

(** X21. When the store has no entry under the key of a manager, or a
    text that does not parse, or a value of another version, the first
    accepted [createConversation] or [addSession] stores a document of
    the current version whose only record is the new one: what was
    stored under the key before is overwritten. *)
Theorem first_write_after_reset (rt : Runtime) (w : World) :
  quota_exceeded rt (setItem_calls w) = false →
  (resets LocalConversation.t w →
   ∀ userId initialMessage,
     ∃ c w' d',
       ConversationStorageManager.createConversation userId initialMessage rt w
       = Some (Some c, w')
       ∧ holds w' d'
       ∧ conversations d' = [c]
       ∧ LocalConversation.userId c = userId)
  ∧
  (resets LocalSession.t w →
   ∀ session,
     ∃ s w' d',
       LocalStorageManager.addSession session rt w = Some (Some s, w')
       ∧ holds w' d'
       ∧ sessions d' = [s]
       ∧ LocalSession.userId s = SessionInput.userId session).
Proof.
  intros Hq. split; intros Hreset.
  - intros userId initialMessage.
    pose proof (readData_reset rt w Hreset) as Hread.
    change (ConversationStorageManager.readData rt w
            = Some (empty_document (toISOString rt (clock rt (dates w))), tick w)) in Hread.
    rewrite (createConversation_run rt w _ _ userId initialMessage Hread). cbv zeta.
    change (conversations (empty_document (toISOString rt (clock rt (dates w)))))
      with (@nil LocalConversation.t).
    rewrite limit_conversations_one.
    destruct (saveData_accepted rt (drawn (tick (tick w)))
                (ConversationStorageManager.with_conversations
                   (empty_document (toISOString rt (clock rt (dates w))))
                   [ConversationStorageManager.new_conversation userId initialMessage
                      (randomUUID rt (uuids (tick w)))
                      (toISOString rt (clock rt (dates (tick w))))]) Hq)
      as (w' & Hsave & Hheld & _).
    unfold ConversationStorageManager.saveData. rewrite Hsave.
    eexists _, w', _. split; [reflexivity|]. split; [exact Hheld|].
    split; reflexivity.
  - intros session.
    pose proof (readData_reset rt w Hreset) as Hread.
    change (LocalStorageManager.readData rt w
            = Some (empty_document (toISOString rt (clock rt (dates w))), tick w)) in Hread.
    rewrite (addSession_run rt w _ _ session Hread). cbv zeta.
    change (sessions (empty_document (toISOString rt (clock rt (dates w)))))
      with (@nil LocalSession.t).
    destruct (saveData_accepted rt (drawn (tick (tick w)))
                (LocalStorageManager.with_sessions
                   (empty_document (toISOString rt (clock rt (dates w))))
                   (take 1000 [new_session session (randomUUID rt (uuids (tick w)))
                                 (toISOString rt (clock rt (dates (tick w))))])) Hq)
      as (w' & Hsave & Hheld & _).
    unfold LocalStorageManager.saveData. rewrite Hsave.
    eexists _, w', _. split; [reflexivity|]. split; [exact Hheld|].
    split; reflexivity.
Qed.

Lemma first_write_after_reset_witness :
  ∃ c w' d',
    ConversationStorageManager.createConversation (js "user-1") None
      sample_runtime garbled_world = Some (Some c, w')
    ∧ holds w' d'
    ∧ conversations d' = [c].
Proof.
  destruct (proj1 (first_write_after_reset sample_runtime garbled_world eq_refl) I
              (js "user-1") None)
    as (c & w' & d' & Hrun & Hheld & Hone & _).
  exists c, w', d'. split; [exact Hrun|]. split; [exact Hheld | exact Hone].
Defined.
